(** * Changeset validation and merging (scripts/validate-changeset.mjs,
      scripts/merge-changesets.mjs)

    A shallow embedding of the two release-pipeline scripts and the
    properties their specification states about them.  In the source
    tree the merger is the first script of [scripts/merge-changesets.mjs]
    (lines 1-263) and the validator is the second script of
    [scripts/detect-code-changes.mjs] (lines 195-459).

    Conventions of the embedding:
    - a JavaScript string is the list of its UTF-16 code units ([N]);
    - the file system is reduced to the changeset directory: an optional
      association list from entry name to file, kept in the order in which
      [readdirSync] enumerates it;
    - [console.error] / [console.warn] lines are kept as structured values,
      [console.log] output (stdout) is not modelled;
    - the outcome of every shelled-out git command and of [Math.random] is
      an input of the run. *)

From Stdlib Require Import String Ascii.
From Stdlib Require Import List NArith ZArith Lia Bool.
From Stdlib Require Import Permutation Sorted.
Import ListNotations.

Local Open Scope N_scope.

(* ===================================================================== *)
(** ** JavaScript strings *)
(* ===================================================================== *)

Module Js.

Definition jsstring := list N.

(** An ASCII literal of the source as a list of code units. *)
Definition lit (s : String.string) : jsstring :=
  map N_of_ascii (String.list_ascii_of_string s).

Arguments lit s%_string.

Fixpoint str_eqb (a b : jsstring) : bool :=
  match a, b with
  | [], [] => true
  | x :: a', y :: b' => N.eqb x y && str_eqb a' b'
  | _, _ => false
  end.

(** [s.startsWith(p)] *)
Fixpoint startsWith (s p : jsstring) {struct p} : bool :=
  match p, s with
  | [], _ => true
  | y :: p', x :: s' => N.eqb x y && startsWith s' p'
  | _ :: _, [] => false
  end.

(** [s.endsWith(p)] *)
Definition endsWith (s p : jsstring) : bool :=
  startsWith (rev s) (rev p).

(** ECMAScript WhiteSpace and LineTerminator code points: what [\s] matches
    and what [trim] strips. *)
Definition is_line_terminator (c : N) : bool :=
  N.eqb c 10 || N.eqb c 13 || N.eqb c 8232 || N.eqb c 8233.

Definition is_space (c : N) : bool :=
  N.eqb c 9 || N.eqb c 10 || N.eqb c 11 || N.eqb c 12 || N.eqb c 13
  || N.eqb c 32 || N.eqb c 160 || N.eqb c 5760
  || (N.leb 8192 c && N.leb c 8202)
  || N.eqb c 8232 || N.eqb c 8233 || N.eqb c 8239 || N.eqb c 8287
  || N.eqb c 12288 || N.eqb c 65279.

Fixpoint trimStart (s : jsstring) : jsstring :=
  match s with
  | c :: s' => if is_space c then trimStart s' else s
  | [] => []
  end.

(** [s.trim()] *)
Definition trim (s : jsstring) : jsstring :=
  rev (trimStart (rev (trimStart s))).

(** [s.split(sep)] for a non-empty string separator (every call site passes
    a non-empty literal).  [skip] counts the code units of a separator
    occurrence still to be stepped over, [cur] is the current segment,
    reversed. *)
Fixpoint split_go (sep : jsstring) (skip : nat) (cur s : jsstring)
  : list jsstring :=
  match s with
  | [] => [rev cur]
  | c :: s' =>
      match skip with
      | S k => split_go sep k cur s'
      | O =>
          if startsWith s sep
          then rev cur :: split_go sep (length sep - 1) [] s'
          else split_go sep 0 (c :: cur) s'
      end
  end.

Definition split (s sep : jsstring) : list jsstring :=
  split_go sep 0 [] s.

(** [parts.join(sep)] *)
Fixpoint join (parts : list jsstring) (sep : jsstring) : jsstring :=
  match parts with
  | [] => []
  | [p] => p
  | p :: rest => p ++ sep ++ join rest sep
  end.

(** [parts.slice(n)] *)
Definition slice {A} (n : nat) (l : list A) : list A := skipn n l.

(** [s.replace(pat, '')] with a string pattern: the first occurrence of
    [pat] is removed, the string is unchanged when there is none. *)
Fixpoint remove_first (s pat : jsstring) : jsstring :=
  match s with
  | [] => []
  | c :: s' =>
      if startsWith s pat then skipn (length pat) s
      else c :: remove_first s' pat
  end.

(** Truthiness of a string: non-empty. *)
Definition truthy (s : jsstring) : bool :=
  match s with [] => false | _ :: _ => true end.

End Js.

Import Js.

(* ===================================================================== *)
(** ** Bump types and the priority resolver *)
(* ===================================================================== *)

(** The three tokens the capture group [(major|minor|patch)] can yield. *)
Inductive Bump := patch | minor | major.

Definition bump_text (b : Bump) : jsstring :=
  match b with
  | patch => lit "patch"
  | minor => lit "minor"
  | major => lit "major"
  end.

(** [const BUMP_PRIORITY = { patch: 1, minor: 2, major: 3 }] *)
Definition BUMP_PRIORITY (b : Bump) : N :=
  match b with
  | patch => 1
  | minor => 2
  | major => 3
  end.

(** [getHighestBumpType(types)]: the loop body is one step of a left fold
    over [types], starting from ['patch']. *)
Definition highest_step (highest type : Bump) : Bump :=
  if N.ltb (BUMP_PRIORITY highest) (BUMP_PRIORITY type) then type
  else highest.

Definition getHighestBumpType (types : list Bump) : Bump :=
  fold_left highest_step types patch.

(* ===================================================================== *)
(** ** The version-type regular expression *)
(* ===================================================================== *)

(** [const PACKAGE_NAME = 'my-package'].  Both scripts escape the regex
    metacharacters of the name ([.*+?^${}()|[\]\\]) before splicing it into
    the pattern; ['my-package'] holds none of them (['-'] is not in the
    class), so the name is matched literally. *)
Definition PACKAGE_NAME : jsstring := lit "my-package".

(** [const CHANGESET_DIR = '.changeset'] *)
Definition CHANGESET_DIR : jsstring := lit ".changeset".

(** The three-dash delimiter of the front matter. *)
Definition DELIM : jsstring := lit "---".

(** The escapes [\n] and [\t] of the source. *)
Definition NL : jsstring := [10].
Definition TAB : jsstring := [9].

Module Regex.

(** A backtracking matcher in continuation style: every piece receives the
    remaining input and the matcher [k] of the rest of the pattern, and
    yields the capture of the first alternative that lets the whole pattern
    succeed. *)
Definition orElse {A} (x y : option A) : option A :=
  match x with
  | Some _ => x
  | None => y
  end.

Definition m_lit (p s : jsstring) (k : jsstring -> option Bump)
  : option Bump :=
  if startsWith s p then k (skipn (length p) s) else None.

(** The two-character class of the pattern: apostrophe (39) or double
    quote (34); written [Q] below. *)
Definition is_quote (c : N) : bool := N.eqb c 39 || N.eqb c 34.

Definition m_quote (s : jsstring) (k : jsstring -> option Bump)
  : option Bump :=
  match s with
  | c :: s' => if is_quote c then k s' else None
  | [] => None
  end.

(** [Q?], greedy: first with the quote consumed, then without. *)
Definition m_quote_opt (s : jsstring) (k : jsstring -> option Bump)
  : option Bump :=
  orElse (m_quote s k) (k s).

(** [\s*] and [\s+], greedy with backtracking. *)
Fixpoint m_space_star (s : jsstring) (k : jsstring -> option Bump)
  : option Bump :=
  match s with
  | c :: s' =>
      if is_space c then orElse (m_space_star s' k) (k s) else k s
  | [] => k []
  end.

Definition m_space_plus (s : jsstring) (k : jsstring -> option Bump)
  : option Bump :=
  match s with
  | c :: s' => if is_space c then m_space_star s' k else None
  | [] => None
  end.

(** The capture group [(major|minor|patch)], alternatives in order; the
    pattern ends here, so the first alternative that matches wins. *)
Definition m_bump (s : jsstring) : option Bump :=
  if startsWith s (lit "major") then Some major
  else if startsWith s (lit "minor") then Some minor
  else if startsWith s (lit "patch") then Some patch
  else None.

(** The pattern after [^], for a given matcher [q] of the quote position:
    [q NAME q :\s+(major|minor|patch)]. *)
Definition match_here
  (q : jsstring -> (jsstring -> option Bump) -> option Bump)
  (s : jsstring) : option Bump :=
  q s (fun s1 =>
  m_lit PACKAGE_NAME s1 (fun s2 =>
  q s2 (fun s3 =>
  m_lit (lit ":") s3 (fun s4 =>
  m_space_plus s4 m_bump)))).

(** [content.match(regex)] with the [m] flag: the leftmost position at
    which the pattern matches, [^] holding at the start of the input and
    after every line terminator.  The result is capture group 1. *)
Fixpoint search
  (q : jsstring -> (jsstring -> option Bump) -> option Bump)
  (at_line_start : bool) (s : jsstring) : option Bump :=
  orElse (if at_line_start then match_here q s else None)
         match s with
         | [] => None
         | c :: s' => search q (is_line_terminator c) s'
         end.

(** validate-changeset.mjs: [^Qmy-packageQ:\s+(major|minor|patch)],
    both quotes mandatory. *)
Definition versionTypeMatch_validate (content : jsstring) : option Bump :=
  search m_quote true content.

(** merge-changesets.mjs: [^Q?my-packageQ?:\s+(major|minor|patch)],
    both quotes optional. *)
Definition versionTypeMatch_merge (content : jsstring) : option Bump :=
  search m_quote_opt true content.

End Regex.

(* ===================================================================== *)
(** ** The world of a run: directory, console, effects *)
(* ===================================================================== *)

Record File := mkFile { content : jsstring; mtime : Z }.

(** The entries of the changeset directory, in enumeration order. *)
Definition Dir := list (jsstring * File).

Inductive Exn :=
| ENOENT (path : jsstring)       (* a path that does not exist *)
| EACCES (path : jsstring)       (* a directory that may not be read *)
| TypeError                      (* a method called on [undefined] *)
| CommandFailed.                 (* [execSync] on a non-zero exit *)

(** What [validateChangesetFile] puts in its [error] field. *)
Inductive ValidationError :=
| NoVersionType        (* 'Changeset must specify a version type: ...' *)
| NoDescriptionPart    (* '... a description of the changes (after the
                           closing '---')' *)
| EmptyDescription     (* '... a non-empty description of the changes' *)
| ReadFailed (e : Exn).  (* `Failed to read changeset file: ...` *)

(** Lines written by [console.error] and [console.warn]. *)
Inductive Line :=
| E_NoChangeset                      (* '::error::No changeset found ...' *)
| E_Multiple (count : nat)           (* '::error::Multiple changesets
                                         found in this PR (count). ...' *)
| E_FoundHeader                      (* '::error::Found changeset files
                                         added by this PR:' *)
| E_File (file : jsstring)           (* `  ${file}` *)
| E_Combine                          (* '::error::Please combine ...' *)
| E_Validation (e : ValidationError) (* `::error::${validation.error}` *)
| E_ContentOf (path : jsstring)      (* `File content of ${path}:` *)
| E_Raw (text : jsstring)            (* the file content itself *)
| E_CouldNotRead                     (* '(could not read file)' *)
| E_During (e : Exn)                 (* 'Error during changeset
                                         validation:' *)
| E_StackTrace (e : Exn)             (* 'Stack trace:' *)
| W_NoVersionType (path : jsstring)  (* 'Warning: Could not parse version
                                         type from ..., skipping' *)
| W_FailedToParse (path : jsstring) (e : Exn)
| E_NoValid.                         (* 'Error: No valid changesets could
                                         be parsed' *)

Inductive FsOp :=
| OpWrite (path data : jsstring)
| OpUnlink (path : jsstring).

(** What is at the path of the changeset directory: nothing; a directory
    with its entries; or a directory whose entries can be reached by name
    but which may not be listed (search permission without read
    permission: [existsSync] answers [true], [readdirSync] fails). *)
Inductive DirState :=
| Absent
| Directory (d : Dir)
| Unlistable (d : Dir).

Record World := mkWorld {
  changeset_dir : DirState;
  clock : Z;                    (* the time stamped on written files *)
  stderr : list Line;           (* oldest line first *)
  journal : list FsOp           (* mutations performed, oldest first *)
}.

(** How a computation ends: a value, an exception in flight, or
    [process.exit(code)], which no [catch] intercepts. *)
Inductive Res (A : Type) :=
| Ok (a : A)
| Throw (e : Exn)
| Exit (code : Z).

Arguments Ok {A} a.
Arguments Throw {A} e.
Arguments Exit {A} code.

Definition Eff (A : Type) : Type := World -> Res A * World.

Definition ret {A} (a : A) : Eff A := fun w => (Ok a, w).

Definition bind {A B} (c : Eff A) (k : A -> Eff B) : Eff B :=
  fun w =>
    match c w with
    | (Ok a, w') => k a w'
    | (Throw e, w') => (Throw e, w')
    | (Exit n, w') => (Exit n, w')
    end.

Definition throw {A} (e : Exn) : Eff A := fun w => (Throw e, w).

Definition process_exit {A} (code : Z) : Eff A := fun w => (Exit code, w).

(** [try { c } catch (error) { h error }] *)
Definition try_catch {A} (c : Eff A) (h : Exn -> Eff A) : Eff A :=
  fun w =>
    match c w with
    | (Throw e, w') => h e w'
    | r => r
    end.

Declare Scope eff_scope.
Delimit Scope eff_scope with eff.
Notation "x <- c ;; k" := (bind c (fun x => k))
  (at level 61, c at next level, right associativity) : eff_scope.
Notation "c ;;; k" := (bind c (fun _ => k))
  (at level 61, right associativity) : eff_scope.
Local Open Scope eff_scope.

Definition console_error (l : Line) : Eff unit :=
  fun w => (Ok tt, mkWorld (changeset_dir w) (clock w)
                           (stderr w ++ [l]) (journal w)).

(** [console.warn] writes to the same stream. *)
Definition console_warn (l : Line) : Eff unit := console_error l.

Fixpoint console_error_each (ls : list Line) : Eff unit :=
  match ls with
  | [] => ret tt
  | l :: rest => console_error l ;;; console_error_each rest
  end.

(** [path.join(dir, file)]; on a directory entry name (no separator, no
    dot segment) the normalisation [join] performs changes nothing. *)
Definition path_join (dir file : jsstring) : jsstring :=
  dir ++ lit "/" ++ file.

(** The entry of the changeset directory a path designates. *)
Definition entry_of (path : jsstring) : option jsstring :=
  let prefix := CHANGESET_DIR ++ lit "/" in
  if startsWith path prefix then Some (skipn (length prefix) path)
  else None.

Fixpoint dir_lookup (name : jsstring) (d : Dir) : option File :=
  match d with
  | [] => None
  | (n, f) :: rest => if str_eqb n name then Some f else dir_lookup name rest
  end.

(** Writing replaces the entry in place or appends a new one. *)
Fixpoint dir_write (name : jsstring) (f : File) (d : Dir) : Dir :=
  match d with
  | [] => [(name, f)]
  | (n, g) :: rest =>
      if str_eqb n name then (n, f) :: rest
      else (n, g) :: dir_write name f rest
  end.

Definition dir_remove (name : jsstring) (d : Dir) : Dir :=
  filter (fun e => negb (str_eqb (fst e) name)) d.

Definition stat (path : jsstring) (w : World) : option File :=
  match changeset_dir w, entry_of path with
  | Directory d, Some name => dir_lookup name d
  | Unlistable d, Some name => dir_lookup name d
  | _, _ => None
  end.

Definition existsSync (path : jsstring) : Eff bool :=
  fun w =>
    (Ok (if str_eqb path CHANGESET_DIR
         then match changeset_dir w with Absent => false | _ => true end
         else match stat path w with Some _ => true | None => false end),
     w).

Definition readdirSync (path : jsstring) : Eff (list jsstring) :=
  fun w =>
    match changeset_dir w with
    | Directory d =>
        if str_eqb path CHANGESET_DIR then (Ok (map fst d), w)
        else (Throw (ENOENT path), w)
    | Unlistable _ =>
        if str_eqb path CHANGESET_DIR then (Throw (EACCES path), w)
        else (Throw (ENOENT path), w)
    | Absent => (Throw (ENOENT path), w)
    end.

Definition readFileSync (path : jsstring) : Eff jsstring :=
  fun w =>
    match stat path w with
    | Some f => (Ok (content f), w)
    | None => (Throw (ENOENT path), w)
    end.

(** [statSync(path).mtime.getTime()], integral milliseconds. *)
Definition statSync_mtime (path : jsstring) : Eff Z :=
  fun w =>
    match stat path w with
    | Some f => (Ok (mtime f), w)
    | None => (Throw (ENOENT path), w)
    end.

Definition writeFileSync (path data : jsstring) : Eff unit :=
  fun w =>
    match changeset_dir w, entry_of path with
    | Directory d, Some name =>
        (Ok tt,
         mkWorld (Directory (dir_write name (mkFile data (clock w)) d))
                 (clock w) (stderr w) (journal w ++ [OpWrite path data]))
    | Unlistable d, Some name =>
        (Ok tt,
         mkWorld (Unlistable (dir_write name (mkFile data (clock w)) d))
                 (clock w) (stderr w) (journal w ++ [OpWrite path data]))
    | _, _ => (Throw (ENOENT path), w)
    end.

Definition unlinkSync (path : jsstring) : Eff unit :=
  fun w =>
    match changeset_dir w, entry_of path with
    | Directory d, Some name =>
        match dir_lookup name d with
        | Some _ =>
            (Ok tt,
             mkWorld (Directory (dir_remove name d))
                     (clock w) (stderr w) (journal w ++ [OpUnlink path]))
        | None => (Throw (ENOENT path), w)
        end
    | Unlistable d, Some name =>
        match dir_lookup name d with
        | Some _ =>
            (Ok tt,
             mkWorld (Unlistable (dir_remove name d))
                     (clock w) (stderr w) (journal w ++ [OpUnlink path]))
        | None => (Throw (ENOENT path), w)
        end
    | _, _ => (Throw (ENOENT path), w)
    end.

(** The filter both scripts apply to a directory listing:
    [file.endsWith('.md') && file !== 'README.md']. *)
Definition is_changeset_file (file : jsstring) : bool :=
  endsWith file (lit ".md") && negb (str_eqb file (lit "README.md")).

(* ===================================================================== *)
(** ** scripts/merge-changesets.mjs *)
(* ===================================================================== *)

Module Merge.

Definition adjectives : list jsstring :=
  map lit
    ["bright"; "calm"; "cool"; "cyan"; "dark"; "fast"; "gold"; "good";
     "green"; "happy"; "kind"; "loud"; "neat"; "nice"; "pink"; "proud";
     "quick"; "red"; "rich"; "safe"; "shy"; "soft"; "sweet"; "tall";
     "warm"; "wise"; "young"]%string.

Definition nouns : list jsstring :=
  map lit
    ["apple"; "bird"; "book"; "car"; "cat"; "cloud"; "desk"; "dog";
     "door"; "fish"; "flower"; "frog"; "grass"; "house"; "key"; "lake";
     "leaf"; "moon"; "mouse"; "owl"; "park"; "rain"; "river"; "rock";
     "sea"; "star"; "sun"; "tree"; "wave"; "wind"]%string.

(** The two draws of a run: [Math.floor(Math.random() * length)] for the
    adjective and for the noun.  [Math.random()] lies in [0, 1), so each
    index is below the length of its list. *)
Record Random := mkRandom { adjective_index : nat; noun_index : nat }.

Definition in_range (r : Random) : Prop :=
  (adjective_index r < length adjectives)%nat
  /\ (noun_index r < length nouns)%nat.

(** [generateChangesetName()]; an index out of range would read
    [undefined], which the template prints as such. *)
Definition generateChangesetName (r : Random) : jsstring :=
  nth (adjective_index r) adjectives (lit "undefined")
  ++ lit "-" ++
  nth (noun_index r) nouns (lit "undefined").

(** The object [parseChangeset] returns. *)
Record Parsed := mkParsed {
  p_type : Bump;
  p_description : jsstring;
  p_mtime : Z
}.

(** [parseChangeset(filePath)]; [None] is [null]. *)
Definition parseChangeset (filePath : jsstring) : Eff (option Parsed) :=
  try_catch
    (content <- readFileSync filePath ;;
     stats_mtime <- statSync_mtime filePath ;;
     match Regex.versionTypeMatch_merge content with
     | None =>
         console_warn (W_NoVersionType filePath) ;;;
         ret None
     | Some type =>
         let parts := split content DELIM in
         let description :=
           if (3 <=? length parts)%nat
           then trim (join (slice 2 parts) DELIM)
           else [] in
         ret (Some (mkParsed type description stats_mtime))
     end)
    (fun error =>
       console_warn (W_FailedToParse filePath error) ;;;
       ret None).

(** An element of [parsedChangesets]: [{ file, filePath, ...parsed }]. *)
Record Changeset := mkChangeset {
  file : jsstring;
  filePath : jsstring;
  type : Bump;
  description : jsstring;
  c_mtime : Z
}.

(** The parsing loop; [acc] is [parsedChangesets] so far. *)
Fixpoint parseAll (files : list jsstring) (acc : list Changeset)
  : Eff (list Changeset) :=
  match files with
  | [] => ret acc
  | file :: rest =>
      let filePath := path_join CHANGESET_DIR file in
      parsed <- parseChangeset filePath ;;
      match parsed with
      | Some p =>
          parseAll rest
            (acc ++ [mkChangeset file filePath (p_type p)
                                 (p_description p) (p_mtime p)])
      | None => parseAll rest acc
      end
  end.

(** The comparator [(a, b) => a.mtime.getTime() - b.mtime.getTime()]. *)
Definition compare_mtime (a b : Changeset) : Z := (c_mtime a - c_mtime b)%Z.

(** [Array.prototype.sort] is stable (ECMAScript 2019), and for a
    comparator that is a consistent total preorder the stable sorted
    permutation is unique; it is computed here by insertion from the
    right, an element going before the first one it does not exceed. *)
Fixpoint insert_sorted (x : Changeset) (l : list Changeset)
  : list Changeset :=
  match l with
  | [] => [x]
  | y :: l' =>
      if (compare_mtime x y <=? 0)%Z then x :: l
      else y :: insert_sorted x l'
  end.

Definition sort (l : list Changeset) : list Changeset :=
  fold_right insert_sorted [] l.

(** [createMergedChangeset(type, descriptions)] *)
Definition combine (descriptions : list jsstring) : jsstring :=
  join descriptions (NL ++ NL).

Definition createMergedChangeset (type : Bump)
  (descriptions : list jsstring) : jsstring :=
  DELIM ++ NL ++
  lit "'" ++ PACKAGE_NAME ++ lit "': " ++ bump_text type ++ NL ++
  DELIM ++ NL ++
  NL ++
  combine descriptions ++ NL.

(** The loop that removes the original files. *)
Fixpoint unlinkAll (cs : list Changeset) : Eff unit :=
  match cs with
  | [] => ret tt
  | changeset :: rest =>
      unlinkSync (filePath changeset) ;;; unlinkAll rest
  end.

(** What a run that returns normally reports on the console. *)
Inductive Outcome :=
| NoMergeNeeded            (* 'No merging needed (0 or 1 changeset found)' *)
| Merged (mergedFileName : jsstring) (highestBumpType : Bump)
         (descriptions : list jsstring) (mergedContent : jsstring)
         (removed : list jsstring).

(** The descriptions kept for the merge:
    [.filter((c) => c.description).map((c) => c.description)]. *)
Definition descriptions_of (cs : list Changeset) : list jsstring :=
  map description (filter (fun c => truthy (description c)) cs).

Definition mergedFileName (r : Random) : jsstring :=
  lit "merged-" ++ generateChangesetName r ++ lit ".md".

(** [main()].  A run ends with [Ok outcome], with [Exit 1] when no file
    could be parsed, or with an uncaught exception. *)
Definition main (r : Random) : Eff Outcome :=
  entries <- readdirSync CHANGESET_DIR ;;
  let changesetFiles := filter is_changeset_file entries in
  if (length changesetFiles <=? 1)%nat then ret NoMergeNeeded
  else
    parsedChangesets <- parseAll changesetFiles [] ;;
    if (length parsedChangesets =? 0)%nat
    then console_error E_NoValid ;;; process_exit 1%Z
    else
      let sorted := sort parsedChangesets in
      let bumpTypes := map type sorted in
      let highestBumpType := getHighestBumpType bumpTypes in
      let descriptions := descriptions_of sorted in
      let mergedContent :=
        createMergedChangeset highestBumpType descriptions in
      let mergedFilePath := path_join CHANGESET_DIR (mergedFileName r) in
      writeFileSync mergedFilePath mergedContent ;;;
      unlinkAll sorted ;;;
      ret (Merged (mergedFileName r) highestBumpType descriptions
                  mergedContent (map file sorted)).

End Merge.

(* ===================================================================== *)
(** ** scripts/validate-changeset.mjs *)
(* ===================================================================== *)

Module Validate.

(** The outcome of the git commands the run shells out to, as the run
    observes them. *)
Record Git := mkGit {
  cat_file_ok : jsstring -> bool;       (* [git cat-file -e sha] *)
  fetch_ref_ok : jsstring -> bool;      (* [git fetch origin ref] *)
  fetch_ok : bool;                      (* [git fetch origin] *)
  diff_shas : jsstring -> jsstring -> option jsstring;
                       (* [git diff --name-status base head]: its output,
                          or [None] when the command fails *)
  diff_branch : jsstring -> option jsstring
                       (* [git diff --name-status origin/base...HEAD] *)
}.

(** [process.env]: a variable is absent or holds a string. *)
Definition Env := string -> option jsstring.

(** [a || b] on two environment reads: the first one that is set and
    non-empty, else the second read as it is. *)
Definition env_or (a b : option jsstring) : option jsstring :=
  match a with
  | Some (_ :: _) => a
  | _ => b
  end.

Definition env_truthy (a : option jsstring) : bool :=
  match a with
  | Some s => truthy s
  | None => false
  end.

Definition exec (ok : bool) : Eff unit :=
  if ok then ret tt else throw CommandFailed.

Definition exec_output (out : option jsstring) : Eff jsstring :=
  match out with
  | Some s => ret s
  | None => throw CommandFailed
  end.

(** [ensureCommitAvailable(sha)] *)
Definition ensureCommitAvailable (g : Git) (sha : jsstring) : Eff unit :=
  try_catch (exec (cat_file_ok g sha))
    (fun _ =>
       try_catch (exec (fetch_ref_ok g sha))
         (fun _ => exec (fetch_ok g))).

(** One line of the diff in [parseAddedChangesets]: [Ok None] when the
    line contributes nothing, a [TypeError] when the status is ['A'] and
    the line has no second field ([filePath] is [undefined]). *)
Definition added_of_line (line : jsstring) : Res (option jsstring) :=
  if negb (truthy line) then Ok None
  else
    let fields := split line TAB in
    let status := nth 0 fields [] in
    if str_eqb status (lit "A") then
      match nth_error fields 1 with
      | None => Throw TypeError
      | Some filePath =>
          if startsWith filePath (CHANGESET_DIR ++ lit "/")
             && endsWith filePath (lit ".md")
             && negb (endsWith filePath (lit "README.md"))
          then Ok (Some (remove_first filePath (CHANGESET_DIR ++ lit "/")))
          else Ok None
      end
    else Ok None.

Fixpoint added_of_lines (lines : list jsstring) (acc : list jsstring)
  : Res (list jsstring) :=
  match lines with
  | [] => Ok acc
  | line :: rest =>
      match added_of_line line with
      | Ok (Some f) => added_of_lines rest (acc ++ [f])
      | Ok None => added_of_lines rest acc
      | Throw e => Throw e
      | Exit n => Exit n
      end
  end.

(** [parseAddedChangesets(diffOutput)] *)
Definition parseAddedChangesets (diffOutput : jsstring)
  : Eff (list jsstring) :=
  fun w => (added_of_lines (split (trim diffOutput) NL) [], w).

(** [tryExplicitShaComparison(baseSha, headSha)]; [None] is [null]. *)
Definition tryExplicitShaComparison (g : Git) (baseSha headSha : jsstring)
  : Eff (option (list jsstring)) :=
  try_catch
    (ensureCommitAvailable g baseSha ;;;
     diffOutput <- exec_output (diff_shas g baseSha headSha) ;;
     added <- parseAddedChangesets diffOutput ;;
     ret (Some added))
    (fun _ => ret None).

(** [tryBaseBranchComparison(prBase)] *)
Definition tryBaseBranchComparison (g : Git) (prBase : jsstring)
  : Eff (option (list jsstring)) :=
  try_catch
    (try_catch (exec (fetch_ref_ok g prBase)) (fun _ => ret tt) ;;;
     diffOutput <- exec_output (diff_branch g prBase) ;;
     added <- parseAddedChangesets diffOutput ;;
     ret (Some added))
    (fun _ => ret None).

(** [getAllChangesets()] *)
Definition getAllChangesets : Eff (list jsstring) :=
  present <- existsSync CHANGESET_DIR ;;
  if negb present then ret []
  else
    entries <- readdirSync CHANGESET_DIR ;;
    ret (filter is_changeset_file entries).

Definition or_else_unset (a : option jsstring) : jsstring :=
  match a with
  | Some s => s
  | None => []
  end.

(** [getAddedChangesetFiles()] *)
Definition getAddedChangesetFiles (env : Env) (g : Git)
  : Eff (list jsstring) :=
  let baseSha := env_or (env "GITHUB_BASE_SHA"%string)
                        (env "BASE_SHA"%string) in
  let headSha := env_or (env "GITHUB_HEAD_SHA"%string)
                        (env "HEAD_SHA"%string) in
  let prBase := env "GITHUB_BASE_REF"%string in
  let branch_or_all :=
    if env_truthy prBase then
      result <- tryBaseBranchComparison g (or_else_unset prBase) ;;
      match result with
      | Some files => ret files
      | None => getAllChangesets
      end
    else getAllChangesets in
  if env_truthy baseSha && env_truthy headSha then
    result <- tryExplicitShaComparison g (or_else_unset baseSha)
                                         (or_else_unset headSha) ;;
    match result with
    | Some files => ret files
    | None => branch_or_all
    end
  else branch_or_all.

(** The object [validateChangesetFile] returns. *)
Inductive Validation :=
| Valid (type : Bump) (description : jsstring)
| Invalid (error : ValidationError).

(** The checks [validateChangesetFile] makes on the content it read. *)
Definition validateContent (content : jsstring) : Validation :=
  match Regex.versionTypeMatch_validate content with
  | None => Invalid NoVersionType
  | Some type =>
      let parts := split content DELIM in
      if (length parts <? 3)%nat then Invalid NoDescriptionPart
      else
        let description := trim (join (slice 2 parts) DELIM) in
        if negb (truthy description) then Invalid EmptyDescription
        else Valid type description
  end.

(** [validateChangesetFile(filePath)] *)
Definition validateChangesetFile (filePath : jsstring) : Eff Validation :=
  try_catch
    (content <- readFileSync filePath ;;
     ret (validateContent content))
    (fun error => ret (Invalid (ReadFailed error))).

(** What a run that passes reports: the type and the description. *)
Record Passed := mkPassed { v_type : Bump; v_description : jsstring }.

(** The body of the script's [try] block once the added files are known. *)
Definition validate (addedChangesetFiles : list jsstring) : Eff Passed :=
  let changesetCount := length addedChangesetFiles in
  if (changesetCount =? 0)%nat then
    console_error E_NoChangeset ;;;
    process_exit 1%Z
  else if (1 <? changesetCount)%nat then
    console_error (E_Multiple changesetCount) ;;;
    console_error E_FoundHeader ;;;
    console_error_each (map E_File addedChangesetFiles) ;;;
    console_error E_Combine ;;;
    process_exit 1%Z
  else
    let changesetFile :=
      path_join CHANGESET_DIR (nth 0 addedChangesetFiles []) in
    validation <- validateChangesetFile changesetFile ;;
    match validation with
    | Invalid error =>
        console_error (E_Validation error) ;;;
        console_error (E_ContentOf changesetFile) ;;;
        try_catch
          (text <- readFileSync changesetFile ;;
           console_error (E_Raw text))
          (fun _ => console_error E_CouldNotRead) ;;;
        process_exit 1%Z
    | Valid type description => ret (mkPassed type description)
    end.

(** The whole script: the [try] block and its [catch]. *)
Definition main (env : Env) (g : Git) : Eff Passed :=
  try_catch
    (addedChangesetFiles <- getAddedChangesetFiles env g ;;
     validate addedChangesetFiles)
    (fun error =>
       console_error (E_During error) ;;;
       (if env_truthy (env "DEBUG"%string)
        then console_error (E_StackTrace error)
        else ret tt) ;;;
       process_exit 1%Z).

End Validate.

(* ===================================================================== *)
(** ** Vocabulary of the statements *)
(* ===================================================================== *)

(** The world [w] after more lines went to the console. *)
Definition with_stderr (w : World) (ls : list Line) : World :=
  mkWorld (changeset_dir w) (clock w) (stderr w ++ ls) (journal w).

(** The names [readdirSync] lists, filtered as both scripts do. *)
Definition changesetFiles_of (d : Dir) : list jsstring :=
  filter is_changeset_file (map fst d).

(** The same on a world; nothing when there is no directory to list. *)
Definition snapshot (w : World) : list jsstring :=
  match changeset_dir w with
  | Directory d => changesetFiles_of d
  | _ => []
  end.

(** The directory is absent or can be listed: [readdirSync] does not
    fail on a path that [existsSync] reports. *)
Definition listable (w : World) : Prop :=
  match changeset_dir w with
  | Unlistable _ => False
  | _ => True
  end.

(** What the [catch] of the validator prints for an exception. *)
Definition catch_lines (env : Validate.Env) (e : Exn) : list Line :=
  E_During e
  :: (if Validate.env_truthy (env "DEBUG"%string) then [E_StackTrace e]
      else []).

(** The environment reads of [getAddedChangesetFiles]. *)
Definition baseSha_of (env : Validate.Env) : option jsstring :=
  Validate.env_or (env "GITHUB_BASE_SHA"%string) (env "BASE_SHA"%string).

Definition headSha_of (env : Validate.Env) : option jsstring :=
  Validate.env_or (env "GITHUB_HEAD_SHA"%string) (env "HEAD_SHA"%string).

Definition prBase_of (env : Validate.Env) : option jsstring :=
  env "GITHUB_BASE_REF"%string.

(** The records the parsing loop of [main] collects from the changeset
    files of the directory, in enumeration order. *)
Definition parsed_of (w : World) : list Merge.Changeset :=
  match changeset_dir w with
  | Directory d =>
      match Merge.parseAll (changesetFiles_of d) [] w with
      | (Ok cs, _) => cs
      | _ => []
      end
  | _ => []
  end.

(** The description [parseChangeset] extracts from a content. *)
Definition description_in (text : jsstring) : jsstring :=
  let parts := split text DELIM in
  if (3 <=? length parts)%nat then trim (join (slice 2 parts) DELIM)
  else [].

(** The record the loop builds for one entry, read off the directory. *)
Definition changeset_in (d : Dir) (file : jsstring)
  : option Merge.Changeset :=
  match dir_lookup file d with
  | Some f =>
      match Regex.versionTypeMatch_merge (content f) with
      | Some type =>
          Some (Merge.mkChangeset file (path_join CHANGESET_DIR file) type
                                  (description_in (content f)) (mtime f))
      | None => None
      end
  | None => None
  end.

Definition changesets_in (d : Dir) (files : list jsstring)
  : list Merge.Changeset :=
  flat_map (fun file => match changeset_in d file with
                        | Some c => [c]
                        | None => []
                        end) files.

(** The object [parseChangeset] returned for a record of the loop. *)
Definition as_parsed (c : Merge.Changeset) : Merge.Parsed :=
  Merge.mkParsed (Merge.type c) (Merge.description c) (Merge.c_mtime c).

(** The directory once the entries of [cs] are unlinked, in order. *)
Definition dir_remove_all (cs : list Merge.Changeset) (d : Dir) : Dir :=
  fold_left (fun d c => dir_remove (Merge.file c) d) cs d.

(** Records in non-decreasing, respectively strictly increasing, order of
    modification time. *)
Definition chronological (cs : list Merge.Changeset) : Prop :=
  StronglySorted (fun a b => (Merge.c_mtime a <= Merge.c_mtime b)%Z) cs.

Definition strictly_chronological (cs : list Merge.Changeset) : Prop :=
  StronglySorted (fun a b => (Merge.c_mtime a < Merge.c_mtime b)%Z) cs.


(** A declaration line [q1 NAME q2 : ws bump] of the front matter. *)
Definition declaration (q1 q2 ws : jsstring) (b : Bump) : jsstring :=
  q1 ++ PACKAGE_NAME ++ q2 ++ lit ":" ++ ws ++ bump_text b.

Definition is_a_quote (q : jsstring) : Prop := q = [39] \/ q = [34].

Definition is_optional_quote (q : jsstring) : Prop :=
  q = [] \/ is_a_quote q.

Definition all_space (ws : jsstring) : Prop :=
  ws <> [] /\ forallb is_space ws = true.

(* ===================================================================== *)
(** ** Sample files, directories and runs *)
(* ===================================================================== *)

(** The text [createChangeset] of the test suite writes, for a given
    declaration line and body. *)
Definition changeset_text (decl : jsstring) (body : jsstring) : jsstring :=
  DELIM ++ NL ++ decl ++ NL ++ DELIM ++ NL ++ NL ++ body ++ NL.

Definition sample_file (ty : Bump) (body : string) (t : Z) : File :=
  mkFile (changeset_text (lit "'my-package': " ++ bump_text ty) (lit body)) t.

(** The record [main] builds for such a file. *)
Definition sample_changeset (name : string) (ty : Bump) (body : string)
  (t : Z) : Merge.Changeset :=
  Merge.mkChangeset (lit name) (path_join CHANGESET_DIR (lit name)) ty
                    (lit body) t.

(** A changeset whose declaration leaves the package name unquoted. *)
Definition unquoted_text : jsstring :=
  changeset_text (lit "my-package: patch") (lit "Fix typo").


(** A changeset whose body is empty: the description segment is there,
    but holds nothing after trimming. *)
Definition empty_body_text (ty : Bump) : jsstring :=
  DELIM ++ NL ++ lit "'my-package': " ++ bump_text ty ++ NL ++ DELIM ++ NL.

Definition world_of (d : Dir) : World := mkWorld (Directory d) 100%Z [] [].

Definition no_dir : World := mkWorld Absent 100%Z [] [].

(** A directory that holds [d] and may not be listed. *)
Definition world_unlistable (d : Dir) : World :=
  mkWorld (Unlistable d) 100%Z [] [].

Definition no_env : Validate.Env := fun _ => None.

Definition git_unavailable : Validate.Git :=
  Validate.mkGit (fun _ => false) (fun _ => false) false
                 (fun _ _ => None) (fun _ => None).

(** Both draws of [Math.random] below 1/30: ['bright'] and ['apple']. *)
Definition random_00 : Merge.Random := Merge.mkRandom 0 0.

(** The directory the test suite sets up, and the same with one
    changeset. *)
Definition dir_readme_only : Dir :=
  [(lit "README.md", mkFile (lit "# Changesets") 1%Z);
   (lit "config.json", mkFile (lit "{}") 1%Z)].

Definition dir_single : Dir :=
  dir_readme_only
  ++ [(lit "only-change.md", sample_file patch "Only change" 5%Z)].

(** Scenario 1 of the specification, the newer file enumerated first. *)
Definition dir_scenario1 : Dir :=
  [(lit "README.md", mkFile (lit "# Changesets") 0%Z);
   (lit "b.md", sample_file minor "Add feature" 2%Z);
   (lit "a.md", sample_file patch "Fix typo" 1%Z)].

(** Two changesets, the newer one with an empty body. *)
Definition dir_empty_body : Dir :=
  [(lit "a.md", sample_file patch "Fix typo" 1%Z);
   (lit "b.md", mkFile (empty_body_text minor) 2%Z)].




(** Directories that already hold an entry under the name the draws
    [random_00] produce: a pending changeset (say, the result of an
    earlier merge), respectively a file that is not a changeset. *)
Definition dir_collision_source : Dir :=
  [(lit "merged-bright-apple.md", sample_file patch "Earlier merge" 1%Z);
   (lit "b.md", sample_file minor "Add feature" 2%Z)].

Definition dir_collision_draft : Dir :=
  [(lit "merged-bright-apple.md", mkFile (lit "Draft notes") 1%Z);
   (lit "a.md", sample_file patch "Fix typo" 2%Z);
   (lit "b.md", sample_file minor "Add feature" 3%Z)].

(* ===================================================================== *)
(** ** scripts/detect-code-changes.mjs *)
(* ===================================================================== *)

(** [s.includes(p)]: [p] occurs in [s] at some position. *)
Fixpoint includes (s p : jsstring) : bool :=
  startsWith s p
  || match s with
     | [] => false
     | _ :: s' => includes s' p
     end.

Module Detect.

(** The commands the script shells out to. *)
Inductive Cmd :=
| CatFile (sha : jsstring)           (* [git cat-file -e sha] *)
| Fetch (sha : jsstring)             (* [git fetch origin sha] *)
| DiffShas (base head : jsstring)    (* [git diff --name-only base head] *)
| DiffHead                           (* [git diff --name-only HEAD^ HEAD] *)
| LsTree.                            (* [git ls-tree --name-only -r HEAD] *)

(** What each command does when the run executes it: its standard output,
    or [None] when it exits with a failure ([execSync] then throws). *)
Definition Git := Cmd -> option jsstring.

(** What [appendFileSync(file, data)] does when the run calls it: [None]
    when the data is appended, or the exception it raises (the file
    cannot be created or written). *)
Definition Appender := jsstring -> jsstring -> option Exn.

(** What the run leaves behind: error lines and outputs.  [SetOutput]
    records one call of [setOutput] that came to its end; its first field
    is the file the line [name=value] was appended to, when
    [GITHUB_OUTPUT] is set. *)
Inductive Event :=
| ErrExec (command : Cmd)            (* 'Error executing command: ...' *)
| ErrDiffFailed                      (* `Git diff failed: ...` *)
| SetOutput (file : option jsstring) (name value : jsstring).

Definition M (A : Type) : Type := list Event -> Res A * list Event.

Definition mret {A} (a : A) : M A := fun l => (Ok a, l).

Definition mbind {A B} (c : M A) (k : A -> M B) : M B :=
  fun l =>
    match c l with
    | (Ok a, l') => k a l'
    | (Throw e, l') => (Throw e, l')
    | (Exit n, l') => (Exit n, l')
    end.

Definition mtry {A} (c : M A) (h : Exn -> M A) : M A :=
  fun l =>
    match c l with
    | (Throw e, l') => h e l'
    | r => r
    end.

Definition mthrow {A} (e : Exn) : M A := fun l => (Throw e, l).

Definition emit (e : Event) : M unit := fun l => (Ok tt, l ++ [e]).

Declare Scope det_scope.
Delimit Scope det_scope with det.
Notation "x <~ c ;; k" := (mbind c (fun x => k))
  (at level 61, c at next level, right associativity) : det_scope.
Notation "c ;;~ k" := (mbind c (fun _ => k))
  (at level 61, right associativity) : det_scope.
Local Open Scope det_scope.

(** [execSync(command, ...)] *)
Definition execSync (g : Git) (command : Cmd) : M jsstring :=
  fun l =>
    match g command with
    | Some out => (Ok out, l)
    | None => (Throw CommandFailed, l)
    end.

(** [exec(command)]: the trimmed output, or [''] after reporting the
    failure. *)
Definition exec (g : Git) (command : Cmd) : M jsstring :=
  mtry (out <~ execSync g command ;; mret (trim out))
       (fun _ => emit (ErrExec command) ;;~ mret []).

(** [setOutput(name, value)]: the line is appended to the output file
    first, when one is named, and an exception of the append escapes;
    then the line is printed. *)
Definition setOutput (env : Validate.Env) (append : Appender)
  (name value : jsstring) : M unit :=
  let outputFile := env "GITHUB_OUTPUT"%string in
  (if Validate.env_truthy outputFile then
     match append (Validate.or_else_unset outputFile)
                  (name ++ lit "=" ++ value ++ NL) with
     | Some error => mthrow error
     | None => mret tt
     end
   else mret tt) ;;~
  emit (SetOutput (if Validate.env_truthy outputFile then outputFile
                   else None)
                  name value).

(** [output ? output.split('\n').filter(Boolean) : []] *)
Definition lines_of (output : jsstring) : list jsstring :=
  if truthy output then filter truthy (split output NL) else [].

(** The comparison of [HEAD^] with [HEAD] and its [catch]. *)
Definition compareHead (g : Git) : M (list jsstring) :=
  mtry (output <~ exec g DiffHead ;; mret (lines_of output))
       (fun _ => output <~ exec g LsTree ;; mret (lines_of output)).

(** [getChangedFiles()].  The pull-request branch yields [Some files]
    when it returns, [None] when its [catch] lets the run fall through. *)
Definition getChangedFiles (env : Validate.Env) (g : Git)
  : M (list jsstring) :=
  let eventName :=
    match env "GITHUB_EVENT_NAME"%string with
    | Some (c :: s) => c :: s
    | _ => lit "local"
    end in
  if str_eqb eventName (lit "pull_request") then
    let baseSha := env "GITHUB_BASE_SHA"%string in
    let headSha := env "GITHUB_HEAD_SHA"%string in
    if Validate.env_truthy baseSha && Validate.env_truthy headSha then
      let base := Validate.or_else_unset baseSha in
      let head := Validate.or_else_unset headSha in
      compared <~
        mtry (mtry (execSync g (CatFile base) ;;~ mret tt)
                   (fun _ => execSync g (Fetch base) ;;~ mret tt) ;;~
              output <~ exec g (DiffShas base head) ;;
              mret (Some (lines_of output)))
             (fun _ => emit ErrDiffFailed ;;~ mret None) ;;
      match compared with
      | Some files => mret files
      | None => compareHead g
      end
    else compareHead g
  else compareHead g.

Definition excludedFolders : list jsstring :=
  map lit [".changeset/"; "docs/"; "experiments/"; "examples/"]%string.

(** [isExcludedFromCodeChanges(filePath)] *)
Definition isExcludedFromCodeChanges (filePath : jsstring) : bool :=
  if endsWith filePath (lit ".md") then true
  else existsb (fun folder => startsWith filePath folder) excludedFolders.

(** [codePattern.test(file)] for
    [/\.(mjs|js|json|yml|yaml)$|\.github\/workflows\//]: at some position
    either a dot, one of the five words and the end of the input, or the
    workflows path. *)
Definition code_extensions : list jsstring :=
  map lit ["mjs"; "js"; "json"; "yml"; "yaml"]%string.

Definition codePattern_here (s : jsstring) : bool :=
  match s with
  | 46 :: rest => existsb (fun word => str_eqb rest word) code_extensions
  | _ => false
  end
  || startsWith s (lit ".github/workflows/").

Fixpoint codePattern_test (s : jsstring) : bool :=
  codePattern_here s
  || match s with
     | [] => false
     | _ :: s' => codePattern_test s'
     end.

Definition bool_text (b : bool) : jsstring :=
  if b then lit "true" else lit "false".

(** The six flags [detectChanges] computes from the changed files. *)
Definition mjsChanged (changedFiles : list jsstring) : bool :=
  existsb (fun file => endsWith file (lit ".mjs")) changedFiles.

Definition jsChanged (changedFiles : list jsstring) : bool :=
  existsb (fun file => endsWith file (lit ".js")) changedFiles.

Definition packageChanged (changedFiles : list jsstring) : bool :=
  existsb (fun file => str_eqb file (lit "package.json")) changedFiles.

Definition docsChanged (changedFiles : list jsstring) : bool :=
  existsb (fun file => endsWith file (lit ".md")) changedFiles.

Definition workflowChanged (changedFiles : list jsstring) : bool :=
  existsb (fun file => startsWith file (lit ".github/workflows/"))
          changedFiles.

Definition codeChanged (changedFiles : list jsstring) : bool :=
  let codeChangedFiles :=
    filter (fun file => negb (isExcludedFromCodeChanges file)) changedFiles in
  existsb codePattern_test codeChangedFiles.

(** [detectChanges()] *)
Definition detectChanges (env : Validate.Env) (append : Appender) (g : Git)
  : M unit :=
  changedFiles <~ getChangedFiles env g ;;
  setOutput env append (lit "mjs-changed")
            (bool_text (mjsChanged changedFiles)) ;;~
  setOutput env append (lit "js-changed")
            (bool_text (jsChanged changedFiles)) ;;~
  setOutput env append (lit "package-changed")
            (bool_text (packageChanged changedFiles)) ;;~
  setOutput env append (lit "docs-changed")
            (bool_text (docsChanged changedFiles)) ;;~
  setOutput env append (lit "workflow-changed")
            (bool_text (workflowChanged changedFiles)) ;;~
  setOutput env append (lit "any-code-changed")
            (bool_text (codeChanged changedFiles)).

End Detect.

(** The six outputs [detectChanges] sets for a given list of changed
    files, as name and value in the order of the calls; the line
    [setOutput] appends for one of them; and the events of the calls that
    came to their end. *)
Definition output_flags (changedFiles : list jsstring)
  : list (jsstring * jsstring) :=
  [(lit "mjs-changed", Detect.bool_text (Detect.mjsChanged changedFiles));
   (lit "js-changed", Detect.bool_text (Detect.jsChanged changedFiles));
   (lit "package-changed",
    Detect.bool_text (Detect.packageChanged changedFiles));
   (lit "docs-changed", Detect.bool_text (Detect.docsChanged changedFiles));
   (lit "workflow-changed",
    Detect.bool_text (Detect.workflowChanged changedFiles));
   (lit "any-code-changed",
    Detect.bool_text (Detect.codeChanged changedFiles))].

Definition output_line (flag : jsstring * jsstring) : jsstring :=
  fst flag ++ lit "=" ++ snd flag ++ NL.

Definition outputs_of (file : option jsstring)
  (flags : list (jsstring * jsstring)) : list Detect.Event :=
  map (fun flag => Detect.SetOutput file (fst flag) (snd flag)) flags.

Definition outputs_for (file : option jsstring) (changedFiles : list jsstring)
  : list Detect.Event :=
  outputs_of file (output_flags changedFiles).

(** The calls of [setOutput] for a list of flags, one after the other. *)
Fixpoint setOutputs (env : Validate.Env) (append : Detect.Appender)
  (flags : list (jsstring * jsstring)) : Detect.M unit :=
  match flags with
  | [] => Detect.mret tt
  | flag :: rest =>
      Detect.mbind (Detect.setOutput env append (fst flag) (snd flag))
                   (fun _ => setOutputs env append rest)
  end.

(** An output file every append to which succeeds, and one in a
    directory that does not exist. *)
Definition append_ok : Detect.Appender := fun _ _ => None.

Definition append_fails : Detect.Appender := fun file _ => Some (ENOENT file).

Definition output_env : Validate.Env :=
  fun name =>
    if String.eqb name "GITHUB_OUTPUT" then Some (lit "/missing/output")
    else None.

(** The warnings the parsing loop of [main] prints for the listed files:
    one for every file whose content does not match the version-type
    pattern (and one for a file that cannot be read). *)
Definition warnings_in (d : Dir) (files : list jsstring) : list Line :=
  flat_map
    (fun file =>
       let path := path_join CHANGESET_DIR file in
       match dir_lookup file d with
       | Some f =>
           match Regex.versionTypeMatch_merge (content f) with
           | Some _ => []
           | None => [W_NoVersionType path]
           end
       | None => [W_FailedToParse path (ENOENT path)]
       end) files.

(** Whether the merger's parser accepts the entry [file] of [d]. *)
Definition parses_in (d : Dir) (file : jsstring) : bool :=
  match changeset_in d file with
  | Some _ => true
  | None => false
  end.

(** Three files that are not changesets, under names the filter keeps. *)
Definition dir_no_changeset : Dir :=
  [(lit "notes.md", mkFile (lit "Release notes") 1%Z);
   (lit "todo.md", mkFile (lit "---") 2%Z)].

(** [`${CHANGESET_DIR}/`] *)
Definition dir_prefix : jsstring := CHANGESET_DIR ++ lit "/".

(** A diff that adds one changeset, modifies another and touches code;
    and a repository where the base commit is at hand and that diff is
    the difference of the two revisions. *)
Definition diff_one_added : jsstring :=
  lit "M" ++ TAB ++ lit ".changeset/old.md" ++ NL
  ++ lit "A" ++ TAB ++ lit ".changeset/new.md" ++ NL
  ++ lit "M" ++ TAB ++ lit "src/index.js" ++ NL.

Definition diff_only_modified : jsstring :=
  lit "M" ++ TAB ++ lit ".changeset/old.md" ++ NL
  ++ lit "D" ++ TAB ++ lit ".changeset/gone.md" ++ NL.

Definition sha_env : Validate.Env :=
  fun name =>
    if String.eqb name "GITHUB_BASE_SHA" then Some (lit "abc")
    else if String.eqb name "GITHUB_HEAD_SHA" then Some (lit "def")
    else None.

Definition git_with_diff (out : jsstring) : Validate.Git :=
  Validate.mkGit (fun _ => true) (fun _ => false) false
                 (fun _ _ => Some out) (fun _ => None).

(** A pull request that adds [new.md] to a directory that already holds
    [old.md]. *)
Definition dir_pull_request : Dir :=
  [(lit "old.md", sample_file patch "Old change" 1%Z);
   (lit "new.md", sample_file minor "New change" 2%Z)].

(** What a git strategy makes of the output of its diff. *)
Definition added_in (out : jsstring) : option (list jsstring) :=
  match Validate.added_of_lines (split (trim out) NL) [] with
  | Ok files => Some files
  | _ => None
  end.

(** The file [setOutput] appends to, if any. *)
Definition output_file (env : Validate.Env) : option jsstring :=
  if Validate.env_truthy (env "GITHUB_OUTPUT"%string)
  then env "GITHUB_OUTPUT"%string else None.

(** A string that [trim] leaves alone and that is not empty: it neither
    starts nor ends with white space. *)
Definition tight (s : jsstring) : Prop :=
  s <> [] /\ trim s = s.

Definition no_leading_space (s : jsstring) : Prop :=
  match s with
  | c :: _ => is_space c = false
  | [] => True
  end.

(** Sample environments and repositories for the detection script. *)
Definition pr_env : Validate.Env :=
  fun name =>
    if String.eqb name "GITHUB_EVENT_NAME" then Some (lit "pull_request")
    else if String.eqb name "GITHUB_BASE_SHA" then Some (lit "abc")
    else if String.eqb name "GITHUB_HEAD_SHA" then Some (lit "def")
    else None.

Definition git_docs_only : Detect.Git :=
  fun c =>
    match c with
    | Detect.CatFile _ => Some []
    | Detect.DiffShas _ _ =>
        Some (lit "README.md" ++ NL ++ lit "docs/guide.txt" ++ NL
              ++ lit ".changeset/a.md" ++ NL)
    | _ => None
    end.

(** What [getChangedFiles] reads from the environment: the event name
    with its default, whether the run compares the two revisions of a
    pull request, and the two revisions. *)
Definition event_name (env : Validate.Env) : jsstring :=
  match env "GITHUB_EVENT_NAME"%string with
  | Some (c :: s) => c :: s
  | _ => lit "local"
  end.

Definition compares_revisions (env : Validate.Env) : bool :=
  str_eqb (event_name env) (lit "pull_request")
  && (Validate.env_truthy (env "GITHUB_BASE_SHA"%string)
      && Validate.env_truthy (env "GITHUB_HEAD_SHA"%string)).

Definition base_of (env : Validate.Env) : jsstring :=
  Validate.or_else_unset (env "GITHUB_BASE_SHA"%string).

Definition head_of (env : Validate.Env) : jsstring :=
  Validate.or_else_unset (env "GITHUB_HEAD_SHA"%string).

(** The base commit is at hand, or the fetch of it succeeds. *)
Definition base_obtainable (env : Validate.Env) (g : Detect.Git) : bool :=
  match g (Detect.CatFile (base_of env)), g (Detect.Fetch (base_of env)) with
  | None, None => false
  | _, _ => true
  end.

(** A repository in which every git command fails, and one where only the
    listing of the tree works (a first commit). *)
Definition git_all_fail : Detect.Git := fun _ => None.

Definition git_first_commit : Detect.Git :=
  fun c =>
    match c with
    | Detect.LsTree => Some (lit "index.js" ++ NL ++ lit "package.json" ++ NL)
    | _ => None
    end.

Definition git_pr_diff_fails : Detect.Git :=
  fun c =>
    match c with
    | Detect.CatFile _ => Some []
    | Detect.DiffHead => Some (lit "src/index.js" ++ NL)
    | _ => None
    end.

Definition git_base_missing : Detect.Git :=
  fun c =>
    match c with
    | Detect.DiffShas _ _ => Some (lit "README.md" ++ NL)
    | Detect.DiffHead => Some (lit "src/index.js" ++ NL)
    | _ => None
    end.

(** A front matter with an unquoted declaration before a quoted one. *)
Definition mixed_declarations : jsstring :=
  DELIM ++ NL ++ lit "my-package: major" ++ NL
  ++ lit "'my-package': patch" ++ NL ++ DELIM ++ NL ++ NL
  ++ lit "Fix typo" ++ NL.

(* ===================================================================== *)
(** ** Properties of the bump-priority resolver *)
(* ===================================================================== *)

Section HighestBump.

Lemma highest_step_comm (a b : Bump) :
  highest_step a b = highest_step b a.
Proof. destruct a, b; reflexivity. Qed.

Lemma highest_step_assoc (a b c : Bump) :
  highest_step (highest_step a b) c = highest_step a (highest_step b c).
Proof. destruct a, b, c; reflexivity. Qed.

Lemma highest_step_patch_l (a : Bump) : highest_step patch a = a.
Proof. destruct a; reflexivity. Qed.

Lemma fold_highest_from (l : list Bump) (a : Bump) :
  fold_left highest_step l a = highest_step a (getHighestBumpType l).
Proof.
  unfold getHighestBumpType.
  revert a; induction l as [|x l IH]; intros a; simpl.
  - destruct a; reflexivity.
  - rewrite (IH (highest_step a x)), (IH (highest_step patch x)).
    rewrite highest_step_patch_l. apply highest_step_assoc.
Qed.

Lemma getHighestBumpType_cons (x : Bump) (l : list Bump) :
  getHighestBumpType (x :: l) = highest_step x (getHighestBumpType l).
Proof.
  unfold getHighestBumpType at 1; simpl.
  rewrite highest_step_patch_l. apply fold_highest_from.
Qed.

Lemma getHighestBumpType_app (l1 l2 : list Bump) :
  getHighestBumpType (l1 ++ l2)
  = highest_step (getHighestBumpType l1) (getHighestBumpType l2).
Proof.
  unfold getHighestBumpType at 1.
  rewrite fold_left_app. fold (getHighestBumpType l1).
  apply fold_highest_from.
Qed.

Lemma getHighestBumpType_major (l : list Bump) :
  In major l -> getHighestBumpType l = major.
Proof.
  induction l as [|x l IH]; simpl; [tauto|].
  rewrite getHighestBumpType_cons.
  intros [->|H].
  - destruct (getHighestBumpType l); reflexivity.
  - rewrite (IH H). destruct x; reflexivity.
Qed.

Lemma getHighestBumpType_minor (l : list Bump) :
  ~ In major l -> In minor l -> getHighestBumpType l = minor.
Proof.
  induction l as [|x l IH]; simpl; [tauto|].
  rewrite getHighestBumpType_cons.
  intros Hno [->|H].
  - destruct (getHighestBumpType l) eqn:E; try reflexivity.
    exfalso. apply Hno. right.
    clear -E. induction l as [|y l IH]; [discriminate|].
    rewrite getHighestBumpType_cons in E.
    destruct y; [right; apply IH| right; apply IH | left; reflexivity];
      destruct (getHighestBumpType l); try discriminate; reflexivity.
  - rewrite IH by tauto.
    destruct x; try reflexivity. exfalso; apply Hno; left; reflexivity.
Qed.

Lemma getHighestBumpType_patch (l : list Bump) :
  ~ In major l -> ~ In minor l -> getHighestBumpType l = patch.
Proof.
  induction l as [|x l IH]; simpl; [reflexivity|].
  rewrite getHighestBumpType_cons. intros H1 H2.
  rewrite IH by tauto.
  destruct x; [reflexivity | exfalso; apply H2 | exfalso; apply H1];
    left; reflexivity.
Qed.

Lemma getHighestBumpType_perm (l1 l2 : list Bump) :
  Permutation l1 l2 -> getHighestBumpType l1 = getHighestBumpType l2.
Proof.
  induction 1 as [| x l l' _ IH | x y l | l l' l'' _ IH1 _ IH2].
  - reflexivity.
  - rewrite !getHighestBumpType_cons, IH. reflexivity.
  - rewrite !getHighestBumpType_cons, <- !highest_step_assoc.
    f_equal. apply highest_step_comm.
  - congruence.
Qed.

End HighestBump.

(** C5.  On every sequence of bump types the resolver returns [major] if
    some element is [major], else [minor] if some element is [minor], else
    [patch]; its result is the same for any two sequences with the same
    multiset of elements (the underlying binary step is commutative and
    associative, and the result on a concatenation is the step of the two
    results); on the empty sequence it returns [patch]. *)
Theorem getHighestBumpType_priority :
  (forall types : list Bump,
      (In major types -> getHighestBumpType types = major)
      /\ (~ In major types -> In minor types ->
          getHighestBumpType types = minor)
      /\ (~ In major types -> ~ In minor types ->
          getHighestBumpType types = patch))
  /\ (forall l1 l2 : list Bump,
         Permutation l1 l2 ->
         getHighestBumpType l1 = getHighestBumpType l2)
  /\ (forall a b : Bump, highest_step a b = highest_step b a)
  /\ (forall a b c : Bump,
         highest_step (highest_step a b) c
         = highest_step a (highest_step b c))
  /\ (forall l1 l2 : list Bump,
         getHighestBumpType (l1 ++ l2)
         = highest_step (getHighestBumpType l1) (getHighestBumpType l2))
  /\ getHighestBumpType [] = patch.
Proof.
  repeat split.
  - apply getHighestBumpType_major.
  - apply getHighestBumpType_minor.
  - apply getHighestBumpType_patch.
  - apply getHighestBumpType_perm.
  - apply highest_step_comm.
  - apply highest_step_assoc.
  - apply getHighestBumpType_app.
Qed.

Lemma getHighestBumpType_priority_witness :
  getHighestBumpType [patch; major; minor] = major
  /\ getHighestBumpType [minor; patch] = getHighestBumpType [patch; minor].
Proof.
  destruct getHighestBumpType_priority as [Hchar [Hperm _]].
  split.
  - apply (Hchar [patch; major; minor]). simpl. auto.
  - apply (Hperm [minor; patch] [patch; minor]). apply perm_swap.
Defined.

(* ===================================================================== *)
(** ** Basic facts about strings and paths *)
(* ===================================================================== *)

Lemma str_eqb_eq (a b : jsstring) : str_eqb a b = true <-> a = b.
Proof.
  revert b; induction a as [|x a IH]; intros [|y b]; simpl;
    try (split; [discriminate | discriminate]); [tauto|].
  rewrite andb_true_iff, N.eqb_eq, IH.
  split; [intros [-> ->]; reflexivity | intros [= -> ->]; auto].
Qed.

Lemma str_eqb_refl (a : jsstring) : str_eqb a a = true.
Proof. apply str_eqb_eq; reflexivity. Qed.

Lemma str_eqb_neq (a b : jsstring) : str_eqb a b = false <-> a <> b.
Proof.
  rewrite <- str_eqb_eq. destruct (str_eqb a b); split; congruence.
Qed.

Lemma startsWith_app (p s : jsstring) : startsWith (p ++ s) p = true.
Proof.
  induction p as [|x p IH]; simpl; [reflexivity|].
  rewrite N.eqb_refl, IH. reflexivity.
Qed.

Lemma skipn_prefix (p s : jsstring) : skipn (length p) (p ++ s) = s.
Proof. induction p; simpl; auto. Qed.

Lemma entry_of_join (name : jsstring) :
  entry_of (path_join CHANGESET_DIR name) = Some name.
Proof.
  unfold entry_of, path_join. rewrite app_assoc.
  rewrite startsWith_app, skipn_prefix. reflexivity.
Qed.

Lemma stat_join (w : World) (name : jsstring) :
  stat (path_join CHANGESET_DIR name) w =
  match changeset_dir w with
  | Directory d => dir_lookup name d
  | Unlistable d => dir_lookup name d
  | Absent => None
  end.
Proof.
  unfold stat. rewrite entry_of_join. destruct (changeset_dir w); reflexivity.
Qed.

(* ===================================================================== *)
(** ** The merger on at most one changeset *)
(* ===================================================================== *)

(** C4.  When the changeset directory holds at most one qualifying file
    (a name ending in [.md] other than [README.md]), [main] returns with
    the no-merge outcome and the world is the one it started in: same
    directory entries with the same contents, nothing written, nothing
    removed, nothing on the error stream. *)
Theorem main_noop_at_most_one (r : Merge.Random) (w : World) (d : Dir) :
  changeset_dir w = Directory d ->
  (length (filter is_changeset_file (map fst d)) <= 1)%nat ->
  Merge.main r w = (Ok Merge.NoMergeNeeded, w).
Proof.
  intros Hd Hlen. unfold Merge.main, bind, readdirSync.
  rewrite Hd, str_eqb_refl.
  apply Nat.leb_le in Hlen. rewrite Hlen. reflexivity.
Qed.

Lemma main_noop_at_most_one_witness :
  Merge.main (Merge.mkRandom 3 4) (world_of dir_single)
  = (Ok Merge.NoMergeNeeded, world_of dir_single).
Proof.
  apply (main_noop_at_most_one _ _ dir_single).
  - reflexivity.
  - vm_compute. lia.
Defined.

(* ===================================================================== *)
(** ** The detector of added changesets *)
(* ===================================================================== *)

Ltac eff_unfold :=
  unfold bind, ret, throw, process_exit, try_catch, console_warn,
    console_error in *.

(** Distinctness of the entry names of a concrete directory. *)
Ltac concrete_NoDup :=
  vm_compute;
  repeat (constructor; [simpl; intuition discriminate|]);
  constructor.

Section Detector.

Variable g : Validate.Git.

Lemma exec_total (ok : bool) (w : World) :
  Validate.exec ok w = (Ok tt, w) \/ Validate.exec ok w = (Throw CommandFailed, w).
Proof. destruct ok; [left | right]; reflexivity. Qed.

Lemma ensureCommitAvailable_frame (sha : jsstring) (w : World) :
  Validate.ensureCommitAvailable g sha w = (Ok tt, w)
  \/ Validate.ensureCommitAvailable g sha w = (Throw CommandFailed, w).
Proof.
  unfold Validate.ensureCommitAvailable, try_catch.
  destruct (Validate.cat_file_ok g sha); simpl; [left; reflexivity|].
  destruct (Validate.fetch_ref_ok g sha); simpl; [left; reflexivity|].
  apply exec_total.
Qed.

Lemma added_of_line_no_exit (line : jsstring) (n : Z) :
  Validate.added_of_line line <> Exit n.
Proof.
  unfold Validate.added_of_line.
  repeat match goal with
         | |- context [if ?b then _ else _] => destruct b
         | |- context [match ?x with Some _ => _ | None => _ end] =>
             destruct x
         end; discriminate.
Qed.

Lemma added_of_lines_no_exit (lines acc : list jsstring) (n : Z) :
  Validate.added_of_lines lines acc <> Exit n.
Proof.
  revert acc; induction lines as [|l lines IH]; intros acc; simpl;
    [discriminate|].
  destruct (Validate.added_of_line l) as [[f|]| |m] eqn:E; auto;
    [discriminate|].
  exfalso. exact (added_of_line_no_exit _ _ E).
Qed.

Ltac finish_parse :=
  unfold bind, ret, Validate.parseAddedChangesets;
  match goal with
  | |- context [Validate.added_of_lines ?ls ?acc] =>
      let E := fresh "E" in
      destruct (Validate.added_of_lines ls acc) as [?|?|?] eqn:E;
      [ eexists; reflexivity
      | eexists; reflexivity
      | exfalso; exact (added_of_lines_no_exit _ _ _ E) ]
  end.

(** Neither git strategy raises or touches the world: each returns a list
    or [null]. *)
Lemma tryExplicitShaComparison_total (b h : jsstring) (w : World) :
  exists r, Validate.tryExplicitShaComparison g b h w = (Ok r, w).
Proof.
  unfold Validate.tryExplicitShaComparison, try_catch, bind.
  destruct (ensureCommitAvailable_frame b w) as [-> | ->];
    [|eexists; reflexivity].
  unfold Validate.exec_output.
  destruct (Validate.diff_shas g b h) as [out|];
    [|eexists; reflexivity].
  finish_parse.
Qed.

Lemma tryBaseBranchComparison_total (b : jsstring) (w : World) :
  exists r, Validate.tryBaseBranchComparison g b w = (Ok r, w).
Proof.
  unfold Validate.tryBaseBranchComparison, try_catch.
  unfold bind at 1. unfold Validate.exec, Validate.exec_output.
  destruct (Validate.fetch_ref_ok g b);
    (destruct (Validate.diff_branch g b) as [out|];
     [|eexists; reflexivity]);
    unfold bind at 1; unfold ret at 1; unfold throw; finish_parse.
Qed.

(** The listing of all changesets: the guard covers the missing
    directory only; a directory that may not be listed makes
    [readdirSync] raise, and nothing here catches it. *)
Lemma getAllChangesets_run (w : World) :
  Validate.getAllChangesets w
  = match changeset_dir w with
    | Unlistable _ => (Throw (EACCES CHANGESET_DIR), w)
    | _ => (Ok (snapshot w), w)
    end.
Proof.
  unfold Validate.getAllChangesets, bind, existsSync, readdirSync, snapshot.
  rewrite str_eqb_refl.
  destruct (changeset_dir w) eqn:E; simpl; rewrite ?E, ?str_eqb_refl;
    reflexivity.
Qed.

Lemma getAllChangesets_snapshot (w : World) :
  listable w ->
  Validate.getAllChangesets w = (Ok (snapshot w), w).
Proof.
  intros H. rewrite getAllChangesets_run. unfold listable in H.
  destruct (changeset_dir w); [reflexivity | reflexivity | contradiction].
Qed.

(** The detector leaves the world as it was; it ends with a list, or
    with the exception of the listing when the directory may not be
    listed. *)
Lemma getAddedChangesetFiles_frame (env : Validate.Env) (w : World) :
  (exists files, Validate.getAddedChangesetFiles env g w = (Ok files, w))
  \/ (~ listable w
      /\ Validate.getAddedChangesetFiles env g w
         = (Throw (EACCES CHANGESET_DIR), w)).
Proof.
  unfold Validate.getAddedChangesetFiles.
  assert (Ha : (exists files, Validate.getAllChangesets w = (Ok files, w))
               \/ (~ listable w
                   /\ Validate.getAllChangesets w
                      = (Throw (EACCES CHANGESET_DIR), w))).
  { rewrite getAllChangesets_run. unfold listable.
    destruct (changeset_dir w); [left; eauto | left; eauto | right; auto]. }
  assert (Hb :
    (exists files,
      (if Validate.env_truthy (env "GITHUB_BASE_REF"%string)
       then
         bind (Validate.tryBaseBranchComparison g
                 (Validate.or_else_unset (env "GITHUB_BASE_REF"%string)))
              (fun result =>
                 match result with
                 | Some files => ret files
                 | None => Validate.getAllChangesets
                 end)
       else Validate.getAllChangesets) w = (Ok files, w))
    \/ (~ listable w
        /\ (if Validate.env_truthy (env "GITHUB_BASE_REF"%string)
            then
              bind (Validate.tryBaseBranchComparison g
                      (Validate.or_else_unset (env "GITHUB_BASE_REF"%string)))
                   (fun result =>
                      match result with
                      | Some files => ret files
                      | None => Validate.getAllChangesets
                      end)
            else Validate.getAllChangesets) w
           = (Throw (EACCES CHANGESET_DIR), w))).
  { destruct (Validate.env_truthy (env "GITHUB_BASE_REF"%string)).
    - unfold bind.
      destruct (tryBaseBranchComparison_total
                  (Validate.or_else_unset (env "GITHUB_BASE_REF"%string)) w)
        as [[l|] ->].
      + left. eexists; reflexivity.
      + exact Ha.
    - exact Ha. }
  match goal with
  | |- context [if ?c then _ else _] => destruct c; [|exact Hb]
  end.
  unfold bind at 1. unfold bind at 2.
  match goal with
  | |- context [Validate.tryExplicitShaComparison g ?b ?h w] =>
      destruct (tryExplicitShaComparison_total b h w) as [[l|] ->]
  end.
  - left. eexists; reflexivity.
  - exact Hb.
Qed.

(** Where the directory is absent or can be listed, the detector always
    ends with a list. *)
Lemma getAddedChangesetFiles_total (env : Validate.Env) (w : World) :
  listable w ->
  exists files, Validate.getAddedChangesetFiles env g w = (Ok files, w).
Proof.
  intros H.
  destruct (getAddedChangesetFiles_frame env w) as [Hf|[Hn _]];
    [exact Hf | contradiction].
Qed.

End Detector.

(** C9, as the code has it.  Let each git strategy be either not
    applicable (the explicit base/head pair, respectively the base branch
    name, is not set) or return [null].  Where the changeset directory is
    absent or can be listed, the detector raises nothing and returns the
    filtered snapshot of the directory, which is the empty list when the
    directory does not exist; and there the detector ends with a list in
    every case, the world untouched.  Where the directory exists but may
    not be listed, the listing raises and the detector passes the
    exception on; the script's [catch] reports it (with the stack trace
    when [DEBUG] is set) and exits with status 1. *)
Theorem getAddedChangesetFiles_fallback
  (env : Validate.Env) (g : Validate.Git) (w : World) :
  ((Validate.env_truthy (baseSha_of env)
    && Validate.env_truthy (headSha_of env) = false
    \/ Validate.tryExplicitShaComparison g
         (Validate.or_else_unset (baseSha_of env))
         (Validate.or_else_unset (headSha_of env)) w = (Ok None, w)) ->
   (Validate.env_truthy (prBase_of env) = false
    \/ Validate.tryBaseBranchComparison g
         (Validate.or_else_unset (prBase_of env)) w = (Ok None, w)) ->
   (listable w ->
    Validate.getAddedChangesetFiles env g w = (Ok (snapshot w), w))
   /\ (~ listable w ->
       Validate.getAddedChangesetFiles env g w
       = (Throw (EACCES CHANGESET_DIR), w)
       /\ Validate.main env g w
          = (Exit 1%Z,
             with_stderr w (catch_lines env (EACCES CHANGESET_DIR)))))
  /\ (changeset_dir w = Absent -> snapshot w = [])
  /\ (forall d, changeset_dir w = Directory d ->
        snapshot w = filter is_changeset_file (map fst d))
  /\ (listable w ->
      exists files,
        Validate.getAddedChangesetFiles env g w = (Ok files, w)).
Proof.
  split; [|split; [|split]].
  - intros Hsha Hbr.
    assert (Hfall : Validate.getAddedChangesetFiles env g w
                    = Validate.getAllChangesets w).
    { unfold Validate.getAddedChangesetFiles.
      fold (baseSha_of env) (headSha_of env) (prBase_of env).
      assert (Hbranch :
        (if Validate.env_truthy (prBase_of env)
         then
           bind (Validate.tryBaseBranchComparison g
                   (Validate.or_else_unset (prBase_of env)))
                (fun result =>
                   match result with
                   | Some files => ret files
                   | None => Validate.getAllChangesets
                   end)
         else Validate.getAllChangesets) w = Validate.getAllChangesets w).
      { destruct (Validate.env_truthy (prBase_of env)); [|reflexivity].
        destruct Hbr as [Hbr|Hbr]; [discriminate|].
        unfold bind. rewrite Hbr. reflexivity. }
      destruct (Validate.env_truthy (baseSha_of env)
                && Validate.env_truthy (headSha_of env)).
      - destruct Hsha as [Hsha|Hsha]; [discriminate|].
        unfold bind at 1. rewrite Hsha. exact Hbranch.
      - exact Hbranch. }
    split.
    + intros Hl. rewrite Hfall. apply getAllChangesets_snapshot, Hl.
    + intros Hn.
      assert (Hraise : Validate.getAddedChangesetFiles env g w
                       = (Throw (EACCES CHANGESET_DIR), w)).
      { rewrite Hfall, getAllChangesets_run. unfold listable in Hn.
        destruct (changeset_dir w); try reflexivity; exfalso; apply Hn;
          exact I. }
      split; [exact Hraise|].
      unfold Validate.main, try_catch. unfold bind at 1. rewrite Hraise.
      unfold catch_lines, with_stderr, bind, console_error, process_exit,
        ret.
      destruct (Validate.env_truthy (env "DEBUG"%string)); simpl;
        rewrite <- ?app_assoc; reflexivity.
  - intros H. unfold snapshot. rewrite H. reflexivity.
  - intros d H. unfold snapshot. rewrite H. reflexivity.
  - intros Hl. apply getAddedChangesetFiles_total, Hl.
Qed.

Lemma getAddedChangesetFiles_fallback_witness :
  Validate.getAddedChangesetFiles no_env git_unavailable (world_of dir_single)
  = (Ok [lit "only-change.md"], world_of dir_single)
  /\ Validate.getAddedChangesetFiles no_env git_unavailable no_dir
     = (Ok [], no_dir).
Proof.
  split.
  - apply (getAddedChangesetFiles_fallback no_env git_unavailable
             (world_of dir_single)); [left; reflexivity ..| exact I].
  - apply (getAddedChangesetFiles_fallback no_env git_unavailable no_dir);
      [left; reflexivity ..| exact I].
Defined.

(** C9 as stated fails where the directory exists but may not be listed:
    no revision context is set, [existsSync] answers [true], the listing
    raises, and the detector ends with that exception instead of a
    list; the script then exits with status 1. *)
Lemma detector_raises_on_unlistable_directory :
  existsSync CHANGESET_DIR (world_unlistable dir_single)
  = (Ok true, world_unlistable dir_single)
  /\ Validate.env_truthy (baseSha_of no_env)
     && Validate.env_truthy (headSha_of no_env) = false
  /\ Validate.env_truthy (prBase_of no_env) = false
  /\ Validate.getAddedChangesetFiles no_env git_unavailable
       (world_unlistable dir_single)
     = (Throw (EACCES CHANGESET_DIR), world_unlistable dir_single)
  /\ Validate.main no_env git_unavailable (world_unlistable dir_single)
     = (Exit 1%Z,
        with_stderr (world_unlistable dir_single)
          [E_During (EACCES CHANGESET_DIR)]).
Proof. repeat split; vm_compute; reflexivity. Qed.

(* ===================================================================== *)
(** ** The validator *)
(* ===================================================================== *)

Section Validator.

Lemma with_stderr_nil (w : World) : with_stderr w [] = w.
Proof. destruct w; unfold with_stderr; simpl. rewrite app_nil_r. reflexivity. Qed.

Lemma with_stderr_app (w : World) (a b : list Line) :
  with_stderr (with_stderr w a) b = with_stderr w (a ++ b).
Proof. unfold with_stderr; simpl. rewrite app_assoc. reflexivity. Qed.

Lemma console_error_run (l : Line) (w : World) :
  console_error l w = (Ok tt, with_stderr w [l]).
Proof. reflexivity. Qed.

Lemma console_error_each_run (ls : list Line) (w : World) :
  console_error_each ls w = (Ok tt, with_stderr w ls).
Proof.
  revert w; induction ls as [|l ls IH]; intros w; simpl.
  - rewrite with_stderr_nil. reflexivity.
  - unfold bind. rewrite console_error_run, IH, with_stderr_app.
    reflexivity.
Qed.

Lemma stat_with_stderr (p : jsstring) (w : World) (ls : list Line) :
  stat p (with_stderr w ls) = stat p w.
Proof. reflexivity. Qed.

(** The three reasons the content checks can give. *)
Lemma validateContent_reasons (c : jsstring) (err : ValidationError) :
  Validate.validateContent c = Validate.Invalid err ->
  err = NoVersionType \/ err = NoDescriptionPart \/ err = EmptyDescription.
Proof.
  unfold Validate.validateContent.
  destruct (Regex.versionTypeMatch_validate c); [|intros [= <-]; auto].
  destruct (length (split c DELIM) <? 3)%nat; [intros [= <-]; auto|].
  destruct (negb _); [intros [= <-]; auto | discriminate].
Qed.

(** A run of the validator on exactly one added file. *)
Lemma validate_single (f : jsstring) (w : World) :
  let path := path_join CHANGESET_DIR f in
  Validate.validate [f] w =
  match stat path w with
  | Some c =>
      match Validate.validateContent (content c) with
      | Validate.Valid type description =>
          (Ok (Validate.mkPassed type description), w)
      | Validate.Invalid err =>
          (Exit 1%Z,
           with_stderr w [E_Validation err; E_ContentOf path;
                          E_Raw (content c)])
      end
  | None =>
      (Exit 1%Z,
       with_stderr w [E_Validation (ReadFailed (ENOENT path));
                      E_ContentOf path; E_CouldNotRead])
  end.
Proof.
  intros path. unfold Validate.validate.
  change (length [f] =? 0)%nat with false.
  change (1 <? length [f])%nat with false. cbv iota.
  change (nth 0 [f] []) with f. fold path.
  unfold Validate.validateChangesetFile, readFileSync.
  eff_unfold.
  destruct (stat path w) as [c|] eqn:Hs.
  - destruct (Validate.validateContent (content c)); [reflexivity|].
    simpl.
    match goal with
    | |- context [stat path ?w'] => change (stat path w') with (stat path w)
    end.
    rewrite Hs. unfold with_stderr. simpl. rewrite <- !app_assoc.
    reflexivity.
  - simpl.
    match goal with
    | |- context [stat path ?w'] => change (stat path w') with (stat path w)
    end.
    rewrite Hs. unfold with_stderr. simpl. rewrite <- !app_assoc.
    reflexivity.
Qed.

Lemma validate_nil (w : World) :
  Validate.validate [] w = (Exit 1%Z, with_stderr w [E_NoChangeset]).
Proof. reflexivity. Qed.

Lemma validate_many (a b : jsstring) (rest : list jsstring) (w : World) :
  Validate.validate (a :: b :: rest) w
  = (Exit 1%Z,
     with_stderr w
       ([E_Multiple (length (a :: b :: rest)); E_FoundHeader]
        ++ map E_File (a :: b :: rest) ++ [E_Combine])).
Proof.
  unfold Validate.validate.
  change (length (a :: b :: rest) =? 0)%nat with false.
  change (1 <? length (a :: b :: rest))%nat with true. cbv iota.
  unfold bind, process_exit.
  rewrite !console_error_run, console_error_each_run.
  rewrite console_error_run, !with_stderr_app. reflexivity.
Qed.

(** No exception escapes the checks, so the [catch] of the script runs
    only for an exception of the detector: otherwise the script is the
    checks applied to what the detector found. *)
Lemma validate_no_throw (added : list jsstring) (w w' : World) (e : Exn) :
  Validate.validate added w <> (Throw e, w').
Proof.
  destruct added as [|f [|f' rest]].
  - rewrite validate_nil. discriminate.
  - pose proof (validate_single f w) as Hs. cbv zeta in Hs. rewrite Hs.
    destruct (stat (path_join CHANGESET_DIR f) w) as [c|]; [|discriminate].
    destruct (Validate.validateContent (content c)); discriminate.
  - rewrite validate_many. discriminate.
Qed.

Lemma main_of_detected (env : Validate.Env) (g : Validate.Git)
  (w : World) (files : list jsstring) :
  Validate.getAddedChangesetFiles env g w = (Ok files, w) ->
  Validate.main env g w = Validate.validate files w.
Proof.
  intros Hf. unfold Validate.main, try_catch, bind. rewrite Hf.
  destruct (Validate.validate files w) as [[p|e|n] w'] eqn:E;
    try reflexivity.
  exfalso. exact (validate_no_throw _ _ _ _ E).
Qed.

Lemma main_detector_raises (env : Validate.Env) (g : Validate.Git)
  (w : World) (e : Exn) :
  Validate.getAddedChangesetFiles env g w = (Throw e, w) ->
  Validate.main env g w = (Exit 1%Z, with_stderr w (catch_lines env e)).
Proof.
  intros Hf. unfold Validate.main, try_catch. unfold bind at 1.
  rewrite Hf.
  unfold catch_lines, with_stderr, bind, console_error, process_exit, ret.
  destruct (Validate.env_truthy (env "DEBUG"%string)); simpl;
    rewrite <- ?app_assoc; reflexivity.
Qed.

Lemma main_validates_detected (env : Validate.Env) (g : Validate.Git)
  (w : World) :
  listable w ->
  exists files,
    Validate.getAddedChangesetFiles env g w = (Ok files, w)
    /\ Validate.main env g w = Validate.validate files w.
Proof.
  intros Hl.
  destruct (getAddedChangesetFiles_total g env w Hl) as [files Hf].
  exists files. split; [exact Hf | apply main_of_detected, Hf].
Qed.

End Validator.

(** C1.  For every list of added changeset files: the validator succeeds
    exactly when the list has one element, that file can be read and its
    content passes the checks (the world is then untouched); on the empty
    list it exits with the missing-changeset error; on two or more files
    it exits with the multiple-changesets error followed by one line per
    added file; on a single readable file that fails the checks it exits
    with that check's reason, which is the missing version type, the
    missing description part or the empty description; on a single file
    that cannot be read it exits with the read failure. *)
Theorem validate_exactly_one (w : World) (added : list jsstring) :
  (forall p w',
      Validate.validate added w = (Ok p, w') <->
      w' = w /\
      exists f c,
        added = [f]
        /\ stat (path_join CHANGESET_DIR f) w = Some c
        /\ Validate.validateContent (content c)
           = Validate.Valid (Validate.v_type p) (Validate.v_description p))
  /\ (added = [] ->
      Validate.validate added w = (Exit 1%Z, with_stderr w [E_NoChangeset]))
  /\ ((2 <= length added)%nat ->
      Validate.validate added w
      = (Exit 1%Z,
         with_stderr w ([E_Multiple (length added); E_FoundHeader]
                        ++ map E_File added ++ [E_Combine])))
  /\ (forall f c err,
        added = [f] ->
        stat (path_join CHANGESET_DIR f) w = Some c ->
        Validate.validateContent (content c) = Validate.Invalid err ->
        (err = NoVersionType \/ err = NoDescriptionPart
         \/ err = EmptyDescription)
        /\ Validate.validate added w
           = (Exit 1%Z,
              with_stderr w [E_Validation err;
                             E_ContentOf (path_join CHANGESET_DIR f);
                             E_Raw (content c)]))
  /\ (forall f,
        added = [f] ->
        stat (path_join CHANGESET_DIR f) w = None ->
        Validate.validate added w
        = (Exit 1%Z,
           with_stderr w
             [E_Validation (ReadFailed (ENOENT (path_join CHANGESET_DIR f)));
              E_ContentOf (path_join CHANGESET_DIR f); E_CouldNotRead])).
Proof.
  pose proof (validate_nil w) as Hnil.
  pose proof (fun a b rest => validate_many a b rest w) as Hmany.
  split; [|split; [|split; [|split]]].
  - intros p w'. split.
    + destruct added as [|f [|f' rest]].
      * rewrite Hnil. discriminate.
      * pose proof (validate_single f w) as Hs. cbv zeta in Hs. rewrite Hs.
        destruct (stat (path_join CHANGESET_DIR f) w) as [c|] eqn:Hst;
          [|discriminate].
        destruct (Validate.validateContent (content c)) eqn:Hv;
          [|discriminate].
        intros [= <- <-]. split; [reflexivity|].
        exists f, c. auto.
      * rewrite Hmany. discriminate.
    + intros [-> (f & c & -> & Hst & Hv)].
      pose proof (validate_single f w) as Hs. cbv zeta in Hs.
      rewrite Hs, Hst, Hv. destruct p; reflexivity.
  - intros ->. exact Hnil.
  - intros Hlen. destruct added as [|a [|b rest]]; simpl in Hlen; try lia.
    apply Hmany.
  - intros f c err -> Hst Hv. split.
    + exact (validateContent_reasons _ _ Hv).
    + pose proof (validate_single f w) as Hs. cbv zeta in Hs.
      rewrite Hs, Hst, Hv. reflexivity.
  - intros f -> Hst.
    pose proof (validate_single f w) as Hs. cbv zeta in Hs.
    rewrite Hs, Hst. reflexivity.
Qed.

Lemma validate_exactly_one_witness :
  Validate.validate [lit "only-change.md"] (world_of dir_single)
  = (Ok (Validate.mkPassed patch (lit "Only change")), world_of dir_single)
  /\ Validate.validate [lit "a.md"; lit "b.md"] (world_of dir_single)
     = (Exit 1%Z,
        with_stderr (world_of dir_single)
          ([E_Multiple 2; E_FoundHeader]
           ++ map E_File [lit "a.md"; lit "b.md"] ++ [E_Combine])).
Proof.
  split.
  - apply (validate_exactly_one (world_of dir_single) [lit "only-change.md"]).
    split; [reflexivity|].
    exists (lit "only-change.md"), (sample_file patch "Only change" 5%Z).
    repeat split; vm_compute; reflexivity.
  - apply (validate_exactly_one (world_of dir_single)
             [lit "a.md"; lit "b.md"]).
    simpl. lia.
Defined.

(* ===================================================================== *)
(** ** The version-type pattern on a declaration line *)
(* ===================================================================== *)

Section Declaration.

Import Regex.

Lemma m_lit_app (p s : jsstring) (k : jsstring -> option Bump) :
  m_lit p (p ++ s) k = k s.
Proof. unfold m_lit. rewrite startsWith_app, skipn_prefix. reflexivity. Qed.

Lemma m_bump_text (b : Bump) (rest : jsstring) :
  m_bump (bump_text b ++ rest) = Some b.
Proof. destruct b; reflexivity. Qed.

Lemma bump_text_head (b : Bump) (rest : jsstring) :
  exists c s, bump_text b ++ rest = c :: s /\ is_space c = false.
Proof. destruct b; eexists; eexists; split; reflexivity. Qed.

Lemma m_space_star_bump (ws rest : jsstring) (b : Bump) :
  forallb is_space ws = true ->
  m_space_star (ws ++ bump_text b ++ rest) m_bump = Some b.
Proof.
  induction ws as [|c ws IH]; simpl.
  - intros _. destruct (bump_text_head b rest) as (c & s & E & Hc).
    rewrite E. simpl. rewrite Hc, <- E. apply m_bump_text.
  - rewrite andb_true_iff. intros [-> H]. rewrite (IH H). reflexivity.
Qed.

Lemma m_space_plus_bump (ws rest : jsstring) (b : Bump) :
  all_space ws ->
  m_space_plus (ws ++ bump_text b ++ rest) m_bump = Some b.
Proof.
  intros [Hne Hall]. destruct ws as [|c ws]; [congruence|].
  simpl in *. apply andb_true_iff in Hall as [-> Hall].
  apply m_space_star_bump, Hall.
Qed.

(** An optional quote in front of input that does not itself start with
    a quote character. *)
Lemma m_quote_opt_through (q s : jsstring) (c : N) (s' : jsstring)
  (k : jsstring -> option Bump) (b : Bump) :
  is_optional_quote q -> s = c :: s' -> is_quote c = false ->
  k s = Some b ->
  m_quote_opt (q ++ s) k = Some b.
Proof.
  intros [-> | [-> | ->]] -> Hc Hk; unfold m_quote_opt; simpl.
  - rewrite Hc. exact Hk.
  - rewrite Hk. reflexivity.
  - rewrite Hk. reflexivity.
Qed.

Lemma m_quote_through (q s : jsstring) (k : jsstring -> option Bump) :
  is_a_quote q -> m_quote (q ++ s) k = k s.
Proof. intros [-> | ->]; reflexivity. Qed.

Lemma match_here_merge (q1 q2 ws rest : jsstring) (b : Bump) :
  is_optional_quote q1 -> is_optional_quote q2 -> all_space ws ->
  match_here m_quote_opt (declaration q1 q2 ws b ++ rest) = Some b.
Proof.
  intros H1 H2 Hws. unfold match_here, declaration.
  rewrite <- !app_assoc.
  eapply m_quote_opt_through; [exact H1 | reflexivity | reflexivity |].
  rewrite (m_lit_app PACKAGE_NAME).
  eapply m_quote_opt_through; [exact H2 | reflexivity | reflexivity |].
  rewrite (m_lit_app (lit ":")).
  apply m_space_plus_bump, Hws.
Qed.

Lemma match_here_validate (q1 q2 ws rest : jsstring) (b : Bump) :
  is_a_quote q1 -> is_a_quote q2 -> all_space ws ->
  match_here m_quote (declaration q1 q2 ws b ++ rest) = Some b.
Proof.
  intros H1 H2 Hws. unfold match_here, declaration.
  rewrite <- !app_assoc.
  rewrite (m_quote_through q1) by exact H1.
  rewrite (m_lit_app PACKAGE_NAME).
  rewrite (m_quote_through q2) by exact H2.
  rewrite (m_lit_app (lit ":")).
  apply m_space_plus_bump, Hws.
Qed.

(** The opening delimiter line is stepped over by the search. *)
Lemma search_after_delim_merge (s : jsstring) :
  search m_quote_opt true (DELIM ++ NL ++ s) = search m_quote_opt true s.
Proof. reflexivity. Qed.

Lemma search_after_delim_validate (s : jsstring) :
  search m_quote true (DELIM ++ NL ++ s) = search m_quote true s.
Proof. reflexivity. Qed.

Lemma search_here
  (q : jsstring -> (jsstring -> option Bump) -> option Bump)
  (s : jsstring) (b : Bump) :
  match_here q s = Some b -> search q true s = Some b.
Proof. intros H. destruct s; simpl; rewrite H; reflexivity. Qed.

(** The merger's pattern extracts the bump type of a declaration that
    follows the opening delimiter, with or without quotes around the
    package name. *)
Lemma versionTypeMatch_merge_declaration
  (q1 q2 ws rest : jsstring) (b : Bump) :
  is_optional_quote q1 -> is_optional_quote q2 -> all_space ws ->
  versionTypeMatch_merge (DELIM ++ NL ++ declaration q1 q2 ws b ++ rest)
  = Some b.
Proof.
  intros H1 H2 Hws. unfold versionTypeMatch_merge.
  rewrite search_after_delim_merge.
  apply search_here, match_here_merge; assumption.
Qed.

(** The validator's pattern does so when both quotes are present. *)
Lemma versionTypeMatch_validate_declaration
  (q1 q2 ws rest : jsstring) (b : Bump) :
  is_a_quote q1 -> is_a_quote q2 -> all_space ws ->
  versionTypeMatch_validate (DELIM ++ NL ++ declaration q1 q2 ws b ++ rest)
  = Some b.
Proof.
  intros H1 H2 Hws. unfold versionTypeMatch_validate.
  rewrite search_after_delim_validate.
  apply search_here, match_here_validate; assumption.
Qed.

(** Without the opening quote the validator's pattern does not match the
    declaration line itself. *)
Lemma match_here_validate_unquoted (s : jsstring) :
  match_here m_quote (PACKAGE_NAME ++ s) = None.
Proof. reflexivity. Qed.

End Declaration.

(* ===================================================================== *)
(** ** Directory operations *)
(* ===================================================================== *)

Section Directory.

Lemma dir_lookup_write (n g : jsstring) (f : File) (d : Dir) :
  dir_lookup g (dir_write n f d)
  = if str_eqb n g then Some f else dir_lookup g d.
Proof.
  induction d as [|[m h] d IH]; simpl; [reflexivity|].
  destruct (str_eqb m n) eqn:Emn; simpl.
  - apply str_eqb_eq in Emn; subst m.
    destruct (str_eqb n g); reflexivity.
  - rewrite IH. destruct (str_eqb m g) eqn:Emg; [|reflexivity].
    apply str_eqb_eq in Emg; subst m.
    destruct (str_eqb n g) eqn:Eng; [|reflexivity].
    apply str_eqb_eq in Eng; subst n.
    rewrite str_eqb_refl in Emn. discriminate.
Qed.

Lemma dir_lookup_remove (n g : jsstring) (d : Dir) :
  dir_lookup g (dir_remove n d)
  = if str_eqb n g then None else dir_lookup g d.
Proof.
  induction d as [|[m h] d IH]; simpl.
  - destruct (str_eqb n g); reflexivity.
  - destruct (str_eqb m n) eqn:Emn; simpl.
    + apply str_eqb_eq in Emn; subst m. rewrite IH.
      destruct (str_eqb n g); reflexivity.
    + rewrite IH. destruct (str_eqb m g) eqn:Emg; [|reflexivity].
      apply str_eqb_eq in Emg; subst m.
    destruct (str_eqb n g) eqn:Eng; [|reflexivity].
    apply str_eqb_eq in Eng; subst n.
    rewrite str_eqb_refl in Emn. discriminate.
Qed.

Lemma dir_lookup_Some_In (n : jsstring) (d : Dir) (f : File) :
  dir_lookup n d = Some f -> In n (map fst d).
Proof.
  induction d as [|[m h] d IH]; simpl; [discriminate|].
  destruct (str_eqb m n) eqn:E.
  - apply str_eqb_eq in E. auto.
  - auto.
Qed.

Lemma dir_lookup_None_notin (n : jsstring) (d : Dir) :
  dir_lookup n d = None <-> ~ In n (map fst d).
Proof.
  induction d as [|[m h] d IH]; simpl; [tauto|].
  destruct (str_eqb m n) eqn:E.
  - apply str_eqb_eq in E. split; [discriminate | tauto].
  - apply str_eqb_neq in E. tauto.
Qed.

Lemma dir_lookup_remove_all (g : jsstring) (cs : list Merge.Changeset)
  (d : Dir) :
  dir_lookup g (dir_remove_all cs d)
  = if existsb (fun c => str_eqb (Merge.file c) g) cs then None
    else dir_lookup g d.
Proof.
  unfold dir_remove_all.
  revert d; induction cs as [|c cs IH]; intros d; simpl; [reflexivity|].
  rewrite IH, dir_lookup_remove.
  destruct (str_eqb (Merge.file c) g); simpl; [|reflexivity].
  destruct (existsb _ cs); reflexivity.
Qed.

End Directory.

(* ===================================================================== *)
(** ** A run of the merger *)
(* ===================================================================== *)

Section MergeRun.

(** [parseChangeset] never raises and only writes warnings. *)
Lemma parseChangeset_run (d : Dir) (w : World) (file : jsstring) :
  changeset_dir w = Directory d ->
  exists errs,
    Merge.parseChangeset (path_join CHANGESET_DIR file) w
    = (Ok (option_map as_parsed (changeset_in d file)), with_stderr w errs).
Proof.
  intros Hd.
  pose proof (stat_join w file) as Hs. rewrite Hd in Hs.
  unfold Merge.parseChangeset, try_catch, bind, readFileSync, statSync_mtime.
  unfold changeset_in.
  destruct (dir_lookup file d) as [f|]; rewrite Hs.
  - cbv beta iota. rewrite Hs.
    destruct (Regex.versionTypeMatch_merge (content f)) as [ty|].
    + exists []. rewrite with_stderr_nil. reflexivity.
    + eexists. reflexivity.
  - eexists. reflexivity.
Qed.

Lemma parseAll_run (d : Dir) (files : list jsstring) :
  forall (acc : list Merge.Changeset) (w : World),
    changeset_dir w = Directory d ->
    exists errs,
      Merge.parseAll files acc w
      = (Ok (acc ++ changesets_in d files), with_stderr w errs).
Proof.
  induction files as [|file files IH]; intros acc w Hd; simpl.
  - exists []. rewrite with_stderr_nil, app_nil_r. reflexivity.
  - unfold bind.
    destruct (parseChangeset_run d w file Hd) as [e1 ->].
    destruct (changeset_in d file) as [c|] eqn:Ec; simpl.
    + destruct (IH (acc ++ [Merge.mkChangeset file
                              (path_join CHANGESET_DIR file)
                              (Merge.type c) (Merge.description c)
                              (Merge.c_mtime c)])
                   (with_stderr w e1) Hd) as [e2 ->].
      exists (e1 ++ e2). rewrite with_stderr_app, <- app_assoc.
      replace (Merge.mkChangeset file (path_join CHANGESET_DIR file)
                 (Merge.type c) (Merge.description c) (Merge.c_mtime c))
        with c; [reflexivity|].
      unfold changeset_in in Ec.
      destruct (dir_lookup file d); [|discriminate].
      destruct (Regex.versionTypeMatch_merge _); [|discriminate].
      injection Ec as <-. reflexivity.
    + destruct (IH acc (with_stderr w e1) Hd) as [e2 ->].
      exists (e1 ++ e2). rewrite with_stderr_app. reflexivity.
Qed.

Lemma parsed_of_changesets_in (w : World) (d : Dir) :
  changeset_dir w = Directory d ->
  parsed_of w = changesets_in d (changesetFiles_of d).
Proof.
  intros Hd. unfold parsed_of. rewrite Hd.
  destruct (parseAll_run d (changesetFiles_of d) [] w Hd) as [e ->].
  reflexivity.
Qed.

(** Every collected record stems from a file of the listing that is in
    the directory, and carries the path [main] joined for it. *)
Lemma changeset_in_Some (d : Dir) (file : jsstring) (c : Merge.Changeset) :
  changeset_in d file = Some c ->
  Merge.file c = file
  /\ Merge.filePath c = path_join CHANGESET_DIR file
  /\ exists f, dir_lookup file d = Some f
               /\ Regex.versionTypeMatch_merge (content f)
                  = Some (Merge.type c)
               /\ Merge.description c = description_in (content f)
               /\ Merge.c_mtime c = mtime f.
Proof.
  unfold changeset_in.
  destruct (dir_lookup file d) as [f|]; [|discriminate].
  destruct (Regex.versionTypeMatch_merge (content f)) eqn:E; [|discriminate].
  intros [= <-]. simpl. repeat split. exists f. auto.
Qed.

Lemma In_changesets_in (d : Dir) (files : list jsstring)
  (c : Merge.Changeset) :
  In c (changesets_in d files) <->
  In (Merge.file c) files /\ changeset_in d (Merge.file c) = Some c.
Proof.
  unfold changesets_in. rewrite in_flat_map. split.
  - intros (file & Hin & Hc).
    destruct (changeset_in d file) as [c'|] eqn:E; simpl in Hc; [|tauto].
    destruct Hc as [->|[]].
    destruct (changeset_in_Some _ _ _ E) as [<- _]. auto.
  - intros [Hin E]. exists (Merge.file c). rewrite E. simpl. auto.
Qed.

Lemma map_file_changesets_in (d : Dir) (files : list jsstring) :
  map Merge.file (changesets_in d files)
  = filter (fun file => match changeset_in d file with
                        | Some _ => true
                        | None => false
                        end) files.
Proof.
  induction files as [|file files IH]; simpl; [reflexivity|].
  destruct (changeset_in d file) as [c|] eqn:E; simpl.
  - destruct (changeset_in_Some _ _ _ E) as [-> _]. rewrite IH.
    reflexivity.
  - exact IH.
Qed.

Lemma NoDup_filter {A} (p : A -> bool) (l : list A) :
  NoDup l -> NoDup (filter p l).
Proof.
  induction 1 as [|x l Hx _ IH]; simpl; [constructor|].
  destruct (p x); [|exact IH].
  constructor; [|exact IH].
  rewrite filter_In. tauto.
Qed.

Lemma NoDup_files_changesets_in (d : Dir) :
  NoDup (map fst d) ->
  NoDup (map Merge.file (changesets_in d (changesetFiles_of d))).
Proof.
  intros H. rewrite map_file_changesets_in.
  apply NoDup_filter. unfold changesetFiles_of. apply NoDup_filter, H.
Qed.

(** The removal loop succeeds when the files are distinct entries of the
    directory. *)
Lemma unlinkAll_run (cs : list Merge.Changeset) :
  forall (w : World) (d : Dir),
    changeset_dir w = Directory d ->
    NoDup (map Merge.file cs) ->
    (forall c, In c cs ->
       Merge.filePath c = path_join CHANGESET_DIR (Merge.file c)
       /\ dir_lookup (Merge.file c) d <> None) ->
    Merge.unlinkAll cs w
    = (Ok tt,
       mkWorld (Directory (dir_remove_all cs d)) (clock w) (stderr w)
               (journal w ++ map (fun c => OpUnlink (Merge.filePath c)) cs)).
Proof.
  induction cs as [|c cs IH]; intros w d Hd Hnd Hall; simpl.
  - rewrite app_nil_r. unfold ret. destruct w; simpl in *. subst.
    reflexivity.
  - inversion Hnd as [|x l Hnotin Hnd']; subst.
    destruct (Hall c (or_introl eq_refl)) as [Hpath Hpresent].
    unfold bind, unlinkSync. rewrite Hd, Hpath, entry_of_join.
    destruct (dir_lookup (Merge.file c) d) as [f|] eqn:El; [|congruence].
    rewrite <- Hpath.
    erewrite IH; [| reflexivity | exact Hnd' |].
    + simpl. rewrite <- app_assoc. reflexivity.
    + intros c' Hc'. destruct (Hall c' (or_intror Hc')) as [Hp Hl].
      split; [exact Hp|].
      rewrite dir_lookup_remove.
      destruct (str_eqb (Merge.file c) (Merge.file c')) eqn:E; [|exact Hl].
      apply str_eqb_eq in E. exfalso. apply Hnotin. rewrite E.
      apply in_map, Hc'.
Qed.

End MergeRun.

(* ===================================================================== *)
(** ** The chronological sort *)
(* ===================================================================== *)

Section Sorting.

Import Merge.

Lemma insert_sorted_perm (x : Changeset) (l : list Changeset) :
  Permutation (insert_sorted x l) (x :: l).
Proof.
  induction l as [|y l IH]; simpl; [reflexivity|].
  destruct (compare_mtime x y <=? 0)%Z; [reflexivity|].
  rewrite IH. apply perm_swap.
Qed.

Lemma sort_perm (l : list Changeset) : Permutation (sort l) l.
Proof.
  induction l as [|x l IH]; simpl; [reflexivity|].
  rewrite insert_sorted_perm, IH. reflexivity.
Qed.

Lemma insert_sorted_chronological (x : Changeset) (l : list Changeset) :
  chronological l -> chronological (insert_sorted x l).
Proof.
  unfold chronological.
  induction 1 as [|y l Hs IH Hy]; simpl.
  - repeat constructor.
  - unfold compare_mtime.
    destruct (c_mtime x - c_mtime y <=? 0)%Z eqn:E.
    + apply Z.leb_le in E. constructor; [constructor; assumption|].
      constructor; [lia|].
      eapply Forall_impl; [|exact Hy]. simpl. intros; lia.
    + apply Z.leb_gt in E. constructor; [exact IH|].
      eapply Permutation_Forall;
        [symmetry; apply insert_sorted_perm|].
      constructor; [lia | exact Hy].
Qed.

Lemma sort_chronological (l : list Changeset) : chronological (sort l).
Proof.
  induction l as [|x l IH]; simpl.
  - constructor.
  - apply insert_sorted_chronological, IH.
Qed.



(** With pairwise distinct time stamps there is one chronological
    arrangement. *)
Lemma strictly_chronological_unique (l1 l2 : list Changeset) :
  strictly_chronological l1 -> strictly_chronological l2 ->
  Permutation l1 l2 -> l1 = l2.
Proof.
  unfold strictly_chronological.
  intros H1; revert l2.
  induction H1 as [|a l1 Hs1 IH Ha]; intros l2 H2 Hp.
  - apply Permutation_nil in Hp. auto.
  - destruct l2 as [|b l2].
    + symmetry in Hp. apply Permutation_nil in Hp. discriminate.
    + inversion H2 as [|? ? Hs2 Hb]; subst.
      assert (a = b) as ->.
      { assert (Hin_a : In a (b :: l2))
          by (eapply Permutation_in; [exact Hp | left; reflexivity]).
        assert (Hin_b : In b (a :: l1))
          by (eapply Permutation_in;
              [symmetry; exact Hp | left; reflexivity]).
        destruct Hin_a as [->|Hin_a]; [reflexivity|].
        destruct Hin_b as [->|Hin_b]; [reflexivity|].
        rewrite Forall_forall in Ha, Hb.
        specialize (Ha _ Hin_b). specialize (Hb _ Hin_a). lia. }
      f_equal. apply IH; [exact Hs2|].
      eapply Permutation_cons_inv, Hp.
Qed.

Lemma strictly_chronological_NoDup (l : list Changeset) :
  strictly_chronological l -> NoDup (map c_mtime l).
Proof.
  induction 1 as [|a l Hs IH Ha]; simpl; constructor; [|exact IH].
  rewrite in_map_iff. intros (b & Hb & Hin).
  rewrite Forall_forall in Ha. specialize (Ha _ Hin). lia.
Qed.

Lemma chronological_NoDup_strict (l : list Changeset) :
  chronological l -> NoDup (map c_mtime l) -> strictly_chronological l.
Proof.
  unfold chronological, strictly_chronological.
  induction 1 as [|a l Hs IH Ha]; simpl; intros Hnd; constructor.
  - apply IH. inversion Hnd; assumption.
  - inversion Hnd as [|? ? Hnotin _]; subst.
    rewrite Forall_forall in *. intros b Hb.
    specialize (Ha _ Hb).
    assert (c_mtime a <> c_mtime b).
    { intros E. apply Hnotin. rewrite E. apply in_map, Hb. }
    lia.
Qed.

(** Hence the sort sends every enumeration of such records to the same
    list. *)
Lemma sort_strictly_chronological (chron l : list Changeset) :
  strictly_chronological chron -> Permutation chron l -> sort l = chron.
Proof.
  intros Hc Hp.
  apply strictly_chronological_unique; [|exact Hc|].
  - apply chronological_NoDup_strict; [apply sort_chronological|].
    eapply Permutation_NoDup; [|apply strictly_chronological_NoDup, Hc].
    apply Permutation_map. rewrite sort_perm. exact Hp.
  - rewrite sort_perm. symmetry. exact Hp.
Qed.

End Sorting.

Section MergeMain.

Import Merge.

Variable r : Random.
Variable w : World.
Variable d : Dir.
Hypothesis Hdir : changeset_dir w = Directory d.

(** With two or more changeset files none of which parses, the run ends
    with [process.exit(1)] and touches no file. *)
Lemma main_no_valid :
  (2 <= length (changesetFiles_of d))%nat ->
  parsed_of w = [] ->
  exists errs,
    main r w = (Exit 1%Z, with_stderr w (errs ++ [E_NoValid])).
Proof.
  intros Hlen Hnone.
  unfold main, bind, readdirSync. rewrite Hdir, str_eqb_refl.
  fold (changesetFiles_of d).
  destruct (length (changesetFiles_of d) <=? 1)%nat eqn:E;
    [apply Nat.leb_le in E; lia|].
  rewrite (parsed_of_changesets_in w d Hdir) in Hnone.
  destruct (parseAll_run d (changesetFiles_of d) [] w Hdir) as [errs ->].
  simpl app. rewrite Hnone. simpl.
  exists errs. unfold with_stderr. simpl. rewrite <- app_assoc.
  reflexivity.
Qed.

(** With two or more changeset files at least one of which parses, the
    run writes the merged file, then unlinks every parsed file in
    chronological order, and returns. *)
Lemma main_run :
  NoDup (map fst d) ->
  (2 <= length (changesetFiles_of d))%nat ->
  parsed_of w <> [] ->
  let sorted := sort (parsed_of w) in
  let highest := getHighestBumpType (map type sorted) in
  let descriptions := descriptions_of sorted in
  let mergedContent := createMergedChangeset highest descriptions in
  let name := mergedFileName r in
  exists errs,
    main r w
    = (Ok (Merged name highest descriptions mergedContent
                  (map file sorted)),
       mkWorld
         (Directory (dir_remove_all sorted
                  (dir_write name (mkFile mergedContent (clock w)) d)))
         (clock w) (stderr w ++ errs)
         (journal w
          ++ OpWrite (path_join CHANGESET_DIR name) mergedContent
             :: map (fun c => OpUnlink (filePath c)) sorted)).
Proof.
  intros Hnd Hlen Hsome sorted highest descriptions mergedContent name.
  unfold main, bind, readdirSync. rewrite Hdir, str_eqb_refl.
  fold (changesetFiles_of d).
  destruct (length (changesetFiles_of d) <=? 1)%nat eqn:E;
    [apply Nat.leb_le in E; lia|].
  pose proof (parsed_of_changesets_in w d Hdir) as Hp.
  destruct (parseAll_run d (changesetFiles_of d) [] w Hdir) as [errs ->].
  rewrite <- Hp. change ([] ++ parsed_of w) with (parsed_of w).
  destruct (length (parsed_of w) =? 0)%nat eqn:E0.
  { apply Nat.eqb_eq in E0. destruct (parsed_of w); [congruence|].
    discriminate. }
  fold sorted. fold highest. fold descriptions. fold mergedContent.
  unfold writeFileSync.
  change (changeset_dir (with_stderr w errs)) with (changeset_dir w).
  rewrite Hdir, entry_of_join.
  exists errs.
  erewrite unlinkAll_run; [| reflexivity | |].
  - simpl. rewrite <- app_assoc. reflexivity.
  - eapply Permutation_NoDup.
    + apply Permutation_map. symmetry. apply sort_perm.
    + rewrite Hp. apply NoDup_files_changesets_in, Hnd.
  - intros c Hc.
    assert (Hin : In c (parsed_of w))
      by (eapply Permutation_in; [apply sort_perm | exact Hc]).
    rewrite Hp in Hin. apply In_changesets_in in Hin as [_ Hin].
    destruct (changeset_in_Some _ _ _ Hin) as (Hf & Hpath & f & Hl & _).
    split; [exact Hpath|].
    rewrite dir_lookup_write.
    destruct (str_eqb (mergedFileName r) (file c)); [discriminate|].
    rewrite Hl. discriminate.
Qed.

End MergeMain.

(* ===================================================================== *)
(** ** The combined description *)
(* ===================================================================== *)

Section CombinedDescription.

Import Merge.

Lemma length_changesets_in (d : Dir) (files : list jsstring) :
  (length (changesets_in d files) <= length files)%nat.
Proof.
  induction files as [|f files IH]; simpl; [lia|].
  rewrite length_app. destruct (changeset_in d f); simpl; lia.
Qed.

Lemma descriptions_of_all (cs : list Changeset) :
  Forall (fun c => description c <> []) cs ->
  descriptions_of cs = map description cs.
Proof.
  unfold descriptions_of.
  induction 1 as [|c cs Hc _ IH]; simpl; [reflexivity|].
  destruct (description c) eqn:E; [congruence|].
  simpl. rewrite E, IH. reflexivity.
Qed.

End CombinedDescription.

(** The run on records with pairwise distinct time stamps, whatever the
    order in which the loop collected them. *)
Lemma main_chronological
  (r : Merge.Random) (w : World) (d : Dir) (chron : list Merge.Changeset) :
  changeset_dir w = Directory d ->
  NoDup (map fst d) ->
  (2 <= length chron)%nat ->
  strictly_chronological chron ->
  Permutation chron (parsed_of w) ->
  let highest := getHighestBumpType (map Merge.type chron) in
  let descriptions := Merge.descriptions_of chron in
  exists w',
    Merge.main r w
    = (Ok (Merge.Merged (Merge.mergedFileName r) highest descriptions
             (Merge.createMergedChangeset highest descriptions)
             (map Merge.file chron)),
       w').
Proof.
  intros Hd Hnd Hlen Hchron Hperm highest descriptions.
  assert (Hsort : Merge.sort (parsed_of w) = chron)
    by (apply sort_strictly_chronological; assumption).
  assert (Hfiles : (2 <= length (changesetFiles_of d))%nat).
  { pose proof (length_changesets_in d (changesetFiles_of d)) as Hle.
    rewrite <- (parsed_of_changesets_in w d Hd) in Hle.
    rewrite <- (Permutation_length Hperm) in Hle. lia. }
  assert (Hne : parsed_of w <> []).
  { intros E. rewrite E in Hperm. apply Permutation_length in Hperm.
    simpl in Hperm. lia. }
  destruct (main_run r w d Hd Hnd Hfiles Hne) as [errs Hrun].
  cbv zeta in Hrun. rewrite Hsort in Hrun.
  eexists. exact Hrun.
Qed.

Lemma descriptions_of_filter (cs : list Merge.Changeset) :
  Merge.descriptions_of cs = filter truthy (map Merge.description cs).
Proof.
  unfold Merge.descriptions_of.
  induction cs as [|c cs IH]; simpl; [reflexivity|].
  destruct (truthy (Merge.description c)); simpl; rewrite IH; reflexivity.
Qed.

(* ===================================================================== *)
(** ** Enumeration order of the directory *)
(* ===================================================================== *)

Section Enumeration.

Import Merge.

Lemma Permutation_filter_bool {A} (p : A -> bool) (l1 l2 : list A) :
  Permutation l1 l2 -> Permutation (filter p l1) (filter p l2).
Proof.
  induction 1 as [| x l l' _ IH | x y l | l l' l'' _ IH1 _ IH2]; simpl.
  - constructor.
  - destruct (p x); [constructor|]; exact IH.
  - destruct (p x), (p y); try reflexivity. apply perm_swap.
  - etransitivity; eassumption.
Qed.

Lemma dir_lookup_perm (n : jsstring) (d1 d2 : Dir) :
  NoDup (map fst d1) -> Permutation d1 d2 ->
  dir_lookup n d1 = dir_lookup n d2.
Proof.
  intros Hnd Hp. revert Hnd.
  induction Hp as [| [m f] l l' Hp IH | [m f] [m' f'] l
                   | l l' l'' Hp1 IH1 Hp2 IH2]; intros Hnd; simpl.
  - reflexivity.
  - inversion Hnd; subst. rewrite IH by assumption. reflexivity.
  - destruct (str_eqb m' n) eqn:E1, (str_eqb m n) eqn:E2; try reflexivity.
    apply str_eqb_eq in E1, E2. subst.
    inversion Hnd as [|? ? Hnotin _]; subst. exfalso. apply Hnotin.
    left. reflexivity.
  - rewrite IH1 by assumption. apply IH2.
    eapply Permutation_NoDup; [|exact Hnd].
    apply Permutation_map, Hp1.
Qed.

Lemma changeset_in_perm (d1 d2 : Dir) (file : jsstring) :
  NoDup (map fst d1) -> Permutation d1 d2 ->
  changeset_in d1 file = changeset_in d2 file.
Proof.
  intros Hnd Hp. unfold changeset_in.
  rewrite (dir_lookup_perm file d1 d2 Hnd Hp). reflexivity.
Qed.

Lemma changesets_in_perm (d1 d2 : Dir) :
  NoDup (map fst d1) -> Permutation d1 d2 ->
  Permutation (changesets_in d1 (changesetFiles_of d1))
              (changesets_in d2 (changesetFiles_of d2)).
Proof.
  intros Hnd Hp.
  assert (Hf : Permutation (changesetFiles_of d1) (changesetFiles_of d2)).
  { unfold changesetFiles_of.
    apply Permutation_filter_bool, Permutation_map, Hp. }
  unfold changesets_in.
  rewrite (flat_map_ext
             (fun file => match changeset_in d2 file with
                          | Some c => [c]
                          | None => []
                          end)
             (fun file => match changeset_in d1 file with
                          | Some c => [c]
                          | None => []
                          end)).
  - apply Permutation_flat_map, Hf.
  - intros file. rewrite (changeset_in_perm d1 d2 file Hnd Hp).
    reflexivity.
Qed.

(** Two worlds whose directories hold the same entries, enumerated in
    different orders, yield the same parsed records up to order. *)
Lemma parsed_of_perm (w1 w2 : World) (d1 d2 : Dir) :
  changeset_dir w1 = Directory d1 -> changeset_dir w2 = Directory d2 ->
  NoDup (map fst d1) -> Permutation d1 d2 ->
  Permutation (parsed_of w1) (parsed_of w2).
Proof.
  intros H1 H2 Hnd Hp.
  rewrite (parsed_of_changesets_in w1 d1 H1).
  rewrite (parsed_of_changesets_in w2 d2 H2).
  apply changesets_in_perm; assumption.
Qed.

(** With pairwise distinct modification times among the parsed records,
    the outcome of the run does not depend on the enumeration order. *)
Lemma main_enumeration_independent
  (r : Random) (w1 w2 : World) (d1 d2 : Dir) :
  changeset_dir w1 = Directory d1 -> changeset_dir w2 = Directory d2 ->
  NoDup (map fst d1) -> Permutation d1 d2 ->
  (2 <= length (parsed_of w1))%nat ->
  NoDup (map c_mtime (parsed_of w1)) ->
  exists outcome w1' w2',
    main r w1 = (Ok outcome, w1') /\ main r w2 = (Ok outcome, w2').
Proof.
  intros H1 H2 Hnd Hp Hlen Htimes.
  set (chron := sort (parsed_of w1)).
  assert (Hc : strictly_chronological chron).
  { apply chronological_NoDup_strict; [apply sort_chronological|].
    eapply Permutation_NoDup; [|exact Htimes].
    apply Permutation_map. symmetry. apply sort_perm. }
  assert (Hp1 : Permutation chron (parsed_of w1)) by apply sort_perm.
  assert (Hp2 : Permutation chron (parsed_of w2)).
  { rewrite Hp1. eapply parsed_of_perm; eassumption. }
  assert (Hl : (2 <= length chron)%nat)
    by (rewrite (Permutation_length Hp1); exact Hlen).
  assert (Hnd2 : NoDup (map fst d2)).
  { eapply Permutation_NoDup; [|exact Hnd]. apply Permutation_map, Hp. }
  destruct (main_chronological r w1 d1 chron H1 Hnd Hl Hc Hp1) as [w1' E1].
  destruct (main_chronological r w2 d2 chron H2 Hnd2 Hl Hc Hp2) as [w2' E2].
  eexists. exists w1', w2'. split; [exact E1 | exact E2].
Qed.

End Enumeration.

(** C6, as the code has it.  Take N >= 2 parsed records with strictly
    increasing modification times, [chron], and a directory whose parsing
    loop yields them in any order.  The run returns normally, and the
    descriptions it merges are the non-empty descriptions of [chron], in
    that chronological order, each as parsed; the merged file holds them
    joined by a blank line.  When every description is non-empty these
    are d1, ..., dN themselves.  A directory with the same entries
    enumerated in another order gives the same outcome. *)
Theorem merged_description_chronological
  (r : Merge.Random) (w : World) (d : Dir) (chron : list Merge.Changeset) :
  changeset_dir w = Directory d ->
  NoDup (map fst d) ->
  (2 <= length chron)%nat ->
  strictly_chronological chron ->
  Permutation chron (parsed_of w) ->
  let highest := getHighestBumpType (map Merge.type chron) in
  let descriptions := Merge.descriptions_of chron in
  let outcome :=
    Merge.Merged (Merge.mergedFileName r) highest descriptions
      (Merge.createMergedChangeset highest descriptions)
      (map Merge.file chron) in
  (exists w', Merge.main r w = (Ok outcome, w'))
  /\ descriptions = filter truthy (map Merge.description chron)
  /\ Merge.createMergedChangeset highest descriptions
     = DELIM ++ NL ++ lit "'" ++ PACKAGE_NAME ++ lit "': "
       ++ bump_text highest ++ NL ++ DELIM ++ NL ++ NL
       ++ join descriptions (NL ++ NL) ++ NL
  /\ (Forall (fun c => Merge.description c <> []) chron ->
      descriptions = map Merge.description chron)
  /\ (forall (w2 : World) (d2 : Dir),
        changeset_dir w2 = Directory d2 -> Permutation d d2 ->
        exists w2', Merge.main r w2 = (Ok outcome, w2')).
Proof.
  intros Hd Hnd Hlen Hchron Hperm highest descriptions outcome.
  split; [|split; [|split; [|split]]].
  - apply (main_chronological r w d chron); assumption.
  - apply descriptions_of_filter.
  - reflexivity.
  - apply descriptions_of_all.
  - intros w2 d2 Hd2 Hp.
    apply (main_chronological r w2 d2 chron); try assumption.
    + eapply Permutation_NoDup; [|exact Hnd]. apply Permutation_map, Hp.
    + rewrite Hperm. eapply parsed_of_perm; eassumption.
Qed.

Lemma merged_description_chronological_witness :
  exists w',
    Merge.main random_00 (world_of dir_scenario1)
    = (Ok (Merge.Merged (lit "merged-bright-apple.md") minor
             [lit "Fix typo"; lit "Add feature"]
             (Merge.createMergedChangeset minor
                [lit "Fix typo"; lit "Add feature"])
             [lit "a.md"; lit "b.md"]),
       w').
Proof.
  assert (H1 : changeset_dir (world_of dir_scenario1) = Directory dir_scenario1)
    by reflexivity.
  assert (H2 : NoDup (map fst dir_scenario1)) by concrete_NoDup.
  assert (H3 : (2 <= length [sample_changeset "a.md" patch "Fix typo" 1%Z;
                             sample_changeset "b.md" minor "Add feature" 2%Z])%nat)
    by (simpl; lia).
  assert (H4 : strictly_chronological
                 [sample_changeset "a.md" patch "Fix typo" 1%Z;
                  sample_changeset "b.md" minor "Add feature" 2%Z]).
  { repeat constructor. }
  assert (H5 : Permutation
                 [sample_changeset "a.md" patch "Fix typo" 1%Z;
                  sample_changeset "b.md" minor "Add feature" 2%Z]
                 (parsed_of (world_of dir_scenario1))).
  { vm_compute. apply perm_swap. }
  destruct (merged_description_chronological random_00
              (world_of dir_scenario1) dir_scenario1 _ H1 H2 H3 H4 H5)
    as [H _].
  exact H.
Defined.

(** C6 as stated fails on a parsed record whose description is empty:
    with d1 = [Fix typo] and d2 empty, the stated combination is d1
    followed by a blank line, while the run merges d1 alone. *)
Lemma merged_description_skips_empty :
  parsed_of (world_of dir_empty_body)
  = [Merge.mkChangeset (lit "a.md") (lit ".changeset/a.md") patch
                       (lit "Fix typo") 1%Z;
     Merge.mkChangeset (lit "b.md") (lit ".changeset/b.md") minor [] 2%Z]
  /\ Merge.main random_00 (world_of dir_empty_body)
     = (Ok (Merge.Merged (lit "merged-bright-apple.md") minor
              [lit "Fix typo"]
              (Merge.createMergedChangeset minor [lit "Fix typo"])
              [lit "a.md"; lit "b.md"]),
        mkWorld
          (Directory [(lit "merged-bright-apple.md",
                  mkFile (Merge.createMergedChangeset minor [lit "Fix typo"])
                         100%Z)])
          100%Z []
          [OpWrite (lit ".changeset/merged-bright-apple.md")
                   (Merge.createMergedChangeset minor [lit "Fix typo"]);
           OpUnlink (lit ".changeset/a.md");
           OpUnlink (lit ".changeset/b.md")])
  /\ Merge.combine [lit "Fix typo"]
     <> join [lit "Fix typo"; []] (NL ++ NL).
Proof.
  split; [vm_compute; reflexivity|].
  split; [vm_compute; reflexivity|].
  vm_compute. discriminate.
Qed.


(* ===================================================================== *)
(** ** Stability of the chronological order *)
(* ===================================================================== *)



(* ===================================================================== *)
(** ** Quotes around the package name *)
(* ===================================================================== *)

(** C2 at its failing input: a changeset whose declaration names the
    package without quotes.  The merger's pattern extracts [patch]; the
    validator's pattern, in which both quotes are mandatory, finds no
    match, and the validator rejects the file for a missing version
    type. *)
Theorem validator_rejects_unquoted_name :
  unquoted_text
  = DELIM ++ NL ++ declaration [] [] (lit " ") patch
    ++ NL ++ DELIM ++ NL ++ NL ++ lit "Fix typo" ++ NL
  /\ Regex.versionTypeMatch_merge unquoted_text = Some patch
  /\ Regex.versionTypeMatch_validate unquoted_text = None
  /\ Validate.validateContent unquoted_text = Validate.Invalid NoVersionType
  /\ Validate.validate [lit "fix.md"]
       (world_of [(lit "fix.md", mkFile unquoted_text 1%Z)])
     = (Exit 1%Z,
        with_stderr (world_of [(lit "fix.md", mkFile unquoted_text 1%Z)])
          [E_Validation NoVersionType;
           E_ContentOf (lit ".changeset/fix.md");
           E_Raw unquoted_text]).
Proof.
  repeat split; vm_compute; reflexivity.
Qed.

(* ===================================================================== *)
(** ** A content without description segment *)
(* ===================================================================== *)

Section MissingDescription.





End MissingDescription.




(* ===================================================================== *)
(** ** The effects of a merge on the directory *)
(* ===================================================================== *)

Section MergeEffects.

Import Merge.

Variable r : Random.
Variable w : World.
Variable d : Dir.
Hypothesis Hdir : changeset_dir w = Directory d.
Hypothesis Hnodup : NoDup (map fst d).
Hypothesis Hfiles : (2 <= length (changesetFiles_of d))%nat.
Hypothesis Hparsed : parsed_of w <> [].

(** The directory after a merge, entry by entry: a parsed source is gone
    (even when it bears the generated name), the generated name
    otherwise holds the merged record (whatever it held before), every
    other entry is as it was.  The write is the first mutation. *)
Lemma main_final_directory :
  exists highest descriptions mergedContent w' d',
    main r w
    = (Ok (Merged (mergedFileName r) highest descriptions mergedContent
                  (map file (sort (parsed_of w)))), w')
    /\ changeset_dir w' = Directory d'
    /\ (forall g,
          dir_lookup g d'
          = if existsb (fun c => str_eqb (file c) g) (parsed_of w)
            then None
            else if str_eqb (mergedFileName r) g
                 then Some (mkFile mergedContent (clock w))
                 else dir_lookup g d)
    /\ journal w'
       = journal w
         ++ OpWrite (path_join CHANGESET_DIR (mergedFileName r))
                    mergedContent
            :: map (fun c => OpUnlink (filePath c)) (sort (parsed_of w)).
Proof.
  destruct (main_run r w d Hdir Hnodup Hfiles Hparsed) as [errs Hrun].
  cbv zeta in Hrun.
  do 5 eexists. split; [exact Hrun|]. split; [reflexivity|].
  split; [|reflexivity].
  intros g. rewrite dir_lookup_remove_all, dir_lookup_write.
  replace (existsb (fun c => str_eqb (file c) g) (sort (parsed_of w)))
    with (existsb (fun c => str_eqb (file c) g) (parsed_of w));
    [reflexivity|].
  apply eq_true_iff_eq. rewrite !existsb_exists.
  split; intros (c & Hc & E); exists c; (split; [|exact E]).
  - eapply Permutation_in; [symmetry; apply sort_perm | exact Hc].
  - eapply Permutation_in; [apply sort_perm | exact Hc].
Qed.

Lemma parsed_file_present (c : Changeset) :
  In c (parsed_of w) -> dir_lookup (file c) d <> None.
Proof.
  intros Hc. rewrite (parsed_of_changesets_in w d Hdir) in Hc.
  apply In_changesets_in in Hc as [_ Hc].
  destruct (changeset_in_Some _ _ _ Hc) as (_ & _ & f & Hl & _).
  congruence.
Qed.

Lemma existsb_file_In (g : jsstring) (cs : list Changeset) :
  existsb (fun c => str_eqb (file c) g) cs = true <-> In g (map file cs).
Proof.
  rewrite existsb_exists, in_map_iff. split.
  - intros (c & Hc & E). apply str_eqb_eq in E. eauto.
  - intros (c & E & Hc). exists c. split; [exact Hc|].
    apply str_eqb_eq, E.
Qed.

(** X5.  When the generated name is not yet taken, a run that merges
    leaves the merged file in place of the parsed sources and nothing
    else changes: every parsed source is gone, the generated name holds
    the merged record, every other entry (the files that failed to
    parse included) is as it was, and the write precedes all the
    unlinks. *)
Lemma main_effects_fresh_name :
  dir_lookup (mergedFileName r) d = None ->
  exists highest descriptions mergedContent removed w' d',
    main r w
    = (Ok (Merged (mergedFileName r) highest descriptions mergedContent
                  removed), w')
    /\ changeset_dir w' = Directory d'
    /\ (forall c, In c (parsed_of w) -> dir_lookup (file c) d' = None)
    /\ dir_lookup (mergedFileName r) d'
       = Some (mkFile mergedContent (clock w))
    /\ (forall g, g <> mergedFileName r ->
                  ~ In g (map file (parsed_of w)) ->
                  dir_lookup g d' = dir_lookup g d)
    /\ exists unlinks,
         journal w'
         = journal w
           ++ OpWrite (path_join CHANGESET_DIR (mergedFileName r))
                      mergedContent :: unlinks
         /\ Forall (fun op => exists c, In c (parsed_of w)
                                        /\ op = OpUnlink (filePath c))
                   unlinks.
Proof.
  intros Hfresh.
  destruct main_final_directory
    as (highest & descriptions & mergedContent & w' & d'
        & Hrun & Hd' & Hlook & Hjournal).
  exists highest, descriptions, mergedContent,
    (map file (sort (parsed_of w))), w', d'.
  split; [exact Hrun|]. split; [exact Hd'|].
  split; [|split; [|split]].
  - intros c Hc. rewrite Hlook.
    replace (existsb _ (parsed_of w)) with true; [reflexivity|].
    symmetry. apply existsb_file_In, in_map, Hc.
  - rewrite Hlook.
    destruct (existsb _ (parsed_of w)) eqn:E.
    + apply existsb_file_In, in_map_iff in E as (c & E & Hc).
      exfalso. apply (parsed_file_present c Hc). rewrite E. exact Hfresh.
    + rewrite str_eqb_refl. reflexivity.
  - intros g Hg Hnot. rewrite Hlook.
    destruct (existsb _ (parsed_of w)) eqn:E.
    + apply existsb_file_In in E. contradiction.
    + destruct (str_eqb (mergedFileName r) g) eqn:Eg; [|reflexivity].
      apply str_eqb_eq in Eg. congruence.
  - eexists. split; [exact Hjournal|].
    rewrite Forall_forall. intros op Hop.
    apply in_map_iff in Hop as (c & <- & Hc). exists c. split; [|reflexivity].
    eapply Permutation_in; [apply sort_perm | exact Hc].
Qed.

(** When the generated name is already taken, what the entry held is
    lost: the merged record replaces it, or, if the entry was one of the
    parsed sources, the name is unlinked after the write and the merged
    record is lost as well. *)
Lemma main_effects_taken_name (old : File) :
  dir_lookup (mergedFileName r) d = Some old ->
  exists highest descriptions mergedContent removed w' d',
    main r w
    = (Ok (Merged (mergedFileName r) highest descriptions mergedContent
                  removed), w')
    /\ changeset_dir w' = Directory d'
    /\ In (OpWrite (path_join CHANGESET_DIR (mergedFileName r))
                   mergedContent) (journal w')
    /\ (In (mergedFileName r) (map file (parsed_of w)) ->
        dir_lookup (mergedFileName r) d' = None)
    /\ (~ In (mergedFileName r) (map file (parsed_of w)) ->
        dir_lookup (mergedFileName r) d'
        = Some (mkFile mergedContent (clock w))).
Proof.
  intros Htaken.
  destruct main_final_directory
    as (highest & descriptions & mergedContent & w' & d'
        & Hrun & Hd' & Hlook & Hjournal).
  exists highest, descriptions, mergedContent,
    (map file (sort (parsed_of w))), w', d'.
  split; [exact Hrun|]. split; [exact Hd'|].
  split; [|split].
  - rewrite Hjournal. apply in_or_app. right. left. reflexivity.
  - intros Hin. rewrite Hlook.
    apply existsb_file_In in Hin. rewrite Hin. reflexivity.
  - intros Hnot. rewrite Hlook.
    destruct (existsb _ (parsed_of w)) eqn:E.
    + apply existsb_file_In in E. contradiction.
    + rewrite str_eqb_refl. reflexivity.
Qed.

End MergeEffects.

(** C7 at its failing input: the directory holds a pending changeset
    under the very name the run generates.  The merged record is written
    over it and then unlinked with the sources: the run reports success
    and the directory is left empty, so no file holds the merged
    record. *)
Theorem merged_file_removed_on_collision :
  Merge.in_range random_00
  /\ Merge.mergedFileName random_00 = lit "merged-bright-apple.md"
  /\ Merge.main random_00 (world_of dir_collision_source)
     = (Ok (Merge.Merged (lit "merged-bright-apple.md") minor
              [lit "Earlier merge"; lit "Add feature"]
              (Merge.createMergedChangeset minor
                 [lit "Earlier merge"; lit "Add feature"])
              [lit "merged-bright-apple.md"; lit "b.md"]),
        mkWorld (Directory []) 100%Z []
          [OpWrite (lit ".changeset/merged-bright-apple.md")
                   (Merge.createMergedChangeset minor
                      [lit "Earlier merge"; lit "Add feature"]);
           OpUnlink (lit ".changeset/merged-bright-apple.md");
           OpUnlink (lit ".changeset/b.md")]).
Proof.
  split; [split; vm_compute; lia|].
  split; vm_compute; reflexivity.
Qed.

(** C8 at its failing input: the generated name is that of a file
    already in the directory, which is not a changeset and fails to
    parse.  The run writes the merged record over it: the earlier
    content is gone. *)
Theorem merged_name_overwrites_existing :
  Merge.in_range random_00
  /\ dir_lookup (Merge.mergedFileName random_00) dir_collision_draft
     = Some (mkFile (lit "Draft notes") 1%Z)
  /\ Merge.main random_00 (world_of dir_collision_draft)
     = (Ok (Merge.Merged (lit "merged-bright-apple.md") minor
              [lit "Fix typo"; lit "Add feature"]
              (Merge.createMergedChangeset minor
                 [lit "Fix typo"; lit "Add feature"])
              [lit "a.md"; lit "b.md"]),
        mkWorld
          (Directory [(lit "merged-bright-apple.md",
                  mkFile (Merge.createMergedChangeset minor
                            [lit "Fix typo"; lit "Add feature"])
                         100%Z)])
          100%Z
          [W_NoVersionType (lit ".changeset/merged-bright-apple.md")]
          [OpWrite (lit ".changeset/merged-bright-apple.md")
                   (Merge.createMergedChangeset minor
                      [lit "Fix typo"; lit "Add feature"]);
           OpUnlink (lit ".changeset/a.md");
           OpUnlink (lit ".changeset/b.md")]).
Proof.
  split; [split; vm_compute; lia|].
  split; vm_compute; reflexivity.
Qed.

(* ===================================================================== *)
(** ** More facts about strings: prefixes, suffixes, split and join *)
(* ===================================================================== *)

Section StringFacts.

Lemma startsWith_decompose (s p : jsstring) :
  startsWith s p = true -> s = p ++ skipn (length p) s.
Proof.
  revert s; induction p as [|y p IH]; intros s; simpl; [reflexivity|].
  destruct s as [|x s]; [discriminate|].
  rewrite andb_true_iff, N.eqb_eq. intros [-> H].
  simpl. f_equal. apply IH, H.
Qed.

Lemma startsWith_iff (s p : jsstring) :
  startsWith s p = true <-> exists t, s = p ++ t.
Proof.
  split.
  - intros H. eexists. apply startsWith_decompose, H.
  - intros [t ->]. apply startsWith_app.
Qed.

(** Only the first [length p] code units of the subject matter. *)
Lemma startsWith_app_long (s t p : jsstring) :
  (length p <= length s)%nat ->
  startsWith (s ++ t) p = startsWith s p.
Proof.
  revert s; induction p as [|y p IH]; intros s Hlen; simpl; [reflexivity|].
  destruct s as [|x s]; simpl in *; [lia|].
  rewrite IH by lia. reflexivity.
Qed.

Lemma endsWith_iff (s p : jsstring) :
  endsWith s p = true <-> exists t, s = t ++ p.
Proof.
  unfold endsWith. rewrite startsWith_iff. split.
  - intros [t H]. exists (rev t).
    rewrite <- (rev_involutive s), H, rev_app_distr, rev_involutive.
    reflexivity.
  - intros [t ->]. exists (rev t). apply rev_app_distr.
Qed.

Lemma endsWith_app (t p : jsstring) : endsWith (t ++ p) p = true.
Proof. apply endsWith_iff. eauto. Qed.

Lemma includes_iff (s p : jsstring) :
  includes s p = true <-> exists a b, s = a ++ p ++ b.
Proof.
  induction s as [|c s IH]; simpl.
  - rewrite orb_false_r, startsWith_iff. split.
    + intros [t H]. exists [], t. exact H.
    + intros (a & b & H). destruct a; [eauto|discriminate].
  - rewrite orb_true_iff, startsWith_iff, IH. split.
    + intros [[t H] | (a & b & ->)].
      * exists [], t. exact H.
      * exists (c :: a), b. reflexivity.
    + intros (a & b & H). destruct a as [|x a].
      * left. exists b. exact H.
      * right. injection H as -> ->. eauto.
Qed.

(** [split] never returns the empty array. *)
Lemma split_go_nonempty (sep : jsstring) (s : jsstring) :
  forall skip cur, split_go sep skip cur s <> [].
Proof.
  induction s as [|c s IH]; intros skip cur; simpl; [discriminate|].
  destruct skip; [|apply IH].
  destruct (startsWith (c :: s) sep); [discriminate | apply IH].
Qed.

Lemma join_cons (x : jsstring) (l : list jsstring) (sep : jsstring) :
  l <> [] -> join (x :: l) sep = x ++ sep ++ join l sep.
Proof. destruct l; [congruence | reflexivity]. Qed.

(** Joining what [split] cut gives the string back. *)
Lemma join_split_go (sep : jsstring) :
  sep <> [] ->
  forall s skip cur,
    join (split_go sep skip cur s) sep = rev cur ++ skipn skip s.
Proof.
  intros Hsep. induction s as [|c s IH]; intros skip cur.
  - simpl. rewrite skipn_nil, app_nil_r. reflexivity.
  - simpl split_go. destruct skip as [|k].
    + destruct (startsWith (c :: s) sep) eqn:E.
      * rewrite join_cons by apply split_go_nonempty.
        rewrite IH. simpl. f_equal.
        apply startsWith_decompose in E.
        destruct sep as [|y sep]; [congruence|].
        simpl in E. injection E as -> E.
        simpl. rewrite Nat.sub_0_r. f_equal. exact (eq_sym E).
      * rewrite IH. simpl. rewrite <- app_assoc. reflexivity.
    + rewrite IH. reflexivity.
Qed.

Lemma join_split (s sep : jsstring) :
  sep <> [] -> join (split s sep) sep = s.
Proof. intros H. unfold split. rewrite join_split_go by exact H. reflexivity. Qed.

(** A one-segment split means the separator does not occur. *)
Lemma split_singleton (s sep x : jsstring) :
  sep <> [] -> split s sep = [x] -> x = s.
Proof.
  intros Hsep H. rewrite <- (join_split s sep Hsep), H. reflexivity.
Qed.

Lemma split_go_skip (sep : jsstring) (x rest cur : jsstring) :
  split_go sep (length x) cur (x ++ rest) = split_go sep 0 cur rest.
Proof. induction x as [|c x IH]; simpl; [reflexivity | exact IH]. Qed.

End StringFacts.

(* ===================================================================== *)
(** ** Splitting a changeset at its delimiters *)
(* ===================================================================== *)

Section Delimiters.

Lemma endsWith_cons_false (c : N) (a p : jsstring) :
  endsWith (c :: a) p = false -> endsWith a p = false.
Proof.
  intros H. destruct (endsWith a p) eqn:E; [|reflexivity].
  apply endsWith_iff in E as [t ->].
  rewrite <- H. symmetry. apply endsWith_iff. exists (c :: t). reflexivity.
Qed.

Lemma split_go_miss (sep : jsstring) (c : N) (s cur : jsstring) :
  startsWith (c :: s) sep = false ->
  split_go sep 0 cur (c :: s) = split_go sep 0 (c :: cur) s.
Proof. intros H. simpl. rewrite H. reflexivity. Qed.

(** A block without delimiter that does not end in a dash is cut off as
    one segment by the delimiter that follows it. *)
Lemma split_go_at_delim (a rest : jsstring) :
  forall cur,
    includes a DELIM = false ->
    endsWith a (lit "-") = false ->
    split_go DELIM 0 cur (a ++ DELIM ++ rest)
    = (rev cur ++ a) :: split_go DELIM 0 [] rest.
Proof.
  induction a as [|c a IH]; intros cur Hinc Hend.
  - simpl. rewrite app_nil_r. reflexivity.
  - simpl in Hinc. apply orb_false_iff in Hinc as [Hhere Hinc].
    assert (Hstart : startsWith ((c :: a) ++ DELIM ++ rest) DELIM = false).
    { destruct a as [|d [|e a]].
      - unfold endsWith in Hend. simpl in Hend.
        rewrite andb_true_r in Hend. simpl. rewrite Hend. reflexivity.
      - unfold endsWith in Hend. simpl in Hend.
        rewrite andb_true_r in Hend. simpl. rewrite Hend.
        rewrite andb_false_r. reflexivity.
      - rewrite startsWith_app_long by (simpl; lia). exact Hhere. }
    change ((c :: a) ++ DELIM ++ rest) with (c :: (a ++ DELIM ++ rest)) in *.
    rewrite (split_go_miss DELIM c _ cur Hstart).
    rewrite IH; [| exact Hinc | exact (endsWith_cons_false _ _ _ Hend)].
    simpl. rewrite <- app_assoc. reflexivity.
Qed.

Lemma split_two_delims (pre front body : jsstring) :
  includes pre DELIM = false -> endsWith pre (lit "-") = false ->
  includes front DELIM = false -> endsWith front (lit "-") = false ->
  split (pre ++ DELIM ++ front ++ DELIM ++ body) DELIM
  = pre :: front :: split body DELIM.
Proof.
  intros H1 H2 H3 H4. unfold split.
  rewrite (split_go_at_delim pre) by assumption.
  rewrite (split_go_at_delim front) by assumption.
  reflexivity.
Qed.

Lemma DELIM_nonempty : DELIM <> [].
Proof. discriminate. Qed.

Lemma description_in_two_delims (pre front body : jsstring) :
  includes pre DELIM = false -> endsWith pre (lit "-") = false ->
  includes front DELIM = false -> endsWith front (lit "-") = false ->
  description_in (pre ++ DELIM ++ front ++ DELIM ++ body) = trim body
  /\ (3 <= length (split (pre ++ DELIM ++ front ++ DELIM ++ body) DELIM))%nat.
Proof.
  intros H1 H2 H3 H4. unfold description_in.
  rewrite split_two_delims by assumption.
  assert (Hlen : (1 <= length (split body DELIM))%nat).
  { pose proof (split_go_nonempty DELIM body 0 []) as Hne. unfold split.
    destruct (split_go DELIM 0 [] body); [congruence | simpl; lia]. }
  split.
  - replace (3 <=? length (pre :: front :: split body DELIM))%nat with true
      by (symmetry; apply Nat.leb_le; simpl; lia).
    unfold slice. simpl skipn. rewrite join_split by apply DELIM_nonempty.
    reflexivity.
  - simpl. lia.
Qed.

End Delimiters.

(* ===================================================================== *)
(** ** Trimming *)
(* ===================================================================== *)

Section Trim.

Lemma trimStart_fixed (s : jsstring) : no_leading_space s -> trimStart s = s.
Proof. destruct s; simpl; [reflexivity|]. intros ->. reflexivity. Qed.

Lemma trimStart_spec (s : jsstring) :
  exists ws, s = ws ++ trimStart s
             /\ forallb is_space ws = true
             /\ no_leading_space (trimStart s).
Proof.
  induction s as [|c s (ws & E & Hws & Hn)]; simpl.
  - exists []. auto.
  - destruct (is_space c) eqn:Ec.
    + exists (c :: ws). simpl. rewrite Ec, Hws. split; [f_equal; exact E | auto].
    + exists []. simpl. auto.
Qed.

Lemma trimStart_spaces (ws s : jsstring) :
  forallb is_space ws = true -> trimStart (ws ++ s) = trimStart s.
Proof.
  induction ws as [|c ws IH]; simpl; [reflexivity|].
  rewrite andb_true_iff. intros [-> H]. apply IH, H.
Qed.

Lemma no_leading_space_app (a b : jsstring) :
  a <> [] -> no_leading_space a -> no_leading_space (a ++ b).
Proof. destruct a; [congruence | simpl; auto]. Qed.

(** What [trim] returns has no white space at either end. *)
Lemma trim_ends (s : jsstring) :
  no_leading_space (trim s) /\ no_leading_space (rev (trim s)).
Proof.
  unfold trim.
  destruct (trimStart_spec s) as (ws1 & E1 & _ & Hn1).
  destruct (trimStart_spec (rev (trimStart s))) as (ws2 & E2 & _ & Hn2).
  set (a := trimStart s) in *. set (b := trimStart (rev a)) in *.
  rewrite rev_involutive. split; [|exact Hn2].
  destruct (rev b) as [|x t] eqn:Eb; [exact I|].
  assert (Ea : a = rev b ++ rev ws2).
  { rewrite <- (rev_involutive a), E2, rev_app_distr. reflexivity. }
  rewrite Eb in Ea. rewrite Ea in Hn1. exact Hn1.
Qed.

Lemma trim_fixed (s : jsstring) :
  no_leading_space s -> no_leading_space (rev s) -> trim s = s.
Proof.
  intros H1 H2. unfold trim.
  rewrite (trimStart_fixed s H1), (trimStart_fixed (rev s) H2).
  apply rev_involutive.
Qed.

Lemma trim_idempotent (s : jsstring) : trim (trim s) = trim s.
Proof. destruct (trim_ends s). apply trim_fixed; assumption. Qed.

Lemma tight_ends (s : jsstring) :
  tight s <-> s <> [] /\ no_leading_space s /\ no_leading_space (rev s).
Proof.
  unfold tight. split.
  - intros [Hne E]. split; [exact Hne|]. rewrite <- E. apply trim_ends.
  - intros (Hne & H1 & H2). split; [exact Hne | apply trim_fixed; assumption].
Qed.

Lemma rev_nonempty (s : jsstring) : s <> [] -> rev s <> [].
Proof.
  intros H E. apply H. rewrite <- (rev_involutive s), E. reflexivity.
Qed.

(** White space around a tight string is all [trim] removes. *)
Lemma trim_around (ws1 x ws2 : jsstring) :
  forallb is_space ws1 = true -> forallb is_space ws2 = true ->
  tight x -> trim (ws1 ++ x ++ ws2) = x.
Proof.
  intros H1 H2 Hx. apply tight_ends in Hx as (Hne & Hl & Hr).
  unfold trim. rewrite trimStart_spaces by exact H1.
  rewrite (trimStart_fixed (x ++ ws2))
    by (apply no_leading_space_app; assumption).
  rewrite rev_app_distr, trimStart_spaces
    by (apply forallb_forall; intros c Hc; apply in_rev in Hc;
        exact (proj1 (forallb_forall _ _) H2 c Hc)).
  rewrite (trimStart_fixed (rev x)) by exact Hr. apply rev_involutive.
Qed.

Lemma tight_app (a m b : jsstring) : tight a -> tight b -> tight (a ++ m ++ b).
Proof.
  intros Ha Hb. apply tight_ends in Ha as (Ha & Hal & _).
  apply tight_ends in Hb as (Hb & _ & Hbr).
  apply tight_ends. split; [|split].
  - destruct a; [congruence | discriminate].
  - apply no_leading_space_app; assumption.
  - rewrite !rev_app_distr, <- app_assoc.
    apply no_leading_space_app; [apply rev_nonempty|]; assumption.
Qed.

Lemma tight_combine (ds : list jsstring) :
  ds <> [] -> Forall tight ds -> tight (Merge.combine ds).
Proof.
  unfold Merge.combine. intros Hne H.
  induction H as [|d ds Hd Hds IH]; [congruence|].
  destruct ds as [|d' ds]; [exact Hd|].
  rewrite join_cons by discriminate.
  apply tight_app; [exact Hd | apply IH; discriminate].
Qed.

End Trim.

(* ===================================================================== *)
(** ** The description of a changeset, and the merged file read back *)
(* ===================================================================== *)

Section ReadBack.

Lemma parseChangeset_success (w : World) (d : Dir) (file : jsstring)
  (f : File) (ty : Bump) :
  changeset_dir w = Directory d ->
  dir_lookup file d = Some f ->
  Regex.versionTypeMatch_merge (content f) = Some ty ->
  Merge.parseChangeset (path_join CHANGESET_DIR file) w
  = (Ok (Some (Merge.mkParsed ty (description_in (content f)) (mtime f))), w).
Proof.
  intros Hd Hl Hm.
  pose proof (stat_join w file) as Hs. rewrite Hd, Hl in Hs.
  unfold Merge.parseChangeset, try_catch, bind, readFileSync, statSync_mtime.
  rewrite Hs. cbv beta iota. rewrite Hs, Hm. reflexivity.
Qed.

Lemma validateContent_description (text : jsstring) (ty : Bump) :
  Regex.versionTypeMatch_validate text = Some ty ->
  (3 <= length (split text DELIM))%nat ->
  Validate.validateContent text
  = if truthy (description_in text)
    then Validate.Valid ty (description_in text)
    else Validate.Invalid EmptyDescription.
Proof.
  intros Hm Hlen. unfold Validate.validateContent, description_in.
  rewrite Hm.
  replace (length (split text DELIM) <? 3)%nat with false
    by (symmetry; apply Nat.ltb_ge; exact Hlen).
  replace (3 <=? length (split text DELIM))%nat with true
    by (symmetry; apply Nat.leb_le; exact Hlen).
  destruct (truthy _); reflexivity.
Qed.

Lemma description_in_trimmed (text : jsstring) :
  trim (description_in text) = description_in text.
Proof.
  unfold description_in.
  destruct (3 <=? length (split text DELIM))%nat;
    [apply trim_idempotent | reflexivity].
Qed.

Lemma truthy_nonempty (s : jsstring) : truthy s = true <-> s <> [].
Proof. destruct s; simpl; split; congruence. Qed.

(** The front matter [createMergedChangeset] writes between the
    delimiters, and the body after them. *)
Lemma createMergedChangeset_shape (ty : Bump) (ds : list jsstring) :
  Merge.createMergedChangeset ty ds
  = DELIM ++ (NL ++ lit "'my-package': " ++ bump_text ty ++ NL)
    ++ DELIM ++ (NL ++ NL) ++ Merge.combine ds ++ NL
  /\ Merge.createMergedChangeset ty ds
     = DELIM ++ NL ++ declaration [39] [39] (lit " ") ty
       ++ (NL ++ DELIM ++ NL ++ NL ++ Merge.combine ds ++ NL)
  /\ includes (NL ++ lit "'my-package': " ++ bump_text ty ++ NL) DELIM = false
  /\ endsWith (NL ++ lit "'my-package': " ++ bump_text ty ++ NL) (lit "-")
     = false.
Proof. destruct ty; repeat split; reflexivity. Qed.

Lemma quote_39 : is_a_quote [39].
Proof. left. reflexivity. Qed.

Lemma one_space : all_space (lit " ").
Proof. split; [discriminate | reflexivity]. Qed.

Lemma createMergedChangeset_type (ty : Bump) (ds : list jsstring) :
  Regex.versionTypeMatch_merge (Merge.createMergedChangeset ty ds) = Some ty
  /\ Regex.versionTypeMatch_validate (Merge.createMergedChangeset ty ds)
     = Some ty.
Proof.
  destruct (createMergedChangeset_shape ty ds) as (_ & -> & _).
  split.
  - apply versionTypeMatch_merge_declaration;
      [right; apply quote_39 | right; apply quote_39 | apply one_space].
  - apply versionTypeMatch_validate_declaration;
      [apply quote_39 | apply quote_39 | apply one_space].
Qed.

Lemma createMergedChangeset_description (ty : Bump) (ds : list jsstring) :
  description_in (Merge.createMergedChangeset ty ds)
  = trim ((NL ++ NL) ++ Merge.combine ds ++ NL)
  /\ (3 <= length (split (Merge.createMergedChangeset ty ds) DELIM))%nat.
Proof.
  destruct (createMergedChangeset_shape ty ds) as (E & _ & Hi & He).
  rewrite E.
  apply (description_in_two_delims []
           (NL ++ lit "'my-package': " ++ bump_text ty ++ NL));
    solve [reflexivity | assumption].
Qed.



End ReadBack.


(** X1.  In a content made of a first delimiter, a front-matter block
    that holds no delimiter and does not end in a dash, a second
    delimiter and a body, the description is the trimmed body, whatever
    delimiters the body itself contains.  The validator's verdict on such
    a content is decided by its version-type pattern first: without a
    match it reports the missing version type, whatever the body; with a
    match it accepts the content with the trimmed body as description
    when that is not empty and reports the empty description when it is.
    The merger's parser, when its pattern matches, returns a record with
    the trimmed body as description, empty or not; when it does not, it
    warns and returns nothing. *)
Theorem description_is_trimmed_body (front body : jsstring) :
  includes front DELIM = false ->
  endsWith front (lit "-") = false ->
  let text := DELIM ++ front ++ DELIM ++ body in
  Validate.validateContent text
  = match Regex.versionTypeMatch_validate text with
    | Some ty =>
        if truthy (trim body) then Validate.Valid ty (trim body)
        else Validate.Invalid EmptyDescription
    | None => Validate.Invalid NoVersionType
    end
  /\ (forall (w : World) (d : Dir) (file : jsstring) (f : File),
        changeset_dir w = Directory d ->
        dir_lookup file d = Some f ->
        content f = text ->
        Merge.parseChangeset (path_join CHANGESET_DIR file) w
        = match Regex.versionTypeMatch_merge text with
          | Some ty => (Ok (Some (Merge.mkParsed ty (trim body) (mtime f))), w)
          | None =>
              (Ok None,
               with_stderr w
                 [W_NoVersionType (path_join CHANGESET_DIR file)])
          end).
Proof.
  intros Hi He text.
  destruct (description_in_two_delims [] front body) as [Hdesc Hlen];
    try solve [reflexivity | assumption].
  change ([] ++ DELIM ++ front ++ DELIM ++ body) with text in *.
  split.
  - destruct (Regex.versionTypeMatch_validate text) as [ty|] eqn:Hm.
    + rewrite (validateContent_description text ty Hm Hlen), Hdesc.
      reflexivity.
    + unfold Validate.validateContent. rewrite Hm. reflexivity.
  - intros w d file f Hd Hl Hc.
    destruct (Regex.versionTypeMatch_merge text) as [ty|] eqn:Hm.
    + rewrite (parseChangeset_success w d file f ty Hd Hl)
        by (rewrite Hc; exact Hm).
      rewrite Hc, Hdesc. reflexivity.
    + pose proof (stat_join w file) as Hs. rewrite Hd, Hl in Hs.
      unfold Merge.parseChangeset, try_catch, bind, readFileSync,
        statSync_mtime.
      rewrite Hs. cbv beta iota. rewrite Hs, Hc, Hm. reflexivity.
Qed.

Lemma description_is_trimmed_body_witness :
  Validate.validateContent
    (DELIM ++ (NL ++ lit "'my-package': minor" ++ NL) ++ DELIM
     ++ lit "  Before --- after  ")
  = Validate.Valid minor (lit "Before --- after")
  /\ Validate.validateContent
       (DELIM ++ (NL ++ lit "foo" ++ NL) ++ DELIM ++ NL)
     = Validate.Invalid NoVersionType.
Proof.
  split.
  - destruct (description_is_trimmed_body
                (NL ++ lit "'my-package': minor" ++ NL)
                (lit "  Before --- after  ")) as [H _];
      [reflexivity | reflexivity |].
    rewrite H. reflexivity.
  - destruct (description_is_trimmed_body (NL ++ lit "foo" ++ NL) NL)
      as [H _]; [reflexivity | reflexivity |].
    rewrite H. reflexivity.
Defined.

(** X2.  The file [createMergedChangeset] composes reads back: both
    patterns extract the type it was given, and when the descriptions
    are non-empty strings without white space at their ends (and there
    is at least one) the validator accepts the file with their
    combination as description and the merger's parser extracts the
    same; with no description at all the validator rejects the file for
    an empty description. *)
Theorem merged_changeset_reads_back (ty : Bump) (ds : list jsstring) :
  Regex.versionTypeMatch_merge (Merge.createMergedChangeset ty ds) = Some ty
  /\ Regex.versionTypeMatch_validate (Merge.createMergedChangeset ty ds)
     = Some ty
  /\ (ds <> [] -> Forall tight ds ->
      description_in (Merge.createMergedChangeset ty ds) = Merge.combine ds
      /\ Validate.validateContent (Merge.createMergedChangeset ty ds)
         = Validate.Valid ty (Merge.combine ds))
  /\ (ds = [] ->
      description_in (Merge.createMergedChangeset ty ds) = []
      /\ Validate.validateContent (Merge.createMergedChangeset ty ds)
         = Validate.Invalid EmptyDescription).
Proof.
  destruct (createMergedChangeset_type ty ds) as [Hm Hv].
  destruct (createMergedChangeset_description ty ds) as [Hd Hlen].
  split; [exact Hm|]. split; [exact Hv|]. split.
  - intros Hne Ht.
    pose proof (tight_combine ds Hne Ht) as Hc.
    assert (E : description_in (Merge.createMergedChangeset ty ds)
                = Merge.combine ds).
    { rewrite Hd. apply trim_around; [reflexivity | reflexivity | exact Hc]. }
    split; [exact E|].
    rewrite (validateContent_description _ ty Hv Hlen), E.
    destruct Hc as [Hc _]. apply truthy_nonempty in Hc. rewrite Hc.
    reflexivity.
  - intros ->.
    assert (E : description_in (Merge.createMergedChangeset ty []) = [])
      by (rewrite Hd; reflexivity).
    split; [exact E|].
    rewrite (validateContent_description _ ty Hv Hlen), E. reflexivity.
Qed.

Lemma merged_changeset_reads_back_witness :
  Validate.validateContent
    (Merge.createMergedChangeset minor [lit "Fix typo"; lit "Add --- feature"])
  = Validate.Valid minor (lit "Fix typo" ++ NL ++ NL ++ lit "Add --- feature").
Proof.
  destruct (merged_changeset_reads_back minor
              [lit "Fix typo"; lit "Add --- feature"]) as (_ & _ & H & _).
  destruct H as [_ H].
  - discriminate.
  - repeat constructor; discriminate.
  - exact H.
Defined.

(* ===================================================================== *)
(** ** What a merge leaves for the next run *)
(* ===================================================================== *)

Section NextRun.

Import Merge.


Lemma mergedFileName_is_changeset_file (r : Random) :
  is_changeset_file (mergedFileName r) = true.
Proof.
  unfold is_changeset_file, mergedFileName.
  rewrite !app_assoc, endsWith_app. reflexivity.
Qed.

Lemma str_eqb_sym (a b : jsstring) : str_eqb a b = str_eqb b a.
Proof.
  apply eq_true_iff_eq. rewrite !str_eqb_eq. split; congruence.
Qed.

Lemma dir_write_fresh (n : jsstring) (f : File) (d : Dir) :
  dir_lookup n d = None -> dir_write n f d = d ++ [(n, f)].
Proof.
  induction d as [|[m h] d IH]; simpl; [reflexivity|].
  destruct (str_eqb m n); [discriminate|].
  intros H. rewrite IH by exact H. reflexivity.
Qed.

Lemma changesetFiles_of_app (d1 d2 : Dir) :
  changesetFiles_of (d1 ++ d2) = changesetFiles_of d1 ++ changesetFiles_of d2.
Proof. unfold changesetFiles_of. rewrite map_app, filter_app. reflexivity. Qed.

Lemma changesetFiles_of_remove (n : jsstring) (d : Dir) :
  changesetFiles_of (dir_remove n d)
  = filter (fun g => negb (str_eqb n g)) (changesetFiles_of d).
Proof.
  unfold changesetFiles_of, dir_remove.
  induction d as [|[m h] d IH]; simpl; [reflexivity|].
  rewrite (str_eqb_sym m n).
  destruct (str_eqb n m) eqn:E; simpl.
  - destruct (is_changeset_file m); simpl; [rewrite E; simpl|]; exact IH.
  - destruct (is_changeset_file m); simpl; [rewrite E; simpl; f_equal|];
      exact IH.
Qed.

Lemma filter_filter {A} (p q : A -> bool) (l : list A) :
  filter p (filter q l) = filter (fun x => q x && p x) l.
Proof.
  induction l as [|x l IH]; simpl; [reflexivity|].
  destruct (q x); simpl; [destruct (p x)|]; rewrite IH; reflexivity.
Qed.

Lemma changesetFiles_of_remove_all (cs : list Changeset) :
  forall d,
    changesetFiles_of (dir_remove_all cs d)
    = filter (fun g => negb (existsb (fun c => str_eqb (file c) g) cs))
             (changesetFiles_of d).
Proof.
  unfold dir_remove_all.
  induction cs as [|c cs IH]; intros d; simpl.
  - symmetry. apply forallb_filter_id. apply forallb_forall. reflexivity.
  - rewrite IH, changesetFiles_of_remove, filter_filter.
    apply filter_ext. intros g.
    destruct (str_eqb (file c) g); reflexivity.
Qed.

Lemma filter_none {A} (p : A -> bool) (l : list A) :
  (forall x, In x l -> p x = false) -> filter p l = [].
Proof.
  induction l as [|x l IH]; intros H; simpl; [reflexivity|].
  rewrite (H x) by (left; reflexivity).
  apply IH. intros y Hy. apply H. right. exact Hy.
Qed.

Lemma existsb_file_perm (g : jsstring) (l1 l2 : list Changeset) :
  Permutation l1 l2 ->
  existsb (fun c => str_eqb (file c) g) l1
  = existsb (fun c => str_eqb (file c) g) l2.
Proof.
  intros Hp. apply eq_true_iff_eq. rewrite !existsb_exists.
  split; intros (c & Hc & E); exists c; (split; [|exact E]).
  - eapply Permutation_in; [exact Hp | exact Hc].
  - eapply Permutation_in; [symmetry; exact Hp | exact Hc].
Qed.

Variable r : Random.
Variable w : World.
Variable d : Dir.
Hypothesis Hdir : changeset_dir w = Directory d.
Hypothesis Hnodup : NoDup (map fst d).
Hypothesis Hfiles : (2 <= length (changesetFiles_of d))%nat.
Hypothesis Hparsed : parsed_of w <> [].

Lemma parsed_file_iff (g : jsstring) :
  In g (changesetFiles_of d) ->
  existsb (fun c => str_eqb (file c) g) (parsed_of w) = parses_in d g.
Proof.
  intros Hg. apply eq_true_iff_eq.
  rewrite existsb_file_In, (parsed_of_changesets_in w d Hdir).
  rewrite map_file_changesets_in, filter_In. unfold parses_in. tauto.
Qed.

(** The changeset files after a merge under a free name: the files that
    did not parse, then the merged file. *)
Lemma main_files_after :
  dir_lookup (mergedFileName r) d = None ->
  exists outcome w' d',
    main r w = (Ok outcome, w')
    /\ changeset_dir w' = Directory d'
    /\ changesetFiles_of d'
       = filter (fun g => negb (parses_in d g)) (changesetFiles_of d)
         ++ [mergedFileName r].
Proof.
  intros Hfresh.
  destruct (main_run r w d Hdir Hnodup Hfiles Hparsed) as [errs Hrun].
  cbv zeta in Hrun.
  do 3 eexists. split; [exact Hrun|]. split; [reflexivity|].
  rewrite changesetFiles_of_remove_all, dir_write_fresh by exact Hfresh.
  rewrite changesetFiles_of_app, filter_app.
  f_equal.
  - apply filter_ext_in. intros g Hg.
    rewrite (existsb_file_perm g _ _ (sort_perm (parsed_of w))).
    rewrite parsed_file_iff by exact Hg. reflexivity.
  - unfold changesetFiles_of at 1. simpl.
    rewrite mergedFileName_is_changeset_file. simpl.
    rewrite (existsb_file_perm _ _ _ (sort_perm (parsed_of w))).
    destruct (existsb _ (parsed_of w)) eqn:E; [|reflexivity].
    apply existsb_file_In, in_map_iff in E as (c & E & Hc).
    exfalso. apply (parsed_file_present w d Hdir c Hc).
    rewrite E. exact Hfresh.
Qed.

End NextRun.



(** X4.  After a merge under a name that was free, the changeset files
    of the directory are the files that did not parse followed by the
    merged file.  Hence, when every changeset file parsed, the merged
    file is the only one left and a second run, whatever it draws, finds
    nothing to merge and leaves the world as it is. *)
Theorem second_run_has_nothing_to_merge
  (r r' : Merge.Random) (w : World) (d : Dir) :
  changeset_dir w = Directory d ->
  NoDup (map fst d) ->
  (2 <= length (changesetFiles_of d))%nat ->
  parsed_of w <> [] ->
  dir_lookup (Merge.mergedFileName r) d = None ->
  exists outcome w' d',
    Merge.main r w = (Ok outcome, w')
    /\ changeset_dir w' = Directory d'
    /\ changesetFiles_of d'
       = filter (fun g => negb (parses_in d g)) (changesetFiles_of d)
         ++ [Merge.mergedFileName r]
    /\ ((forall g, In g (changesetFiles_of d) -> parses_in d g = true) ->
        Merge.main r' w' = (Ok Merge.NoMergeNeeded, w')).
Proof.
  intros Hd Hnd Hlen Hne Hfresh.
  destruct (main_files_after r w d Hd Hnd Hlen Hne Hfresh)
    as (outcome & w' & d' & Hrun & Hd' & Hfiles).
  exists outcome, w', d'.
  split; [exact Hrun|]. split; [exact Hd'|]. split; [exact Hfiles|].
  intros Hall.
  assert (E : filter (fun g => negb (parses_in d g)) (changesetFiles_of d)
              = []).
  { apply filter_none. intros g Hg. rewrite (Hall g Hg). reflexivity. }
  rewrite E in Hfiles. simpl in Hfiles.
  unfold Merge.main, bind, readdirSync. rewrite Hd', str_eqb_refl.
  fold (changesetFiles_of d'). rewrite Hfiles. reflexivity.
Qed.

Lemma second_run_has_nothing_to_merge_witness :
  exists outcome w',
    Merge.main random_00 (world_of dir_scenario1) = (Ok outcome, w')
    /\ Merge.main (Merge.mkRandom 5 7) w' = (Ok Merge.NoMergeNeeded, w').
Proof.
  destruct (second_run_has_nothing_to_merge random_00 (Merge.mkRandom 5 7)
              (world_of dir_scenario1) dir_scenario1)
    as (outcome & w' & d' & Hrun & _ & _ & Hnoop).
  - reflexivity.
  - concrete_NoDup.
  - vm_compute. lia.
  - vm_compute. discriminate.
  - reflexivity.
  - exists outcome, w'. split; [exact Hrun|].
    apply Hnoop. intros g Hg. vm_compute in Hg.
    destruct Hg as [<- | [<- | []]]; reflexivity.
Defined.

Section NothingParses.

Lemma nothing_parses (d : Dir) (files : list jsstring) :
  (forall g, In g files -> parses_in d g = false) ->
  (forall g, In g files -> exists f, dir_lookup g d = Some f) ->
  changesets_in d files = []
  /\ warnings_in d files
     = map (fun g => W_NoVersionType (path_join CHANGESET_DIR g)) files.
Proof.
  induction files as [|g l IH]; intros Hnone Hin; [split; reflexivity|].
  destruct IH as [IH1 IH2].
  - intros g' Hg'. apply Hnone. right. exact Hg'.
  - intros g' Hg'. apply Hin. right. exact Hg'.
  - pose proof (Hnone g (or_introl eq_refl)) as Hg.
    destruct (Hin g (or_introl eq_refl)) as [f Hf].
    unfold parses_in, changeset_in in Hg.
    simpl. unfold changeset_in. rewrite Hf in *.
    destruct (Regex.versionTypeMatch_merge (content f)); [discriminate|].
    simpl. rewrite IH1, IH2. split; reflexivity.
Qed.

Lemma parseAll_warnings (d : Dir) (files : list jsstring) :
  forall (acc : list Merge.Changeset) (w : World),
    changeset_dir w = Directory d ->
    Merge.parseAll files acc w
    = (Ok (acc ++ changesets_in d files),
       with_stderr w (warnings_in d files)).
Proof.
  induction files as [|file files IH]; intros acc w Hd; simpl.
  - rewrite with_stderr_nil, app_nil_r. reflexivity.
  - pose proof (stat_join w file) as Hs. rewrite Hd in Hs.
    unfold bind at 1.
    unfold Merge.parseChangeset, try_catch, bind at 1, readFileSync.
    rewrite Hs. unfold changeset_in.
    destruct (dir_lookup file d) as [f|] eqn:El.
    + cbv beta iota. unfold bind at 1, statSync_mtime. rewrite Hs.
      cbv beta iota.
      destruct (Regex.versionTypeMatch_merge (content f)) as [ty|].
      * unfold ret at 1. cbv beta iota. rewrite IH by exact Hd.
        rewrite <- app_assoc. reflexivity.
      * unfold bind at 1, console_warn. rewrite console_error_run.
        unfold ret at 1. cbv beta iota.
        rewrite IH by exact Hd. rewrite with_stderr_app. reflexivity.
    + cbv beta iota. unfold bind at 1, console_warn.
      rewrite console_error_run. unfold ret at 1. cbv beta iota.
      rewrite IH by exact Hd. rewrite with_stderr_app. reflexivity.
Qed.

End NothingParses.

(** X6.  When the directory holds two or more changeset files and none
    of them matches the version-type pattern, the run warns once per
    file, in listing order, reports that no changeset is valid and exits
    with code 1; no file is written or removed. *)
Theorem main_exits_when_nothing_parses
  (r : Merge.Random) (w : World) (d : Dir) :
  changeset_dir w = Directory d ->
  NoDup (map fst d) ->
  (2 <= length (changesetFiles_of d))%nat ->
  (forall g, In g (changesetFiles_of d) -> parses_in d g = false) ->
  Merge.main r w
  = (Exit 1%Z,
     with_stderr w
       (map (fun g => W_NoVersionType (path_join CHANGESET_DIR g))
            (changesetFiles_of d)
        ++ [E_NoValid])).
Proof.
  intros Hd Hnd Hlen Hnone.
  unfold Merge.main, bind, readdirSync. rewrite Hd, str_eqb_refl.
  fold (changesetFiles_of d).
  destruct (length (changesetFiles_of d) <=? 1)%nat eqn:E;
    [apply Nat.leb_le in E; lia|].
  rewrite (parseAll_warnings d _ [] w Hd).
  assert (Hin : forall g, In g (changesetFiles_of d) ->
                          exists f, dir_lookup g d = Some f).
  { intros g Hg. apply filter_In in Hg as [Hg _].
    destruct (dir_lookup g d) eqn:El; [eauto|].
    apply dir_lookup_None_notin in El. contradiction. }
  destruct (nothing_parses d (changesetFiles_of d) Hnone Hin) as [-> ->].
  simpl.
  unfold with_stderr. simpl. rewrite <- app_assoc. reflexivity.
Qed.

Lemma main_exits_when_nothing_parses_witness :
  Merge.main random_00 (world_of dir_no_changeset)
  = (Exit 1%Z,
     with_stderr (world_of dir_no_changeset)
       [W_NoVersionType (lit ".changeset/notes.md");
        W_NoVersionType (lit ".changeset/todo.md");
        E_NoValid]).
Proof.
  apply (main_exits_when_nothing_parses random_00
           (world_of dir_no_changeset) dir_no_changeset).
  - reflexivity.
  - concrete_NoDup.
  - vm_compute. lia.
  - intros g Hg. vm_compute in Hg.
    destruct Hg as [<- | [<- | []]]; reflexivity.
Defined.

Lemma main_effects_fresh_name_witness :
  exists highest descriptions mergedContent removed w' d',
    Merge.main random_00 (world_of dir_scenario1)
    = (Ok (Merge.Merged (Merge.mergedFileName random_00) highest descriptions
                        mergedContent removed), w')
    /\ changeset_dir w' = Directory d'
    /\ dir_lookup (Merge.mergedFileName random_00) d'
       = Some (mkFile mergedContent 100%Z)
    /\ dir_lookup (lit "README.md") d'
       = dir_lookup (lit "README.md") dir_scenario1.
Proof.
  destruct (main_effects_fresh_name random_00 (world_of dir_scenario1)
              dir_scenario1)
    as (highest & ds & content & removed & w' & d'
        & Hrun & Hd' & _ & Hname & Hother & _).
  - reflexivity.
  - concrete_NoDup.
  - vm_compute. lia.
  - vm_compute. discriminate.
  - reflexivity.
  - exists highest, ds, content, removed, w', d'.
    split; [exact Hrun|]. split; [exact Hd'|]. split; [exact Hname|].
    apply Hother.
    + vm_compute. discriminate.
    + vm_compute. intuition discriminate.
Defined.

(* ===================================================================== *)
(** ** The diff parser of the validator *)
(* ===================================================================== *)

Section DiffParser.

Lemma remove_first_prefix (rest : jsstring) :
  remove_first (dir_prefix ++ rest) dir_prefix = rest.
Proof. reflexivity. Qed.

Lemma endsWith_md_after_dir (rest : jsstring) :
  endsWith (dir_prefix ++ rest) (lit ".md") = true ->
  endsWith rest (lit ".md") = true.
Proof.
  unfold endsWith. rewrite rev_app_distr.
  destruct (rev rest) as [|a [|b [|c u]]].
  - discriminate.
  - simpl. rewrite andb_false_r. discriminate.
  - simpl. rewrite !andb_false_r. discriminate.
  - rewrite startsWith_app_long by (simpl; lia). auto.
Qed.

(** What one line of the diff contributes. *)
Lemma added_of_line_Some (line f : jsstring) :
  Validate.added_of_line line = Ok (Some f) ->
  is_changeset_file f = true
  /\ exists more, split line TAB = lit "A" :: (dir_prefix ++ f) :: more.
Proof.
  unfold Validate.added_of_line.
  destruct (negb (truthy line)); [discriminate|].
  destruct (split line TAB) as [|status [|filePath more]] eqn:Es;
    simpl nth; simpl nth_error.
  - destruct (str_eqb [] (lit "A")); discriminate.
  - destruct (str_eqb status (lit "A")); discriminate.
  - destruct (str_eqb status (lit "A")) eqn:Est; [|discriminate].
    apply str_eqb_eq in Est. subst status.
    fold dir_prefix.
    destruct (startsWith filePath dir_prefix) eqn:Ep; [|discriminate].
    destruct (endsWith filePath (lit ".md")) eqn:Emd; [|discriminate].
    destruct (endsWith filePath (lit "README.md")) eqn:Er; [discriminate|].
    simpl. intros [= <-].
    apply startsWith_decompose in Ep.
    set (rest := skipn (length dir_prefix) filePath) in *.
    rewrite Ep in *. rewrite remove_first_prefix.
    split; [|eauto].
    unfold is_changeset_file.
    rewrite (endsWith_md_after_dir rest Emd). simpl.
    destruct (str_eqb rest (lit "README.md")) eqn:E; [|reflexivity].
    apply str_eqb_eq in E. rewrite E, endsWith_app in Er. discriminate.
Qed.

Lemma added_of_line_other_status (line : jsstring) :
  nth 0 (split line TAB) [] <> lit "A" ->
  Validate.added_of_line line = Ok None.
Proof.
  intros H. unfold Validate.added_of_line.
  destruct (negb (truthy line)); [reflexivity|].
  destruct (str_eqb _ (lit "A")) eqn:E; [|reflexivity].
  apply str_eqb_eq in E. contradiction.
Qed.

Lemma added_of_line_Throw (line : jsstring) (e : Exn) :
  Validate.added_of_line line = Throw e <-> line = lit "A" /\ e = TypeError.
Proof.
  split.
  - unfold Validate.added_of_line.
    destruct (negb (truthy line)); [discriminate|].
    destruct (split line TAB) as [|status [|filePath more]] eqn:Es;
      simpl nth; simpl nth_error.
    + exfalso. exact (split_go_nonempty TAB line 0 [] Es).
    + destruct (str_eqb status (lit "A")) eqn:Est; [|discriminate].
      apply str_eqb_eq in Est. subst status. intros [= <-].
      split; [|reflexivity].
      symmetry. apply (split_singleton line TAB); [discriminate | exact Es].
    + destruct (str_eqb status (lit "A")); [|discriminate].
      destruct (_ && _); discriminate.
  - intros [-> ->]. reflexivity.
Qed.

(** The loop over the lines: it stops at the first bare [A], and
    otherwise appends what each line contributes. *)
Lemma added_of_lines_Ok (lines : list jsstring) :
  forall acc files,
    Validate.added_of_lines lines acc = Ok files ->
    ~ In (lit "A") lines
    /\ exists new,
         files = acc ++ new
         /\ Forall (fun f =>
                      is_changeset_file f = true
                      /\ exists line more,
                           In line lines
                           /\ split line TAB
                              = lit "A" :: (dir_prefix ++ f) :: more) new.
Proof.
  induction lines as [|line lines IH]; intros acc files; simpl.
  - intros [= <-]. split; [tauto|]. exists []. rewrite app_nil_r. auto.
  - destruct (Validate.added_of_line line) as [[f|]| e |n] eqn:E;
      try discriminate.
    + intros H. destruct (IH _ _ H) as (Hno & new & -> & Hall).
      split.
      * intros [Heq | Hin]; [|contradiction].
        subst line. vm_compute in E. discriminate.
      * exists (f :: new). rewrite <- app_assoc. split; [reflexivity|].
        constructor.
        -- destruct (added_of_line_Some _ _ E) as [Hf [more Hs]].
           split; [exact Hf|]. exists line, more. auto.
        -- eapply Forall_impl; [|exact Hall]. simpl.
           intros g (Hg & l & more & Hl & Hs). split; [exact Hg|].
           exists l, more. auto.
    + intros H. destruct (IH _ _ H) as (Hno & new & -> & Hall).
      split.
      * intros [Heq | Hin]; [|contradiction].
        subst line. vm_compute in E. discriminate.
      * exists new. split; [reflexivity|].
        eapply Forall_impl; [|exact Hall]. simpl.
        intros g (Hg & l & more & Hl & Hs). split; [exact Hg|].
        exists l, more. auto.
Qed.

Lemma added_of_lines_Throw (lines : list jsstring) :
  forall acc,
    In (lit "A") lines <->
    Validate.added_of_lines lines acc = Throw TypeError.
Proof.
  induction lines as [|line lines IH]; intros acc; simpl.
  - split; [tauto | discriminate].
  - destruct (Validate.added_of_line line) as [[f|]| e |n] eqn:E.
    + rewrite <- IH. split; [|tauto].
      intros [Heq | H]; [|exact H].
      subst line. vm_compute in E. discriminate.
    + rewrite <- IH. split; [|tauto].
      intros [Heq | H]; [|exact H].
      subst line. vm_compute in E. discriminate.
    + apply added_of_line_Throw in E as [-> ->]. tauto.
    + exfalso. exact (added_of_line_no_exit _ _ E).
Qed.

Lemma added_of_lines_none (lines : list jsstring) :
  forall acc,
    (forall line, In line lines -> nth 0 (split line TAB) [] <> lit "A") ->
    Validate.added_of_lines lines acc = Ok acc.
Proof.
  induction lines as [|line lines IH]; intros acc H; simpl; [reflexivity|].
  rewrite added_of_line_other_status by (apply H; left; reflexivity).
  apply IH. intros l Hl. apply H. right. exact Hl.
Qed.

End DiffParser.

(** X7.  A diff in which no line has the status [A] (so only modified,
    deleted, renamed ... entries) yields no added changeset at all. *)
Theorem parseAddedChangesets_only_additions (out : jsstring) (w : World) :
  (forall line, In line (split (trim out) NL) ->
                nth 0 (split line TAB) [] <> lit "A") ->
  Validate.parseAddedChangesets out w = (Ok [], w).
Proof.
  intros H. unfold Validate.parseAddedChangesets.
  rewrite added_of_lines_none by exact H. reflexivity.
Qed.

Lemma parseAddedChangesets_only_additions_witness :
  Validate.parseAddedChangesets diff_only_modified (world_of dir_single)
  = (Ok [], world_of dir_single).
Proof.
  apply parseAddedChangesets_only_additions.
  intros line Hl. vm_compute in Hl.
  destruct Hl as [<- | [<- | []]]; vm_compute; discriminate.
Defined.

(** X8.  Every name the diff parser reports passes the filter of the
    directory listing (it ends in [.md] and is not [README.md]) and
    stems from a line of the trimmed diff whose first field is [A] and
    whose second field is that name under [.changeset/]; the world is
    left as it was. *)
Theorem parseAddedChangesets_reports (out : jsstring) (w w' : World)
  (files : list jsstring) :
  Validate.parseAddedChangesets out w = (Ok files, w') ->
  w' = w
  /\ Forall (fun f =>
               is_changeset_file f = true
               /\ exists line more,
                    In line (split (trim out) NL)
                    /\ split line TAB = lit "A" :: (dir_prefix ++ f) :: more)
            files.
Proof.
  unfold Validate.parseAddedChangesets. intros [= H <-].
  split; [reflexivity|].
  destruct (added_of_lines_Ok _ _ _ H) as (_ & new & -> & Hall).
  exact Hall.
Qed.

Lemma parseAddedChangesets_reports_witness :
  Validate.parseAddedChangesets diff_one_added (world_of dir_single)
  = (Ok [lit "new.md"], world_of dir_single)
  /\ is_changeset_file (lit "new.md") = true.
Proof.
  assert (H : Validate.parseAddedChangesets diff_one_added
                (world_of dir_single)
              = (Ok [lit "new.md"], world_of dir_single))
    by (vm_compute; reflexivity).
  split; [exact H|].
  destruct (parseAddedChangesets_reports _ _ _ _ H) as [_ Hall].
  inversion Hall as [|? ? [Hf _] _]. exact Hf.
Defined.

Section Strategies.

Variable g : Validate.Git.

Lemma parse_step (out : jsstring) (w : World) :
  try_catch
    (bind (Validate.parseAddedChangesets out)
          (fun added => ret (Some added)))
    (fun _ => ret None) w
  = (Ok (added_in out), w).
Proof.
  unfold try_catch, bind, ret, Validate.parseAddedChangesets, added_in.
  destruct (Validate.added_of_lines _ _) as [l|e|n] eqn:E; try reflexivity.
  exfalso. exact (added_of_lines_no_exit _ _ _ E).
Qed.

(** The explicit strategy needs the base commit (at hand, or fetched by
    one of two attempts) and the diff; the branch strategy only the
    diff, whatever its fetch does. *)
Lemma tryExplicitShaComparison_run (b h : jsstring) (w : World) :
  Validate.tryExplicitShaComparison g b h w
  = (Ok (if Validate.cat_file_ok g b || Validate.fetch_ref_ok g b
            || Validate.fetch_ok g
         then match Validate.diff_shas g b h with
              | Some out => added_in out
              | None => None
              end
         else None), w).
Proof.
  pose proof (parse_step) as Hp.
  unfold Validate.tryExplicitShaComparison, Validate.ensureCommitAvailable,
    Validate.exec, Validate.exec_output.
  unfold try_catch, bind, ret, throw in *.
  destruct (Validate.cat_file_ok g b); simpl.
  - destruct (Validate.diff_shas g b h) as [out|]; [|reflexivity].
    apply Hp.
  - destruct (Validate.fetch_ref_ok g b); simpl.
    + destruct (Validate.diff_shas g b h) as [out|]; [|reflexivity].
      apply Hp.
    + destruct (Validate.fetch_ok g); simpl; [|reflexivity].
      destruct (Validate.diff_shas g b h) as [out|]; [|reflexivity].
      apply Hp.
Qed.

Lemma tryBaseBranchComparison_run (b : jsstring) (w : World) :
  Validate.tryBaseBranchComparison g b w
  = (Ok (match Validate.diff_branch g b with
         | Some out => added_in out
         | None => None
         end), w).
Proof.
  pose proof (parse_step) as Hp.
  unfold Validate.tryBaseBranchComparison, Validate.exec,
    Validate.exec_output.
  unfold try_catch, bind, ret, throw in *.
  destruct (Validate.fetch_ref_ok g b); simpl;
    (destruct (Validate.diff_branch g b) as [out|]; [|reflexivity]);
    apply Hp.
Qed.

End Strategies.

(** X9.  The diff parser raises exactly when some line of the trimmed
    diff is the bare letter [A] (status [A] and no second field), and
    then it raises a [TypeError]; both git strategies catch it and
    return [null], so such a diff is treated like a failed command. *)
Theorem bare_status_line_is_caught :
  (forall (out : jsstring) (w : World),
      In (lit "A") (split (trim out) NL) <->
      Validate.parseAddedChangesets out w = (Throw TypeError, w))
  /\ (forall (out : jsstring) (w w' : World) (e : Exn),
        Validate.parseAddedChangesets out w = (Throw e, w') ->
        e = TypeError /\ In (lit "A") (split (trim out) NL))
  /\ (forall (g : Validate.Git) (b h out : jsstring) (w : World),
        Validate.diff_shas g b h = Some out ->
        In (lit "A") (split (trim out) NL) ->
        Validate.tryExplicitShaComparison g b h w = (Ok None, w))
  /\ (forall (g : Validate.Git) (b out : jsstring) (w : World),
        Validate.diff_branch g b = Some out ->
        In (lit "A") (split (trim out) NL) ->
        Validate.tryBaseBranchComparison g b w = (Ok None, w)).
Proof.
  assert (Hnone : forall out, In (lit "A") (split (trim out) NL) ->
                              added_in out = None).
  { intros out H. unfold added_in.
    apply (added_of_lines_Throw _ []) in H. rewrite H. reflexivity. }
  split; [|split; [|split]].
  - intros out w. unfold Validate.parseAddedChangesets.
    rewrite (added_of_lines_Throw _ []). split.
    + intros ->. reflexivity.
    + intros [= H]. exact H.
  - intros out w w' e. unfold Validate.parseAddedChangesets.
    intros [= H _].
    destruct (Validate.added_of_lines (split (trim out) NL) []) as [l|e'|n]
      eqn:E; try discriminate.
    injection H as ->.
    assert (He : e = TypeError).
    { clear -E. revert E. generalize (@nil jsstring) as acc.
      induction (split (trim out) NL) as [|line lines IH]; intros acc;
        simpl; [discriminate|].
      destruct (Validate.added_of_line line) as [[f|]| e' |n] eqn:El;
        try apply IH.
      - apply added_of_line_Throw in El as [_ ->]. intros [= <-]. reflexivity.
      - discriminate. }
    subst e. split; [reflexivity|].
    apply (added_of_lines_Throw _ []). exact E.
  - intros g b h out w Hd Hin.
    rewrite tryExplicitShaComparison_run, Hd, (Hnone out Hin).
    destruct (_ || _); reflexivity.
  - intros g b out w Hd Hin.
    rewrite tryBaseBranchComparison_run, Hd, (Hnone out Hin). reflexivity.
Qed.

Lemma bare_status_line_is_caught_witness :
  Validate.tryExplicitShaComparison
    (git_with_diff (lit "A" ++ NL ++ diff_one_added))
    (lit "abc") (lit "def") (world_of dir_single)
  = (Ok None, world_of dir_single).
Proof.
  destruct bare_status_line_is_caught as (_ & _ & H & _).
  apply (H _ _ _ (lit "A" ++ NL ++ diff_one_added)).
  - reflexivity.
  - vm_compute. left. reflexivity.
Defined.

(** X10.  When both revisions are set, the base commit is at hand or can
    be fetched, and the diff runs and parses, the detector returns the
    changesets that diff adds and the script checks exactly those:
    neither the base branch nor what else the directory holds is looked
    at.  In particular, if the diff adds no changeset the script exits
    with the missing-changeset error even when the directory holds
    changesets. *)
Theorem validator_is_scoped_to_the_diff
  (env : Validate.Env) (g : Validate.Git) (w : World)
  (out : jsstring) (files : list jsstring) :
  Validate.env_truthy (baseSha_of env)
  && Validate.env_truthy (headSha_of env) = true ->
  Validate.cat_file_ok g (Validate.or_else_unset (baseSha_of env))
  || Validate.fetch_ref_ok g (Validate.or_else_unset (baseSha_of env))
  || Validate.fetch_ok g = true ->
  Validate.diff_shas g (Validate.or_else_unset (baseSha_of env))
                       (Validate.or_else_unset (headSha_of env))
  = Some out ->
  Validate.added_of_lines (split (trim out) NL) [] = Ok files ->
  Validate.getAddedChangesetFiles env g w = (Ok files, w)
  /\ Validate.main env g w = Validate.validate files w
  /\ (files = [] ->
      Validate.main env g w = (Exit 1%Z, with_stderr w [E_NoChangeset])).
Proof.
  intros Henv Hav Hdiff Hparse.
  assert (Hf : Validate.getAddedChangesetFiles env g w = (Ok files, w)).
  { unfold Validate.getAddedChangesetFiles.
    fold (baseSha_of env) (headSha_of env). rewrite Henv.
    unfold bind at 1. rewrite tryExplicitShaComparison_run, Hav, Hdiff.
    unfold added_in. rewrite Hparse. reflexivity. }
  assert (Hm : Validate.main env g w = Validate.validate files w).
  { apply main_of_detected, Hf. }
  split; [exact Hf|]. split; [exact Hm|].
  intros ->. rewrite Hm. apply validate_nil.
Qed.

Lemma validator_is_scoped_to_the_diff_witness :
  Validate.getAddedChangesetFiles sha_env (git_with_diff diff_one_added)
    (world_of dir_pull_request)
  = (Ok [lit "new.md"], world_of dir_pull_request)
  /\ Validate.main sha_env (git_with_diff diff_one_added)
       (world_of dir_pull_request)
     = Validate.validate [lit "new.md"] (world_of dir_pull_request).
Proof.
  destruct (validator_is_scoped_to_the_diff sha_env
              (git_with_diff diff_one_added) (world_of dir_pull_request)
              diff_one_added [lit "new.md"]) as (H1 & H2 & _);
    try (vm_compute; reflexivity).
  split; assumption.
Defined.

(** X11.  The branch strategy depends on its diff alone: whether the
    preceding fetch succeeds makes no difference.  The explicit strategy
    returns [null] when the base commit is neither at hand nor fetched
    by either attempt, whatever the diff would give. *)
Theorem strategies_and_fetches :
  (forall (g g' : Validate.Git) (b : jsstring) (w : World),
      Validate.diff_branch g b = Validate.diff_branch g' b ->
      Validate.tryBaseBranchComparison g b w
      = Validate.tryBaseBranchComparison g' b w)
  /\ (forall (g : Validate.Git) (b h : jsstring) (w : World),
        Validate.cat_file_ok g b = false ->
        Validate.fetch_ref_ok g b = false ->
        Validate.fetch_ok g = false ->
        Validate.tryExplicitShaComparison g b h w = (Ok None, w))
  /\ (forall (g : Validate.Git) (b h out : jsstring) (w : World),
        Validate.cat_file_ok g b = false ->
        Validate.fetch_ref_ok g b = false ->
        Validate.fetch_ok g = true ->
        Validate.diff_shas g b h = Some out ->
        Validate.tryExplicitShaComparison g b h w = (Ok (added_in out), w)).
Proof.
  split; [|split].
  - intros g g' b w H. rewrite !tryBaseBranchComparison_run, H. reflexivity.
  - intros g b h w H1 H2 H3.
    rewrite tryExplicitShaComparison_run, H1, H2, H3. reflexivity.
  - intros g b h out w H1 H2 H3 H4.
    rewrite tryExplicitShaComparison_run, H1, H2, H3, H4. reflexivity.
Qed.

Lemma strategies_and_fetches_witness :
  Validate.tryExplicitShaComparison git_unavailable (lit "abc") (lit "def")
    (world_of dir_single)
  = (Ok None, world_of dir_single).
Proof.
  destruct strategies_and_fetches as (_ & H & _).
  apply H; reflexivity.
Defined.

(* ===================================================================== *)
(** ** The validator and the merger on the same content *)
(* ===================================================================== *)

Section TwoPatterns.

(** Where the pattern with mandatory quotes matches, the one with
    optional quotes matches too, with the same capture. *)
Lemma match_here_quote_opt (s : jsstring) (ty : Bump) :
  Regex.match_here Regex.m_quote s = Some ty ->
  Regex.match_here Regex.m_quote_opt s = Some ty.
Proof.
  unfold Regex.match_here, Regex.m_quote_opt.
  destruct s as [|c s]; simpl; [discriminate|].
  destruct (Regex.is_quote c); [|discriminate].
  unfold Regex.m_lit.
  destruct (startsWith s PACKAGE_NAME); [|discriminate].
  intros H.
  match goal with
  | |- Regex.orElse (Regex.orElse ?X _) _ = _ =>
      replace X with (Some ty) by (symmetry; exact H)
  end.
  reflexivity.
Qed.

Lemma search_nil
  (q : jsstring -> (jsstring -> option Bump) -> option Bump) (b : bool) :
  Regex.search q b []
  = Regex.orElse (if b then Regex.match_here q [] else None) None.
Proof. reflexivity. Qed.

Lemma search_cons
  (q : jsstring -> (jsstring -> option Bump) -> option Bump) (b : bool)
  (c : N) (s : jsstring) :
  Regex.search q b (c :: s)
  = Regex.orElse (if b then Regex.match_here q (c :: s) else None)
                 (Regex.search q (is_line_terminator c) s).
Proof. reflexivity. Qed.

Lemma search_quote_opt (b : bool) (s : jsstring) (ty : Bump) :
  Regex.search Regex.m_quote b s = Some ty ->
  exists ty', Regex.search Regex.m_quote_opt b s = Some ty'.
Proof.
  revert b; induction s as [|c s IH]; intros b.
  - rewrite !search_nil. destruct b; vm_compute; discriminate.
  - rewrite !search_cons. destruct b.
    + destruct (Regex.match_here Regex.m_quote (c :: s)) as [t|] eqn:E.
      * apply match_here_quote_opt in E. rewrite E. intros _.
        exists t. reflexivity.
      * intros H.
        change (Regex.search Regex.m_quote (is_line_terminator c) s = Some ty)
          in H.
        apply IH in H as [ty' H].
        destruct (Regex.match_here Regex.m_quote_opt (c :: s)) as [t|];
          [exists t; reflexivity | exists ty'; exact H].
    + intros H.
      change (Regex.search Regex.m_quote (is_line_terminator c) s = Some ty)
        in H.
      apply IH in H as [ty' H]. exists ty'. exact H.
Qed.

End TwoPatterns.

(** X12.  Every content the validator accepts is one the merger parses,
    with the very description the validator reports, which is not empty
    and has no white space at either end.  The bump type may differ: the
    merger also reads a declaration without quotes, and takes the first
    one it finds. *)
Theorem validated_content_is_mergeable :
  (forall (text d : jsstring) (ty : Bump),
      Validate.validateContent text = Validate.Valid ty d ->
      d = description_in text /\ tight d
      /\ exists ty',
          Regex.versionTypeMatch_merge text = Some ty'
          /\ forall (w : World) (dir : Dir) (file : jsstring) (f : File),
              changeset_dir w = Directory dir ->
              dir_lookup file dir = Some f ->
              content f = text ->
              Merge.parseChangeset (path_join CHANGESET_DIR file) w
              = (Ok (Some (Merge.mkParsed ty' d (mtime f))), w))
  /\ (exists (text d : jsstring) (ty ty' : Bump),
        Validate.validateContent text = Validate.Valid ty d
        /\ Regex.versionTypeMatch_merge text = Some ty'
        /\ ty <> ty').
Proof.
  split.
  - intros text d ty H.
    unfold Validate.validateContent in H.
    destruct (Regex.versionTypeMatch_validate text) as [ty0|] eqn:Ev;
      [|discriminate].
    cbv zeta in H.
    destruct (length (split text DELIM) <? 3)%nat eqn:El; [discriminate|].
    apply Nat.ltb_ge in El.
    assert (Hd : description_in text
                 = trim (join (slice 2 (split text DELIM)) DELIM)).
    { unfold description_in.
      replace (3 <=? length (split text DELIM))%nat with true
        by (symmetry; apply Nat.leb_le; exact El).
      reflexivity. }
    rewrite <- Hd in H.
    destruct (truthy (description_in text)) eqn:Et; simpl in H;
      [|discriminate].
    injection H as -> <-.
    split; [reflexivity|]. split.
    + split; [apply truthy_nonempty, Et | apply description_in_trimmed].
    + destruct (search_quote_opt true text ty Ev) as [ty' Hm].
      exists ty'. split; [exact Hm|].
      intros w dir file f Hdir Hl <-.
      apply parseChangeset_success with (d := dir); assumption.
  - exists mixed_declarations, (lit "Fix typo"), patch, major.
    split; [|split]; [vm_compute; reflexivity .. | discriminate].
Qed.

Lemma validated_content_is_mergeable_witness :
  lit "Add feature" = description_in (content (sample_file minor "Add feature" 2%Z))
  /\ tight (lit "Add feature").
Proof.
  destruct validated_content_is_mergeable as [H _].
  destruct (H (content (sample_file minor "Add feature" 2%Z))
              (lit "Add feature") minor) as (H1 & H2 & _).
  - vm_compute. reflexivity.
  - split; assumption.
Defined.

(* ===================================================================== *)
(** ** The change detector: which files changed *)
(* ===================================================================== *)

Section ChangedFiles.

Variable g : Detect.Git.

Lemma exec_run (c : Detect.Cmd) (l : list Detect.Event) :
  Detect.exec g c l
  = match g c with
    | Some out => (Ok (trim out), l)
    | None => (Ok [], l ++ [Detect.ErrExec c])
    end.
Proof.
  unfold Detect.exec, Detect.mtry, Detect.mbind, Detect.execSync,
    Detect.emit, Detect.mret.
  destruct (g c); reflexivity.
Qed.

Lemma compareHead_run (l : list Detect.Event) :
  Detect.compareHead g l
  = match g Detect.DiffHead with
    | Some out => (Ok (Detect.lines_of (trim out)), l)
    | None => (Ok [], l ++ [Detect.ErrExec Detect.DiffHead])
    end.
Proof.
  unfold Detect.compareHead, Detect.mtry, Detect.mbind.
  rewrite exec_run. destruct (g Detect.DiffHead); reflexivity.
Qed.

Lemma getChangedFiles_other_events (env : Validate.Env)
  (l : list Detect.Event) :
  compares_revisions env = false ->
  Detect.getChangedFiles env g l = Detect.compareHead g l.
Proof.
  unfold compares_revisions, event_name, Detect.getChangedFiles.
  intros H. cbv zeta.
  destruct (str_eqb _ (lit "pull_request")); [|reflexivity].
  simpl in H. rewrite H. reflexivity.
Qed.

Lemma getChangedFiles_revisions (env : Validate.Env)
  (l : list Detect.Event) :
  compares_revisions env = true ->
  Detect.getChangedFiles env g l
  = if base_obtainable env g
    then match g (Detect.DiffShas (base_of env) (head_of env)) with
         | Some out => (Ok (Detect.lines_of (trim out)), l)
         | None =>
             (Ok [],
              l ++ [Detect.ErrExec
                      (Detect.DiffShas (base_of env) (head_of env))])
         end
    else Detect.compareHead g (l ++ [Detect.ErrDiffFailed]).
Proof.
  unfold compares_revisions, event_name, Detect.getChangedFiles,
    base_obtainable, base_of, head_of.
  intros H. cbv zeta.
  apply andb_true_iff in H as [H1 H2]. rewrite H1, H2.
  unfold Detect.mbind at 1. unfold Detect.mtry at 1.
  unfold Detect.mbind at 1. unfold Detect.mtry at 1.
  unfold Detect.mbind at 1. unfold Detect.execSync at 1.
  set (base := Validate.or_else_unset (env "GITHUB_BASE_SHA"%string)).
  set (head := Validate.or_else_unset (env "GITHUB_HEAD_SHA"%string)).
  destruct (g (Detect.CatFile base)) as [o1|].
  - unfold Detect.mret at 1. unfold Detect.mbind at 1.
    rewrite exec_run.
    destruct (g (Detect.Fetch base)), (g (Detect.DiffShas base head));
      reflexivity.
  - unfold Detect.mbind at 1. unfold Detect.execSync at 1.
    destruct (g (Detect.Fetch base)) as [o2|].
    + unfold Detect.mret at 1. unfold Detect.mbind at 1.
      rewrite exec_run.
      destruct (g (Detect.DiffShas base head)); reflexivity.
    + reflexivity.
Qed.

Lemma lines_of_nonempty (output : jsstring) :
  Forall (fun file => file <> []) (Detect.lines_of output).
Proof.
  unfold Detect.lines_of. destruct (truthy output); [|constructor].
  apply Forall_forall. intros file H. apply filter_In in H as [_ H].
  apply truthy_nonempty, H.
Qed.

End ChangedFiles.

(** X13.  On a pull-request event with both revisions set, the changed
    files are the non-empty lines of the trimmed diff of the two
    revisions, provided the base commit is at hand or its fetch succeeds.
    If that diff fails, the run reports the command and returns no files
    at all: it does not go on to compare [HEAD^] with [HEAD].  Only when
    the base commit cannot be obtained does it report the failure and
    compare [HEAD^] with [HEAD]. *)
Theorem getChangedFiles_pull_request
  (env : Validate.Env) (g : Detect.Git) (l : list Detect.Event) :
  compares_revisions env = true ->
  (base_obtainable env g = true ->
   forall out,
     g (Detect.DiffShas (base_of env) (head_of env)) = Some out ->
     Detect.getChangedFiles env g l
     = (Ok (filter truthy (split (trim out) NL)), l))
  /\ (base_obtainable env g = true ->
      g (Detect.DiffShas (base_of env) (head_of env)) = None ->
      Detect.getChangedFiles env g l
      = (Ok [],
         l ++ [Detect.ErrExec (Detect.DiffShas (base_of env) (head_of env))]))
  /\ (base_obtainable env g = false ->
      Detect.getChangedFiles env g l
      = Detect.compareHead g (l ++ [Detect.ErrDiffFailed])).
Proof.
  intros H. rewrite (getChangedFiles_revisions g env l H).
  split; [|split].
  - intros -> out ->. unfold Detect.lines_of.
    destruct (trim out); reflexivity.
  - intros -> ->. reflexivity.
  - intros ->. reflexivity.
Qed.

Lemma getChangedFiles_pull_request_witness :
  Detect.getChangedFiles pr_env git_docs_only []
  = (Ok [lit "README.md"; lit "docs/guide.txt"; lit ".changeset/a.md"], [])
  /\ Detect.getChangedFiles pr_env git_pr_diff_fails []
     = (Ok [], [Detect.ErrExec (Detect.DiffShas (lit "abc") (lit "def"))])
  /\ Detect.getChangedFiles pr_env git_base_missing []
     = (Ok [lit "src/index.js"], [Detect.ErrDiffFailed]).
Proof.
  split; [|split].
  - destruct (getChangedFiles_pull_request pr_env git_docs_only [])
      as (H & _ & _); [reflexivity|].
    exact (H eq_refl _ eq_refl).
  - destruct (getChangedFiles_pull_request pr_env git_pr_diff_fails [])
      as (_ & H & _); [reflexivity|].
    exact (H eq_refl eq_refl).
  - destruct (getChangedFiles_pull_request pr_env git_base_missing [])
      as (_ & _ & H); [reflexivity|].
    exact (H eq_refl).
Defined.

(** X14.  [getChangedFiles] always returns a list, none of whose names is
    empty, and only adds to the log.  The outcome of listing the tree of
    [HEAD] never matters: no run reaches that fallback, because a failing
    diff of [HEAD^] and [HEAD] is reported and read as the empty output.
    So outside the comparison of two revisions a failing diff gives no
    changed files. *)
Theorem getChangedFiles_never_lists_tree
  (env : Validate.Env) (g : Detect.Git) (l : list Detect.Event) :
  (exists files errs,
      Detect.getChangedFiles env g l = (Ok files, l ++ errs)
      /\ Forall (fun file => file <> []) files)
  /\ (forall g' : Detect.Git,
        (forall c, c <> Detect.LsTree -> g' c = g c) ->
        Detect.getChangedFiles env g' l = Detect.getChangedFiles env g l)
  /\ (compares_revisions env = false ->
      g Detect.DiffHead = None ->
      Detect.getChangedFiles env g l
      = (Ok [], l ++ [Detect.ErrExec Detect.DiffHead])).
Proof.
  assert (Hhead : forall l0, exists files errs,
             Detect.compareHead g l0 = (Ok files, l0 ++ errs)
             /\ Forall (fun file => file <> []) files).
  { intros l0. rewrite compareHead_run.
    destruct (g Detect.DiffHead) as [out|].
    - exists (Detect.lines_of (trim out)), []. rewrite app_nil_r.
      split; [reflexivity | apply lines_of_nonempty].
    - exists [], [Detect.ErrExec Detect.DiffHead].
      split; [reflexivity | constructor]. }
  split; [|split].
  - destruct (compares_revisions env) eqn:E.
    + rewrite (getChangedFiles_revisions g env l E).
      destruct (base_obtainable env g).
      * destruct (g (Detect.DiffShas (base_of env) (head_of env))) as [out|].
        -- exists (Detect.lines_of (trim out)), []. rewrite app_nil_r.
           split; [reflexivity | apply lines_of_nonempty].
        -- eexists [], _. split; [reflexivity | constructor].
      * destruct (Hhead (l ++ [Detect.ErrDiffFailed]))
          as (files & errs & -> & Hf).
        exists files, ([Detect.ErrDiffFailed] ++ errs).
        rewrite app_assoc. split; [reflexivity | exact Hf].
    + rewrite (getChangedFiles_other_events g env l E). apply Hhead.
  - intros g' Hg.
    assert (Hc : forall l0, Detect.compareHead g' l0 = Detect.compareHead g l0).
    { intros l0. rewrite !compareHead_run, Hg by discriminate. reflexivity. }
    destruct (compares_revisions env) eqn:E.
    + rewrite (getChangedFiles_revisions g env l E),
        (getChangedFiles_revisions g' env l E).
      unfold base_obtainable. rewrite !Hg by discriminate. rewrite Hc.
      reflexivity.
    + rewrite (getChangedFiles_other_events g env l E),
        (getChangedFiles_other_events g' env l E).
      apply Hc.
  - intros E Hd.
    rewrite (getChangedFiles_other_events g env l E), compareHead_run, Hd.
    reflexivity.
Qed.

Lemma getChangedFiles_never_lists_tree_witness :
  Detect.getChangedFiles (fun _ => None) git_first_commit []
  = (Ok [], [Detect.ErrExec Detect.DiffHead]).
Proof.
  destruct (getChangedFiles_never_lists_tree (fun _ => None)
              git_first_commit []) as (_ & _ & H).
  apply H; reflexivity.
Defined.

(* ===================================================================== *)
(** ** The change detector: which changes count as code *)
(* ===================================================================== *)

Section CodePattern.

Lemma codePattern_here_cons (c : N) (rest : jsstring) :
  Detect.codePattern_here (c :: rest)
  = (N.eqb c 46
     && existsb (fun word => str_eqb rest word) Detect.code_extensions)
    || startsWith (c :: rest) (lit ".github/workflows/").
Proof.
  unfold Detect.codePattern_here. f_equal.
  destruct c as [|p]; [reflexivity|].
  do 6 (try (destruct p as [p|p|]; try reflexivity)).
Qed.

Lemma codePattern_here_iff (s : jsstring) :
  Detect.codePattern_here s = true <->
  (exists word, In word Detect.code_extensions /\ s = lit "." ++ word)
  \/ startsWith s (lit ".github/workflows/") = true.
Proof.
  destruct s as [|c rest].
  - split; [discriminate|]. intros [(word & _ & H)|H]; discriminate.
  - rewrite codePattern_here_cons, orb_true_iff, andb_true_iff, N.eqb_eq,
      existsb_exists.
    split; (intros [H|H]; [left|right; exact H]).
    + destruct H as (-> & word & Hin & Heq).
      apply str_eqb_eq in Heq. subst rest. exists word. split; [exact Hin|].
      reflexivity.
    + destruct H as (word & Hin & Heq). injection Heq as -> ->.
      split; [reflexivity|]. exists word. split; [exact Hin|].
      apply str_eqb_eq. reflexivity.
Qed.

Lemma codePattern_test_somewhere (s : jsstring) :
  Detect.codePattern_test s = true <->
  exists a b, s = a ++ b /\ Detect.codePattern_here b = true.
Proof.
  induction s as [|c s IH].
  - split.
    + intros H. vm_compute in H. discriminate.
    + intros (a & b & Heq & H). symmetry in Heq.
      apply app_eq_nil in Heq as [_ ->]. vm_compute in H. discriminate.
  - change (Detect.codePattern_test (c :: s))
      with (Detect.codePattern_here (c :: s) || Detect.codePattern_test s).
    rewrite orb_true_iff, IH. split.
    + intros [H|(a & b & -> & H)].
      * exists [], (c :: s). split; [reflexivity | exact H].
      * exists (c :: a), b. split; [reflexivity | exact H].
    + intros ([|x a] & b & Heq & H).
      * left. simpl in Heq. rewrite Heq. exact H.
      * right. injection Heq as -> ->. exists a, b.
        split; [reflexivity | exact H].
Qed.

Lemma startsWith_includes (s p : jsstring) :
  startsWith s p = true -> includes s p = true.
Proof.
  intros H. destruct s; simpl; rewrite H; reflexivity.
Qed.

End CodePattern.

(** X15.  The code pattern accepts a path exactly when the path ends
    with a dot followed by one of [mjs], [js], [json], [yml], [yaml], or
    holds the workflows directory somewhere inside it (not only at its
    start). *)
Theorem codePattern_test_decoded (file : jsstring) :
  Detect.codePattern_test file = true <->
  (exists word,
      In word Detect.code_extensions /\ endsWith file (lit "." ++ word) = true)
  \/ includes file (lit ".github/workflows/") = true.
Proof.
  rewrite codePattern_test_somewhere. split.
  - intros (a & b & -> & H). apply codePattern_here_iff in H as [H|H].
    + destruct H as (word & Hin & ->). left. exists word.
      split; [exact Hin | apply endsWith_app].
    + right. apply includes_iff. apply startsWith_iff in H as [t ->].
      exists a, t. reflexivity.
  - intros [(word & Hin & H)|H].
    + apply endsWith_iff in H as [t ->].
      exists t, (lit "." ++ word). split; [reflexivity|].
      apply codePattern_here_iff. left. exists word. split; [exact Hin|].
      reflexivity.
    + apply includes_iff in H as (a & b & ->).
      exists a, (lit ".github/workflows/" ++ b). split; [reflexivity|].
      apply codePattern_here_iff. right. apply startsWith_app.
Qed.

Section Flags.

Lemma codeChanged_iff (files : list jsstring) :
  Detect.codeChanged files = true <->
  exists file, In file files
               /\ Detect.isExcludedFromCodeChanges file = false
               /\ Detect.codePattern_test file = true.
Proof.
  unfold Detect.codeChanged. cbv zeta. rewrite existsb_exists. split.
  - intros (file & Hin & Ht). apply filter_In in Hin as [Hin Hex].
    exists file. apply negb_true_iff in Hex. auto.
  - intros (file & Hin & Hex & Ht). exists file. split; [|exact Ht].
    apply filter_In. split; [exact Hin|]. rewrite Hex. reflexivity.
Qed.

Lemma workflow_file_not_in_excluded_folder (file : jsstring) :
  startsWith file (lit ".github/workflows/") = true ->
  existsb (fun folder => startsWith file folder) Detect.excludedFolders
  = false.
Proof.
  intros H. apply startsWith_iff in H as [t ->]. reflexivity.
Qed.

Lemma getChangedFiles_returns (env : Validate.Env) (g : Detect.Git)
  (l : list Detect.Event) :
  exists files errs,
    Detect.getChangedFiles env g l = (Ok files, l ++ errs).
Proof.
  assert (Hhead : forall l0, exists files errs,
             Detect.compareHead g l0 = (Ok files, l0 ++ errs)).
  { intros l0. rewrite compareHead_run.
    destruct (g Detect.DiffHead) as [out|].
    - exists (Detect.lines_of (trim out)), []. rewrite app_nil_r.
      reflexivity.
    - eexists [], _. reflexivity. }
  destruct (compares_revisions env) eqn:E.
  - rewrite (getChangedFiles_revisions g env l E).
    destruct (base_obtainable env g).
    + destruct (g (Detect.DiffShas (base_of env) (head_of env))) as [out|].
      * exists (Detect.lines_of (trim out)), []. rewrite app_nil_r.
        reflexivity.
      * eexists [], _. reflexivity.
    + destruct (Hhead (l ++ [Detect.ErrDiffFailed])) as (files & errs & ->).
      exists files, ([Detect.ErrDiffFailed] ++ errs).
      rewrite app_assoc. reflexivity.
  - rewrite (getChangedFiles_other_events g env l E). apply Hhead.
Qed.

Lemma setOutput_run (env : Validate.Env) (append : Detect.Appender)
  (name value : jsstring) (l : list Detect.Event) :
  Detect.setOutput env append name value l
  = match output_file env with
    | None => (Ok tt, l ++ [Detect.SetOutput None name value])
    | Some file =>
        match append file (output_line (name, value)) with
        | Some error => (Throw error, l)
        | None => (Ok tt, l ++ [Detect.SetOutput (Some file) name value])
        end
    end.
Proof.
  unfold Detect.setOutput, output_file, output_line, Detect.mbind,
    Detect.emit, Detect.mthrow, Detect.mret.
  cbv zeta. simpl fst. simpl snd.
  destruct (env "GITHUB_OUTPUT"%string) as [[|c file]|]; try reflexivity.
  change (Validate.env_truthy (Some (c :: file))) with true.
  change (Validate.or_else_unset (Some (c :: file))) with (c :: file).
  cbv iota.
  destruct (append (c :: file) (name ++ lit "=" ++ value ++ NL));
    reflexivity.
Qed.

(** [detectChanges] is the six calls applied to the changed files. *)
Lemma detectChanges_run (env : Validate.Env) (append : Detect.Appender)
  (g : Detect.Git) (l l' : list Detect.Event) (files : list jsstring) :
  Detect.getChangedFiles env g l = (Ok files, l') ->
  Detect.detectChanges env append g l
  = setOutputs env append (output_flags files) l'.
Proof.
  intros H. unfold Detect.detectChanges.
  unfold Detect.mbind at 1. rewrite H.
  unfold output_flags, setOutputs. simpl fst. simpl snd.
  unfold Detect.mbind.
  repeat match goal with
         | |- context [Detect.setOutput env append ?n ?v ?l0] =>
             destruct (Detect.setOutput env append n v l0) as [[[]|e|c] ?]
         end; reflexivity.
Qed.

Lemma setOutputs_no_file (env : Validate.Env) (append : Detect.Appender)
  (flags : list (jsstring * jsstring)) :
  output_file env = None ->
  forall l, setOutputs env append flags l = (Ok tt, l ++ outputs_of None flags).
Proof.
  intros Hf. induction flags as [|[n v] flags IH]; intros l.
  - simpl. unfold Detect.mret. rewrite app_nil_r. reflexivity.
  - simpl setOutputs. unfold Detect.mbind. simpl fst. simpl snd.
    rewrite setOutput_run, Hf, IH. simpl. rewrite <- app_assoc. reflexivity.
Qed.

Lemma setOutputs_appended (env : Validate.Env) (append : Detect.Appender)
  (file : jsstring) (flags : list (jsstring * jsstring)) :
  output_file env = Some file ->
  (forall flag, In flag flags -> append file (output_line flag) = None) ->
  forall l,
    setOutputs env append flags l = (Ok tt, l ++ outputs_of (Some file) flags).
Proof.
  intros Hf. induction flags as [|[n v] flags IH]; intros Hall l.
  - simpl. unfold Detect.mret. rewrite app_nil_r. reflexivity.
  - simpl setOutputs. unfold Detect.mbind. simpl fst. simpl snd.
    rewrite setOutput_run, Hf, (Hall (n, v)) by (left; reflexivity).
    rewrite IH by (intros flag Hin; apply Hall; right; exact Hin).
    simpl. rewrite <- app_assoc. reflexivity.
Qed.

Lemma setOutputs_append_fails (env : Validate.Env) (append : Detect.Appender)
  (file : jsstring) (before after : list (jsstring * jsstring))
  (flag : jsstring * jsstring) (error : Exn) :
  output_file env = Some file ->
  (forall earlier, In earlier before ->
                   append file (output_line earlier) = None) ->
  append file (output_line flag) = Some error ->
  forall l,
    setOutputs env append (before ++ flag :: after) l
    = (Throw error, l ++ outputs_of (Some file) before).
Proof.
  intros Hf. induction before as [|[n v] before IH]; intros Hall Hfail l.
  - destruct flag as [n v]. simpl app. simpl setOutputs.
    unfold Detect.mbind. simpl fst. simpl snd.
    rewrite setOutput_run, Hf, Hfail. simpl. rewrite app_nil_r.
    reflexivity.
  - simpl app. simpl setOutputs. unfold Detect.mbind. simpl fst. simpl snd.
    rewrite setOutput_run, Hf, (Hall (n, v)) by (left; reflexivity).
    rewrite IH by (try exact Hfail; intros q Hin; apply Hall; right;
                   exact Hin).
    simpl. rewrite <- app_assoc. reflexivity.
Qed.

End Flags.

(** X16.  How the any-code-changed flag relates to the other flags.  A
    change set whose files are all excluded (markdown, or under the
    changeset, docs, experiments or examples folders) is not a code
    change, whatever the other flags say.  A change of [package.json], of
    a not excluded [.mjs] or [.js] file, or of a workflow file that is not
    markdown is one.  A markdown file under the workflows directory sets
    the workflow and docs flags and leaves the code flag alone. *)
Theorem any_code_changed_flag (files : list jsstring) :
  (forallb Detect.isExcludedFromCodeChanges files = true ->
   Detect.codeChanged files = false)
  /\ (Detect.packageChanged files = true -> Detect.codeChanged files = true)
  /\ (forall file,
        In file files ->
        Detect.isExcludedFromCodeChanges file = false ->
        endsWith file (lit ".mjs") = true \/ endsWith file (lit ".js") = true ->
        Detect.codeChanged files = true)
  /\ (forall file,
        In file files ->
        startsWith file (lit ".github/workflows/") = true ->
        endsWith file (lit ".md") = false ->
        Detect.codeChanged files = true)
  /\ (forall file,
        startsWith file (lit ".github/workflows/") = true ->
        endsWith file (lit ".md") = true ->
        Detect.workflowChanged (file :: files) = true
        /\ Detect.docsChanged (file :: files) = true
        /\ Detect.codeChanged (file :: files) = Detect.codeChanged files).
Proof.
  split; [|split; [|split; [|split]]].
  - intros H. unfold Detect.codeChanged. cbv zeta.
    replace (filter _ files) with (@nil jsstring); [reflexivity|].
    symmetry. apply filter_none. intros file Hin.
    rewrite forallb_forall in H. rewrite (H file Hin). reflexivity.
  - intros H. apply existsb_exists in H as (file & Hin & Heq).
    apply str_eqb_eq in Heq. subst file.
    apply codeChanged_iff. exists (lit "package.json").
    split; [exact Hin|]. split; reflexivity.
  - intros file Hin Hex Hend. apply codeChanged_iff. exists file.
    split; [exact Hin|]. split; [exact Hex|].
    apply codePattern_test_decoded. left.
    destruct Hend as [H|H].
    + exists (lit "mjs"). split; [simpl; auto | exact H].
    + exists (lit "js"). split; [simpl; auto | exact H].
  - intros file Hin Hs Hmd. apply codeChanged_iff. exists file.
    split; [exact Hin|]. split.
    + unfold Detect.isExcludedFromCodeChanges. rewrite Hmd.
      apply workflow_file_not_in_excluded_folder, Hs.
    + apply codePattern_test_decoded. right.
      apply startsWith_includes, Hs.
  - intros file Hs Hmd. split; [|split].
    + apply existsb_exists. exists file. split; [left; reflexivity | exact Hs].
    + apply existsb_exists. exists file.
      split; [left; reflexivity | exact Hmd].
    + unfold Detect.codeChanged. cbv zeta.
      change (filter ?f (file :: files))
        with (if f file then file :: filter f files else filter f files).
      cbv beta. unfold Detect.isExcludedFromCodeChanges at 1. rewrite Hmd.
      reflexivity.
Qed.

Lemma any_code_changed_flag_witness :
  Detect.codeChanged
    [lit "README.md"; lit "experiments/try.mjs"; lit ".changeset/a.md"]
  = false
  /\ Detect.codeChanged [lit "README.md"; lit "package.json"] = true.
Proof.
  split.
  - destruct (any_code_changed_flag
                [lit "README.md"; lit "experiments/try.mjs";
                 lit ".changeset/a.md"]) as (H & _).
    apply H. reflexivity.
  - destruct (any_code_changed_flag [lit "README.md"; lit "package.json"])
      as (_ & H & _).
    apply H. reflexivity.
Defined.

(** X17.  Let [getChangedFiles] have returned its list.  When no output
    file is named ([GITHUB_OUTPUT] unset or empty), [detectChanges] sets
    the six outputs in the order of the calls and ends normally.  When
    one is named and every append to it succeeds, it does the same, each
    output addressed to that file.  When an append fails, the exception
    escapes [detectChanges], which catches nothing: the outputs before
    the failing one have been set, that one and the later ones have
    not. *)
Theorem detectChanges_sets_six_outputs
  (env : Validate.Env) (append : Detect.Appender) (g : Detect.Git)
  (l l' : list Detect.Event) (files : list jsstring) :
  Detect.getChangedFiles env g l = (Ok files, l') ->
  (output_file env = None ->
   Detect.detectChanges env append g l
   = (Ok tt, l' ++ outputs_for None files))
  /\ (forall file,
        output_file env = Some file ->
        (forall flag, In flag (output_flags files) ->
                      append file (output_line flag) = None) ->
        Detect.detectChanges env append g l
        = (Ok tt, l' ++ outputs_for (Some file) files))
  /\ (forall file before flag after error,
        output_file env = Some file ->
        output_flags files = before ++ flag :: after ->
        (forall earlier, In earlier before ->
                         append file (output_line earlier) = None) ->
        append file (output_line flag) = Some error ->
        Detect.detectChanges env append g l
        = (Throw error, l' ++ outputs_of (Some file) before)).
Proof.
  intros H. rewrite (detectChanges_run env append g l l' files H).
  split; [|split].
  - intros Hf. apply setOutputs_no_file, Hf.
  - intros file Hf Hall. apply setOutputs_appended; assumption.
  - intros file before flag after error Hf Hsplit Hall Hfail.
    rewrite Hsplit. apply setOutputs_append_fails; assumption.
Qed.

Lemma detectChanges_sets_six_outputs_witness :
  Detect.detectChanges (fun _ => None) append_fails git_first_commit []
  = (Ok tt, [Detect.ErrExec Detect.DiffHead] ++ outputs_for None [])
  /\ Detect.detectChanges output_env append_ok git_first_commit []
     = (Ok tt,
        [Detect.ErrExec Detect.DiffHead]
        ++ outputs_for (Some (lit "/missing/output")) [])
  /\ Detect.detectChanges output_env append_fails git_first_commit []
     = (Throw (ENOENT (lit "/missing/output")),
        [Detect.ErrExec Detect.DiffHead]).
Proof.
  split; [|split].
  - destruct (detectChanges_sets_six_outputs (fun _ => None) append_fails
                git_first_commit [] [Detect.ErrExec Detect.DiffHead] [])
      as (H & _); [reflexivity|].
    apply H. reflexivity.
  - destruct (detectChanges_sets_six_outputs output_env append_ok
                git_first_commit [] [Detect.ErrExec Detect.DiffHead] [])
      as (_ & H & _); [reflexivity|].
    apply H; reflexivity.
  - destruct (detectChanges_sets_six_outputs output_env append_fails
                git_first_commit [] [Detect.ErrExec Detect.DiffHead] [])
      as (_ & _ & H); [reflexivity|].
    rewrite (H (lit "/missing/output") []
               (lit "mjs-changed", lit "false")
               (tl (output_flags []))
               (ENOENT (lit "/missing/output")));
      try reflexivity.
    intros earlier [].
Defined.

(* ===================================================================== *)
(** ** The generated names *)
(* ===================================================================== *)

Section GeneratedNames.

(** All pairs of draws in range, compared name against name. *)
Lemma generated_names_distinct :
  forallb (fun i => forallb (fun j => forallb (fun i' => forallb (fun j' =>
    implb (str_eqb (Merge.generateChangesetName (Merge.mkRandom i j))
                   (Merge.generateChangesetName (Merge.mkRandom i' j')))
          (Nat.eqb i i' && Nat.eqb j j'))
    (seq 0 (length Merge.nouns))) (seq 0 (length Merge.adjectives)))
    (seq 0 (length Merge.nouns))) (seq 0 (length Merge.adjectives))
  = true.
Proof. vm_compute. reflexivity. Qed.

Lemma generateChangesetName_inj (r r' : Merge.Random) :
  Merge.in_range r -> Merge.in_range r' ->
  Merge.generateChangesetName r = Merge.generateChangesetName r' ->
  r = r'.
Proof.
  destruct r as [i j], r' as [i' j']. unfold Merge.in_range. simpl.
  intros [Hi Hj] [Hi' Hj'] Heq.
  pose proof generated_names_distinct as H.
  rewrite forallb_forall in H.
  specialize (H i (proj2 (in_seq _ _ _) (conj (Nat.le_0_l _) Hi))).
  rewrite forallb_forall in H.
  specialize (H j (proj2 (in_seq _ _ _) (conj (Nat.le_0_l _) Hj))).
  rewrite forallb_forall in H.
  specialize (H i' (proj2 (in_seq _ _ _) (conj (Nat.le_0_l _) Hi'))).
  rewrite forallb_forall in H.
  specialize (H j' (proj2 (in_seq _ _ _) (conj (Nat.le_0_l _) Hj'))).
  apply (proj2 (str_eqb_eq _ _)) in Heq. rewrite Heq in H. simpl in H.
  apply andb_true_iff in H as [H1 H2].
  apply Nat.eqb_eq in H1, H2. subst. reflexivity.
Qed.

End GeneratedNames.

(** X18.  The name of the merged file determines the two draws: runs
    whose draws are in range write to the same file only if they drew the
    same adjective and the same noun.  The name is always kept by the
    filter for changeset files, so the merged file is itself a changeset
    file. *)
Theorem mergedFileName_determines_draws (r r' : Merge.Random) :
  Merge.in_range r -> Merge.in_range r' ->
  (Merge.mergedFileName r = Merge.mergedFileName r' <-> r = r')
  /\ is_changeset_file (Merge.mergedFileName r) = true.
Proof.
  intros Hr Hr'. split; [split|].
  - unfold Merge.mergedFileName. intros H.
    apply app_inv_head, app_inv_tail in H.
    apply generateChangesetName_inj; assumption.
  - intros ->. reflexivity.
  - apply mergedFileName_is_changeset_file.
Qed.

Lemma mergedFileName_determines_draws_witness :
  (Merge.mergedFileName random_00 = Merge.mergedFileName (Merge.mkRandom 26 29)
   <-> random_00 = Merge.mkRandom 26 29)
  /\ is_changeset_file (Merge.mergedFileName random_00) = true.
Proof.
  apply mergedFileName_determines_draws; split; vm_compute; lia.
Defined.

(* ===================================================================== *)
(** ** What the scripts leave alone *)
(* ===================================================================== *)

(** X19.  The validator only reads.  Whatever the environment, the
    outcome of the git commands and the directory, a run leaves the
    directory, the clock and the record of file operations as they were
    and only adds lines to the error stream; it ends either with a
    success, the world untouched, or with exit status 1, and no exception
    escapes it. *)
Theorem validator_only_reads
  (env : Validate.Env) (g : Validate.Git) (w : World) :
  exists res errs,
    Validate.main env g w = (res, with_stderr w errs)
    /\ match res with
       | Ok _ => Validate.main env g w = (res, w)
       | Exit n => n = 1%Z
       | Throw _ => False
       end.
Proof.
  destruct (getAddedChangesetFiles_frame g env w) as [[files Hf]|[_ Hf]].
  2:{ rewrite (main_detector_raises env g w _ Hf).
      eexists _, _. split; reflexivity. }
  rewrite (main_of_detected env g w files Hf).
  assert (Hw : with_stderr w [] = w).
  { destruct w. unfold with_stderr. simpl. rewrite app_nil_r. reflexivity. }
  destruct files as [|f [|f' rest]].
  - rewrite validate_nil. eexists _, _. split; reflexivity.
  - pose proof (validate_single f w) as Hs. cbv zeta in Hs. rewrite Hs.
    destruct (stat (path_join CHANGESET_DIR f) w) as [c|].
    + destruct (Validate.validateContent (content c)).
      * exists (Ok (Validate.mkPassed type description)), [].
        rewrite Hw. split; reflexivity.
      * eexists _, _. split; reflexivity.
    + eexists _, _. split; reflexivity.
  - rewrite validate_many. eexists _, _. split; reflexivity.
Qed.

(** X20.  When the changeset directory does not exist, the merger stops
    on the exception of the directory listing, which nothing catches,
    with no file written and no line on the error stream; the validator's
    listing of all changesets checks for the directory first and returns
    the empty list. *)
Theorem missing_changeset_directory (w : World) :
  changeset_dir w = Absent ->
  (forall r : Merge.Random,
      Merge.main r w = (Throw (ENOENT CHANGESET_DIR), w))
  /\ Validate.getAllChangesets w = (Ok [], w).
Proof.
  intros H. split.
  - intros r. unfold Merge.main, bind, readdirSync. rewrite H. reflexivity.
  - unfold Validate.getAllChangesets, bind, existsSync. rewrite H.
    reflexivity.
Qed.

Lemma missing_changeset_directory_witness :
  (forall r : Merge.Random,
      Merge.main r no_dir = (Throw (ENOENT CHANGESET_DIR), no_dir))
  /\ Validate.getAllChangesets no_dir = (Ok [], no_dir).
Proof.
  apply missing_changeset_directory. reflexivity.
Defined.
